(** * androidbinary: a shallow embedding of the binary resource decoder

    The development follows the two Go sources of the repository:

    - [main.go] (package main): the chunk dispatcher [readChunk], the
      containers [readTable] and [readXML], the string pool decoder
      ([ReadStringPool], [ReadUTF16], [ReadUTF8]), the XML event translators
      and the resource table walker;
    - the facade file (package androidbinary): the late-binding wrappers
      [Bool] and [Int32] and their accessors.

    Conventions.
    - A Go [uintN] is a [Z] in [0, 2^N); every wrapping operation of the
      source is written out with [wrap16] / [wrap32].  An [int64] offset is a
      [Z]: all offsets of the program are sums of unsigned 32-bit fields and,
      for a read to succeed, lie below the length of the byte source, so no
      [int64] operation of the source wraps.
    - A Go [string] is a sequence of bytes: Rocq's [string], whose characters
      are 8-bit.
    - A Go function returning [(T, error)] returns a pair whose second
      component is [None] for a nil error.  A run-time panic is the [Panic]
      outcome.  The unbounded loops and the recursion of the dispatcher are
      given fuel; [OutOfFuel] is not an outcome of the Go program. *)

From Stdlib Require Import String Ascii.
From Stdlib Require Import Strings.Byte.
From Stdlib Require Import ZArith List Bool Lia Arith.
Import ListNotations.
Open Scope Z_scope.

(** ** Machine integers *)

Definition wrap16 (z : Z) : Z := z mod 65536.
Definition wrap32 (z : Z) : Z := z mod 4294967296.

Definition u8 (b : byte) : Z := Z.of_N (Byte.to_N b).

(** Little-endian fields of a buffer, addressed by byte position.  A position
    past the end of the buffer reads as zero; the decoders below are only
    applied to buffers of the full size of their struct. *)
Definition byte_at (bs : list byte) (i : nat) : Z := u8 (nth i bs x00).

Definition le16 (bs : list byte) (i : nat) : Z :=
  Z.lor (byte_at bs i) (Z.shiftl (byte_at bs (i + 1)) 8).

Definition le32 (bs : list byte) (i : nat) : Z :=
  Z.lor (Z.lor (byte_at bs i) (Z.shiftl (byte_at bs (i + 1)) 8))
        (Z.lor (Z.shiftl (byte_at bs (i + 2)) 16)
               (Z.shiftl (byte_at bs (i + 3)) 24)).

(** [[]uint16] and [[]uint32] payloads. *)
Fixpoint le16s (bs : list byte) : list Z :=
  match bs with
  | b0 :: b1 :: rest => Z.lor (u8 b0) (Z.shiftl (u8 b1) 8) :: le16s rest
  | _ => []
  end.

Fixpoint le32s (bs : list byte) : list Z :=
  match bs with
  | b0 :: b1 :: b2 :: b3 :: rest =>
      Z.lor (Z.lor (u8 b0) (Z.shiftl (u8 b1) 8))
            (Z.lor (Z.shiftl (u8 b2) 16) (Z.shiftl (u8 b3) 24)) :: le32s rest
  | _ => []
  end.

(** ** Errors, panics and outcomes *)

Inductive error : Type :=
| EOF                                   (* io.EOF *)
| ErrUnexpectedEOF                      (* io.ErrUnexpectedEOF *)
| ErrSyntax (fn : string) (s : string)  (* strconv.NumError, ErrSyntax *)
| ErrRange (fn : string) (s : string)   (* strconv.NumError, ErrRange *)
| ErrInvalidType (tyname : string)      (* fmt.Errorf("invalid type: %T") *)
| ErrOther (msg : string).              (* an error of a collaborator *)

Inductive panic : Type :=
| NilDereference
| IndexOutOfRange (index length : Z).

Inductive result (A : Type) : Type :=
| Ok (a : A)
| Panic (p : panic)
| OutOfFuel.

Arguments Ok {A} a.
Arguments Panic {A} p.
Arguments OutOfFuel {A}.

Definition bind {A B : Type} (m : result A) (k : A -> result B) : result B :=
  match m with
  | Ok a => k a
  | Panic p => Panic p
  | OutOfFuel => OutOfFuel
  end.

Notation "x <- m ;; k" := (bind m (fun x => k))
  (at level 61, m at next level, right associativity).
Notation "' p <- m ;; k" := (bind m (fun p => k))
  (at level 61, p pattern, m at next level, right associativity).

(** ** io.SectionReader over a byte source

    The byte source given to [NewFile] is an [io.ReaderAt] backed by a finite
    sequence of bytes.  A section reader keeps the source, the absolute
    position of its origin, its cursor and the absolute end of its window.
    Nesting is flattened: a section of a section reads the same bytes as the
    chain of Go readers, since each [ReadAt] of the chain clips the request
    to its own limit. *)

Record SectionReader : Type := mkSR {
  sr_src : list byte;
  sr_base : Z;
  sr_off : Z;
  sr_limit : Z
}.

Definition maxint64 : Z := 9223372036854775807.

(** The source itself, seen as a reader at position 0. *)
Definition ReaderAt (src : list byte) : SectionReader :=
  mkSR src 0 0 (Z.of_nat (length src)).

(** [io.NewSectionReader(r, off, n)]. *)
Definition NewSectionReader (r : SectionReader) (off n : Z) : SectionReader :=
  let base := sr_base r + off in
  mkSR (sr_src r) base base (Z.min (sr_limit r) (base + n)).

(** [sr.Seek(offset, os.SEEK_SET)] for a non-negative offset. *)
Definition Seek (sr : SectionReader) (offset : Z) : SectionReader :=
  mkSR (sr_src sr) (sr_base sr) (sr_base sr + offset) (sr_limit sr).

Definition slice (src : list byte) (pos n : Z) : list byte :=
  firstn (Z.to_nat n) (skipn (Z.to_nat pos) src).

Definition available (sr : SectionReader) : Z :=
  Z.max 0 (Z.min (sr_limit sr) (Z.of_nat (length (sr_src sr))) - sr_off sr).

Definition advance (sr : SectionReader) (n : Z) : SectionReader :=
  mkSR (sr_src sr) (sr_base sr) (sr_off sr + n) (sr_limit sr).

(** [io.ReadFull(sr, buf)] with [len(buf) = n], as [binary.Read] calls it: an
    empty buffer is filled without touching the reader; a short read moves
    the cursor over what was there and reports [io.EOF] when nothing was read
    and [io.ErrUnexpectedEOF] otherwise. *)
Definition ReadFull (sr : SectionReader) (n : Z)
  : SectionReader * (list byte + error) :=
  if n <=? 0 then (sr, inl [])
  else
    let a := available sr in
    if n <=? a then (advance sr n, inl (slice (sr_src sr) (sr_off sr) n))
    else if a =? 0 then (sr, inr EOF)
    else (advance sr a, inr ErrUnexpectedEOF).

(** [binary.Read(sr, binary.LittleEndian, &x)] for a fixed-size [x]: the
    destination is written only when all its bytes were read. *)
Definition binary_Read {A : Type} (size : Z) (decode : list byte -> A)
    (sr : SectionReader) : SectionReader * (A + error) :=
  match ReadFull sr size with
  | (sr', inl bs) => (sr', inl (decode bs))
  | (sr', inr e) => (sr', inr e)
  end.

(** The same call when the source drops the error: the destination keeps its
    previous value [old]. *)
Definition binary_Read_ignore {A : Type} (size : Z) (decode : list byte -> A)
    (old : A) (sr : SectionReader) : SectionReader * A :=
  match binary_Read size decode sr with
  | (sr', inl a) => (sr', a)
  | (sr', inr _) => (sr', old)
  end.

(** ** The structs of main.go and their wire layout

    [binary.Read] decodes a struct field by field, little-endian, without
    padding.  Each [decode_X] below reads the fields of [X] at their byte
    positions in a buffer of [sizeof_X] bytes; [zero_X] is the value of
    [new(X)]. *)

Record ResChunkHeader : Type := mkResChunkHeader {
  ch_Type : Z;        (* uint16 *)
  ch_HeaderSize : Z;  (* uint16 *)
  ch_Size : Z         (* uint32 *)
}.

Definition sizeof_ResChunkHeader : Z := 8.
Definition zero_ResChunkHeader : ResChunkHeader := mkResChunkHeader 0 0 0.
Definition decode_ResChunkHeader_at (bs : list byte) (p : nat) : ResChunkHeader :=
  mkResChunkHeader (le16 bs p) (le16 bs (p + 2)) (le32 bs (p + 4)).
Definition decode_ResChunkHeader (bs : list byte) : ResChunkHeader :=
  decode_ResChunkHeader_at bs 0.

Definition RES_NULL_TYPE : Z := 0x0000.
Definition RES_STRING_POOL_TYPE : Z := 0x0001.
Definition RES_TABLE_TYPE : Z := 0x0002.
Definition RES_XML_TYPE : Z := 0x0003.
Definition RES_XML_START_NAMESPACE_TYPE : Z := 0x0100.
Definition RES_XML_END_NAMESPACE_TYPE : Z := 0x0101.
Definition RES_XML_START_ELEMENT_TYPE : Z := 0x0102.
Definition RES_XML_END_ELEMENT_TYPE : Z := 0x0103.
Definition RES_XML_CDATA_TYPE : Z := 0x0104.
Definition RES_XML_RESOURCE_MAP_TYPE : Z := 0x0180.
Definition RES_TABLE_PACKAGE_TYPE : Z := 0x0200.
Definition RES_TABLE_TYPE_TYPE : Z := 0x0201.
Definition RES_TABLE_TYPE_SPEC_TYPE : Z := 0x0202.

Definition UTF8_FLAG : Z := Z.shiftl 1 8.

(** [ResStringPoolRef] is a [uint32]. *)
Definition ResStringPoolRef : Type := Z.
Definition NilResStringPoolRef : ResStringPoolRef := 0xFFFFFFFF.

Record ResStringPoolHeader : Type := mkResStringPoolHeader {
  sph_Header : ResChunkHeader;
  sph_StringCount : Z;
  sph_StyleCount : Z;
  sph_Flags : Z;
  sph_StringStart : Z;
  sph_StylesStart : Z
}.

Definition sizeof_ResStringPoolHeader : Z := 28.
Definition zero_ResStringPoolHeader : ResStringPoolHeader :=
  mkResStringPoolHeader zero_ResChunkHeader 0 0 0 0 0.
Definition decode_ResStringPoolHeader (bs : list byte) : ResStringPoolHeader :=
  mkResStringPoolHeader (decode_ResChunkHeader_at bs 0)
    (le32 bs 8) (le32 bs 12) (le32 bs 16) (le32 bs 20) (le32 bs 24).

Record ResStringPool : Type := mkResStringPool {
  sp_Header : ResStringPoolHeader;
  sp_Strings : list string;
  sp_Styles : list string
}.

Record ResXMLTreeNode : Type := mkResXMLTreeNode {
  node_Header : ResChunkHeader;
  node_LineNumber : Z;
  node_Comment : ResStringPoolRef
}.

Definition sizeof_ResXMLTreeNode : Z := 16.
Definition zero_ResXMLTreeNode : ResXMLTreeNode :=
  mkResXMLTreeNode zero_ResChunkHeader 0 0.
Definition decode_ResXMLTreeNode (bs : list byte) : ResXMLTreeNode :=
  mkResXMLTreeNode (decode_ResChunkHeader_at bs 0) (le32 bs 8) (le32 bs 12).

Record ResXMLTreeNamespaceExt : Type := mkResXMLTreeNamespaceExt {
  ns_Prefix : ResStringPoolRef;
  ns_Uri : ResStringPoolRef
}.

Definition sizeof_ResXMLTreeNamespaceExt : Z := 8.
Definition zero_ResXMLTreeNamespaceExt : ResXMLTreeNamespaceExt :=
  mkResXMLTreeNamespaceExt 0 0.
Definition decode_ResXMLTreeNamespaceExt (bs : list byte)
  : ResXMLTreeNamespaceExt :=
  mkResXMLTreeNamespaceExt (le32 bs 0) (le32 bs 4).

Record ResXMLTreeAttrExt : Type := mkResXMLTreeAttrExt {
  ext_NS : ResStringPoolRef;
  ext_Name : ResStringPoolRef;
  ext_AttributeStart : Z;   (* uint16 *)
  ext_AttributeSize : Z;    (* uint16 *)
  ext_AttributeCount : Z;   (* uint16 *)
  ext_IdIndex : Z;
  ext_ClassIndex : Z;
  ext_StyleIndex : Z
}.

Definition sizeof_ResXMLTreeAttrExt : Z := 20.
Definition zero_ResXMLTreeAttrExt : ResXMLTreeAttrExt :=
  mkResXMLTreeAttrExt 0 0 0 0 0 0 0 0.
Definition decode_ResXMLTreeAttrExt (bs : list byte) : ResXMLTreeAttrExt :=
  mkResXMLTreeAttrExt (le32 bs 0) (le32 bs 4) (le16 bs 8) (le16 bs 10)
    (le16 bs 12) (le16 bs 14) (le16 bs 16) (le16 bs 18).

Definition TYPE_NULL : Z := 0x00.
Definition TYPE_REFERENCE : Z := 0x01.
Definition TYPE_ATTRIBUTE : Z := 0x02.
Definition TYPE_STRING : Z := 0x03.
Definition TYPE_FLOAT : Z := 0x04.
Definition TYPE_DIMENSION : Z := 0x05.
Definition TYPE_FRACTION : Z := 0x06.
Definition TYPE_INT_DEC : Z := 0x10.
Definition TYPE_INT_HEX : Z := 0x11.
Definition TYPE_INT_BOOLEAN : Z := 0x12.
Definition TYPE_INT_COLOR_ARGB8 : Z := 0x1c.
Definition TYPE_INT_COLOR_RGB8 : Z := 0x1d.
Definition TYPE_INT_COLOR_ARGB4 : Z := 0x1e.
Definition TYPE_INT_COLOR_RGB4 : Z := 0x1f.

Record ResValue : Type := mkResValue {
  val_Size : Z;      (* uint16 *)
  val_Res0 : Z;      (* uint8 *)
  val_DataType : Z;  (* uint8 *)
  val_Data : Z       (* uint32 *)
}.

Definition sizeof_ResValue : Z := 8.
Definition zero_ResValue : ResValue := mkResValue 0 0 0 0.
Definition decode_ResValue_at (bs : list byte) (p : nat) : ResValue :=
  mkResValue (le16 bs p) (byte_at bs (p + 2)) (byte_at bs (p + 3))
    (le32 bs (p + 4)).
Definition decode_ResValue (bs : list byte) : ResValue :=
  decode_ResValue_at bs 0.

Record ResXMLTreeAttribute : Type := mkResXMLTreeAttribute {
  attr_NS : ResStringPoolRef;
  attr_Name : ResStringPoolRef;
  attr_RawValue : ResStringPoolRef;
  attr_TypedValue : ResValue
}.

Definition sizeof_ResXMLTreeAttribute : Z := 20.
Definition zero_ResXMLTreeAttribute : ResXMLTreeAttribute :=
  mkResXMLTreeAttribute 0 0 0 zero_ResValue.
Definition decode_ResXMLTreeAttribute (bs : list byte) : ResXMLTreeAttribute :=
  mkResXMLTreeAttribute (le32 bs 0) (le32 bs 4) (le32 bs 8)
    (decode_ResValue_at bs 12).

Record ResXMLTreeEndElementExt : Type := mkResXMLTreeEndElementExt {
  end_NS : ResStringPoolRef;
  end_Name : ResStringPoolRef
}.

Definition sizeof_ResXMLTreeEndElementExt : Z := 8.
Definition decode_ResXMLTreeEndElementExt (bs : list byte)
  : ResXMLTreeEndElementExt :=
  mkResXMLTreeEndElementExt (le32 bs 0) (le32 bs 4).

Record ResTableHeader : Type := mkResTableHeader {
  th_Header : ResChunkHeader;
  th_PackageCount : Z
}.

Definition sizeof_ResTableHeader : Z := 12.
Definition zero_ResTableHeader : ResTableHeader :=
  mkResTableHeader zero_ResChunkHeader 0.
Definition decode_ResTableHeader (bs : list byte) : ResTableHeader :=
  mkResTableHeader (decode_ResChunkHeader_at bs 0) (le32 bs 8).

Record ResTablePackage : Type := mkResTablePackage {
  pkg_Header : ResChunkHeader;
  pkg_Id : Z;
  pkg_Name : list Z;          (* [128]uint16 *)
  pkg_TypeStrings : Z;
  pkg_LastPublicType : Z;
  pkg_KeyStrings : Z;
  pkg_LastPublicKey : Z
}.

Definition sizeof_ResTablePackage : Z := 284.
Definition zero_ResTablePackage : ResTablePackage :=
  mkResTablePackage zero_ResChunkHeader 0 (repeat 0 128) 0 0 0 0.
Definition decode_ResTablePackage (bs : list byte) : ResTablePackage :=
  mkResTablePackage (decode_ResChunkHeader_at bs 0) (le32 bs 8)
    (le16s (firstn 256 (skipn 12 bs)))
    (le32 bs 268) (le32 bs 272) (le32 bs 276) (le32 bs 280).

Record ResTableConfig : Type := mkResTableConfig {
  cfg_Size : Z;
  cfg_Imsi : Z;
  cfg_Language : list Z;      (* [2]uint8 *)
  cfg_Country : list Z;       (* [2]uint8 *)
  cfg_ScreenType : Z;
  cfg_Input : Z;
  cfg_ScreenSize : Z;
  cfg_Version : Z;
  cfg_ScreenConfig : Z
}.

Definition decode_ResTableConfig_at (bs : list byte) (p : nat) : ResTableConfig :=
  mkResTableConfig (le32 bs p) (le32 bs (p + 4))
    [byte_at bs (p + 8); byte_at bs (p + 9)]
    [byte_at bs (p + 10); byte_at bs (p + 11)]
    (le32 bs (p + 12)) (le32 bs (p + 16)) (le32 bs (p + 20))
    (le32 bs (p + 24)) (le32 bs (p + 28)).

Record ResTableType : Type := mkResTableType {
  tt_Header : ResChunkHeader;
  tt_Id : Z;            (* uint8 *)
  tt_Res0 : Z;          (* uint8 *)
  tt_Res1 : Z;          (* uint16 *)
  tt_EntryCount : Z;
  tt_EntriesStart : Z;
  tt_Config : ResTableConfig
}.

Definition sizeof_ResTableType : Z := 52.
Definition decode_ResTableType (bs : list byte) : ResTableType :=
  mkResTableType (decode_ResChunkHeader_at bs 0) (byte_at bs 8)
    (byte_at bs 9) (le16 bs 10) (le32 bs 12) (le32 bs 16)
    (decode_ResTableConfig_at bs 20).

Record ResTableEntry : Type := mkResTableEntry {
  ent_Size : Z;   (* uint16 *)
  ent_Flags : Z;  (* uint16 *)
  ent_Key : ResStringPoolRef
}.

Definition sizeof_ResTableEntry : Z := 8.
Definition zero_ResTableEntry : ResTableEntry := mkResTableEntry 0 0 0.
Definition decode_ResTableEntry (bs : list byte) : ResTableEntry :=
  mkResTableEntry (le16 bs 0) (le16 bs 2) (le32 bs 4).

(** [Key] and [Value] are pointers: [None] is nil. *)
Record TableEntry : Type := mkTableEntry {
  te_Key : option ResTableEntry;
  te_Value : option ResValue;
  te_Flags : Z
}.

Definition zero_TableEntry : TableEntry := mkTableEntry None None 0.

Record TableType : Type := mkTableType {
  ty_Header : ResTableType;
  ty_Entries : list TableEntry
}.

Record ResTableTypeSpec : Type := mkResTableTypeSpec {
  ts_Header : ResChunkHeader;
  ts_Id : Z;
  ts_Res0 : Z;
  ts_Res1 : Z;
  ts_EntryCount : Z
}.

Definition sizeof_ResTableTypeSpec : Z := 16.
Definition decode_ResTableTypeSpec (bs : list byte) : ResTableTypeSpec :=
  mkResTableTypeSpec (decode_ResChunkHeader_at bs 0) (byte_at bs 8)
    (byte_at bs 9) (le16 bs 10) (le32 bs 12).

(** [TypeStrings] and [KeyStrings] are pointers.  [TableTypes] holds the
    pointers returned by [ReadTableType]; a nil one is appended only on the
    path that discards the whole package, so the list holds values. *)
Record TablePackage : Type := mkTablePackage {
  tp_Header : ResTablePackage;
  tp_TypeStrings : option ResStringPool;
  tp_KeyStrings : option ResStringPool;
  tp_TableTypes : list TableType
}.

Definition zero_TablePackage : TablePackage :=
  mkTablePackage zero_ResTablePackage None None [].

(** A Go map from [ResStringPoolRef] to [ResStringPoolRef]: an association
    list without duplicate keys, a new key going last.  [range] over a Go map
    visits the entries in an unspecified order; the model visits them in the
    order of the list, which is one of the orders Go may take and the only
    one when the map has at most one entry. *)
Definition refmap : Type := list (ResStringPoolRef * ResStringPoolRef).

Fixpoint map_set (m : refmap) (k v : ResStringPoolRef) : refmap :=
  match m with
  | [] => [(k, v)]
  | (k', v') :: rest =>
      if k' =? k then (k, v) :: rest else (k', v') :: map_set rest k v
  end.

Fixpoint map_get (m : refmap) (k : ResStringPoolRef) : ResStringPoolRef :=
  match m with
  | [] => 0
  | (k', v') :: rest => if k' =? k then v' else map_get rest k
  end.

Fixpoint map_delete (m : refmap) (k : ResStringPoolRef) : refmap :=
  match m with
  | [] => []
  | (k', v') :: rest =>
      if k' =? k then rest else (k', v') :: map_delete rest k
  end.

(** A nil map and a nil slice are [None] where the source tests for nil
    ([notPrecessedNS], [namespaces], [stringPool]); the slices
    [resourceMap] and [tablePackages] are only indexed, and a nil slice is
    the empty list. *)
Record File : Type := mkFile {
  stringPool : option ResStringPool;
  resourceMap : list Z;
  notPrecessedNS : option refmap;
  namespaces : option refmap;
  XMLBuffer : string;
  tablePackages : list TablePackage
}.

(** [new(File)]. *)
Definition new_File : File := mkFile None [] None None EmptyString [].

Definition set_stringPool (f : File) (sp : option ResStringPool) : File :=
  mkFile sp (resourceMap f) (notPrecessedNS f) (namespaces f) (XMLBuffer f)
    (tablePackages f).
Definition set_resourceMap (f : File) (m : list Z) : File :=
  mkFile (stringPool f) m (notPrecessedNS f) (namespaces f) (XMLBuffer f)
    (tablePackages f).
Definition set_notPrecessedNS (f : File) (m : option refmap) : File :=
  mkFile (stringPool f) (resourceMap f) m (namespaces f) (XMLBuffer f)
    (tablePackages f).
Definition set_namespaces (f : File) (m : option refmap) : File :=
  mkFile (stringPool f) (resourceMap f) (notPrecessedNS f) m (XMLBuffer f)
    (tablePackages f).
Definition set_tablePackages (f : File) (ps : list TablePackage) : File :=
  mkFile (stringPool f) (resourceMap f) (notPrecessedNS f) (namespaces f)
    (XMLBuffer f) ps.

(** [fmt.Fprint(&f.XMLBuffer, s)]. *)
Definition Fprint (f : File) (s : string) : File :=
  mkFile (stringPool f) (resourceMap f) (notPrecessedNS f) (namespaces f)
    (XMLBuffer f ++ s)%string (tablePackages f).

(** ** Text: the parts of Go's unicode/utf16, unicode/utf8, fmt and
    encoding/xml that the decoder calls *)

Definition chr (z : Z) : ascii := ascii_of_N (Z.to_N z).
Definition ord (c : ascii) : Z := Z.of_N (N_of_ascii c).

(** [string(buf)] for a [[]byte]. *)
Definition string_of_bytes (bs : list byte) : string := string_of_list_byte bs.

Definition RuneError : Z := 0xFFFD.

(** [utf16.Decode]: a code unit outside the surrogate range is a rune, a high
    surrogate followed by a low one is combined, anything else becomes the
    replacement character. *)
Definition surr1 : Z := 0xd800.
Definition surr2 : Z := 0xdc00.
Definition surr3 : Z := 0xe000.

Definition utf16_DecodeRune (r1 r2 : Z) : Z :=
  Z.lor (Z.shiftl (r1 - surr1) 10) (r2 - surr2) + 0x10000.

Fixpoint utf16_Decode (s : list Z) : list Z :=
  match s with
  | [] => []
  | r :: rest =>
      if (r <? surr1) || (surr3 <=? r) then r :: utf16_Decode rest
      else
        match rest with
        | r2 :: rest' =>
            if (r <? surr2) && (surr2 <=? r2) && (r2 <? surr3)
            then utf16_DecodeRune r r2 :: utf16_Decode rest'
            else RuneError :: utf16_Decode rest
        | [] => [RuneError]
        end
  end.

(** [string(r)] for one rune: its UTF-8 encoding, the encoding of U+FFFD for
    a surrogate or a value past U+10FFFF. *)
Definition encode_rune (r : Z) : list ascii :=
  if r <? 0x80 then [chr r]
  else if r <? 0x800 then
    [chr (Z.lor 0xC0 (Z.shiftr r 6)); chr (Z.lor 0x80 (Z.land r 0x3F))]
  else if ((0xD800 <=? r) && (r <=? 0xDFFF)) || (0x10FFFF <? r) then
    [chr 0xEF; chr 0xBF; chr 0xBD]
  else if r <? 0x10000 then
    [chr (Z.lor 0xE0 (Z.shiftr r 12));
     chr (Z.lor 0x80 (Z.land (Z.shiftr r 6) 0x3F));
     chr (Z.lor 0x80 (Z.land r 0x3F))]
  else
    [chr (Z.lor 0xF0 (Z.shiftr r 18));
     chr (Z.lor 0x80 (Z.land (Z.shiftr r 12) 0x3F));
     chr (Z.lor 0x80 (Z.land (Z.shiftr r 6) 0x3F));
     chr (Z.lor 0x80 (Z.land r 0x3F))].

(** [string(runes)] for a [[]rune]. *)
Definition string_of_runes (rs : list Z) : string :=
  string_of_list_ascii (flat_map encode_rune rs).

(** [utf8.DecodeRune]: the rune at the head of [p] and its width; an invalid
    or truncated sequence yields [(RuneError, 1)]. *)
Definition utf8_DecodeRune (p : list Z) : Z * nat :=
  match p with
  | [] => (RuneError, 0%nat)
  | p0 :: t0 =>
      if p0 <? 0x80 then (p0, 1%nat)
      else if (p0 <? 0xC2) || (0xF4 <? p0) then (RuneError, 1%nat)
      else
        let sz := if p0 <? 0xE0 then 2%nat else if p0 <? 0xF0 then 3%nat else 4%nat in
        let lo := if p0 =? 0xE0 then 0xA0 else if p0 =? 0xF0 then 0x90 else 0x80 in
        let hi := if p0 =? 0xED then 0x9F else if p0 =? 0xF4 then 0x8F else 0xBF in
        if (length p <? sz)%nat then (RuneError, 1%nat)
        else
          match t0 with
          | [] => (RuneError, 1%nat)
          | b1 :: t1 =>
              if (b1 <? lo) || (hi <? b1) then (RuneError, 1%nat)
              else if (sz <=? 2)%nat then
                (Z.lor (Z.shiftl (Z.land p0 0x1F) 6) (Z.land b1 0x3F), 2%nat)
              else
                match t1 with
                | [] => (RuneError, 1%nat)
                | b2 :: t2 =>
                    if (b2 <? 0x80) || (0xBF <? b2) then (RuneError, 1%nat)
                    else if (sz <=? 3)%nat then
                      (Z.lor (Z.lor (Z.shiftl (Z.land p0 0x0F) 12)
                                    (Z.shiftl (Z.land b1 0x3F) 6))
                             (Z.land b2 0x3F), 3%nat)
                    else
                      match t2 with
                      | [] => (RuneError, 1%nat)
                      | b3 :: _ =>
                          if (b3 <? 0x80) || (0xBF <? b3) then (RuneError, 1%nat)
                          else
                            (Z.lor (Z.lor (Z.shiftl (Z.land p0 0x07) 18)
                                          (Z.shiftl (Z.land b1 0x3F) 12))
                                   (Z.lor (Z.shiftl (Z.land b2 0x3F) 6)
                                          (Z.land b3 0x3F)), 4%nat)
                      end
                end
          end
  end.

(** encoding/xml's [isInCharacterRange]. *)
Definition isInCharacterRange (r : Z) : bool :=
  (r =? 0x09) || (r =? 0x0A) || (r =? 0x0D) ||
  ((0x20 <=? r) && (r <=? 0xD7FF)) ||
  ((0xE000 <=? r) && (r <=? 0xFFFD)) ||
  ((0x10000 <=? r) && (r <=? 0x10FFFF)).

(** The replacement text of a rune in [xml.EscapeText], [None] when the bytes
    of the rune are copied. *)
Definition escape_of (r : Z) (width : nat) : option string :=
  if r =? 34 then Some "&#34;"%string
  else if r =? 39 then Some "&#39;"%string
  else if r =? 38 then Some "&amp;"%string
  else if r =? 60 then Some "&lt;"%string
  else if r =? 62 then Some "&gt;"%string
  else if r =? 9 then Some "&#x9;"%string
  else if r =? 10 then Some "&#xA;"%string
  else if r =? 13 then Some "&#xD;"%string
  else if negb (isInCharacterRange r) || ((r =? 0xFFFD) && (width =? 1)%nat)
       then Some (string_of_list_ascii [chr 0xEF; chr 0xBF; chr 0xBD])
       else None.

(** The loop of [xml.EscapeText] over the bytes of [s]; each round consumes
    the width of one rune, so [length s] rounds suffice. *)
Fixpoint escape_loop (fuel : nat) (s : list ascii) : string :=
  match fuel with
  | O => EmptyString
  | S fuel' =>
      match s with
      | [] => EmptyString
      | _ :: _ =>
          let '(r, width) := utf8_DecodeRune (map ord s) in
          let out :=
            match escape_of r width with
            | Some esc => esc
            | None => string_of_list_ascii (firstn width s)
            end in
          (out ++ escape_loop fuel' (skipn width s))%string
      end
  end.

(** [xml.Escape(&f.XMLBuffer, []byte(s))] appends [xml_Escape s]. *)
Definition xml_Escape (s : string) : string :=
  escape_loop (String.length s) (list_ascii_of_string s).

Definition decimal_digit (d : Z) : ascii := chr (48 + d).

Fixpoint decimal_loop (fuel : nat) (n : Z) (acc : string) : string :=
  match fuel with
  | O => acc
  | S fuel' =>
      let acc' := String (decimal_digit (n mod 10)) acc in
      if n / 10 =? 0 then acc' else decimal_loop fuel' (n / 10) acc'
  end.

(** [fmt.Sprintf("%d", data)] for a [uint32], which has at most ten digits. *)
Definition Sprintf_d (data : Z) : string := decimal_loop 10 data EmptyString.

Definition hex_digit (d : Z) : ascii :=
  if d <? 10 then chr (48 + d) else chr (55 + d).

(** [fmt.Sprintf("%08X", data)] for a [uint32]. *)
Definition Sprintf_08X (data : Z) : string :=
  string_of_list_ascii
    (map (fun k => hex_digit (Z.land (Z.shiftr data (4 * k)) 15))
         [7; 6; 5; 4; 3; 2; 1; 0]).

(** ** main.go: the string pool *)

(** [f.GetString(ref)]: a nil [f.stringPool] is dereferenced, and the slice
    of strings is indexed without a bounds test of its own. *)
Definition GetString (f : File) (ref : ResStringPoolRef) : result string :=
  if ref =? NilResStringPoolRef then Ok EmptyString
  else
    match stringPool f with
    | None => Panic NilDereference
    | Some sp =>
        match nth_error (sp_Strings sp) (Z.to_nat ref) with
        | Some s => Ok s
        | None => Panic (IndexOutOfRange ref (Z.of_nat (length (sp_Strings sp))))
        end
    end.

Definition decode_u16 (bs : list byte) : Z := le16 bs 0.
Definition decode_u8 (bs : list byte) : Z := byte_at bs 0.

(** [ReadUTF16(sr, offset)].  The reader is returned with its cursor where
    the function left it; an error stands for the pair [("", err)]. *)
Definition ReadUTF16 (sr : SectionReader) (offset : Z)
  : SectionReader * (string + error) :=
  let sr := Seek sr offset in
  match binary_Read 2 decode_u16 sr with
  | (sr, inr e) => (sr, inr e)
  | (sr, inl first) =>
      let after_length :=
        if negb (Z.land first 0x8000 =? 0) then
          match binary_Read 2 decode_u16 sr with
          | (sr, inr e) => (sr, inr e)
          | (sr, inl second) =>
              (sr, inl (Z.shiftl (Z.land first 0x7FFF) 16 + second))
          end
        else (sr, inl first) in
      match after_length with
      | (sr, inr e) => (sr, inr e)
      | (sr, inl size) =>
          match binary_Read (2 * size) le16s sr with
          | (sr, inr e) => (sr, inr e)
          | (sr, inl buf) => (sr, inl (string_of_runes (utf16_Decode buf)))
          end
      end
  end.

(** [ReadUTF8(sr, offset)]. *)
Definition ReadUTF8 (sr : SectionReader) (offset : Z)
  : SectionReader * (string + error) :=
  let sr := Seek sr offset in
  match binary_Read 1 decode_u8 sr with
  | (sr, inr e) => (sr, inr e)
  | (sr, inl first) =>
      let after_length :=
        if negb (Z.land first 0x80 =? 0) then
          match binary_Read 1 decode_u8 sr with
          | (sr, inr e) => (sr, inr e)
          | (sr, inl second) =>
              (sr, inl (Z.shiftl (Z.land first 0x7F) 8 + second))
          end
        else (sr, inl first) in
      match after_length with
      | (sr, inr e) => (sr, inr e)
      | (sr, inl size) =>
          match binary_Read size string_of_bytes sr with
          | (sr, inr e) => (sr, inr e)
          | (sr, inl str) => (sr, inl str)
          end
      end
  end.

(** The two [for i, start := range ...] loops of [ReadStringPool]: the
    strings at [base + start], in order, up to the first error. *)
Fixpoint read_strings (flags base : Z) (starts : list Z) (sr : SectionReader)
  : SectionReader * (list string + error) :=
  match starts with
  | [] => (sr, inl [])
  | start :: rest =>
      let r :=
        if Z.land flags UTF8_FLAG =? 0
        then ReadUTF16 sr (wrap32 (base + start))
        else ReadUTF8 sr (wrap32 (base + start)) in
      match r with
      | (sr, inr e) => (sr, inr e)
      | (sr, inl str) =>
          match read_strings flags base rest sr with
          | (sr, inr e) => (sr, inr e)
          | (sr, inl strs) => (sr, inl (str :: strs))
          end
      end
  end.

(** [make([]uint32, n)] then [binary.Read] into it, error dropped. *)
Definition read_u32s_ignore (n : Z) (sr : SectionReader)
  : SectionReader * list Z :=
  binary_Read_ignore (4 * n) le32s (repeat 0 (Z.to_nat n)) sr.

(** [ReadStringPool(sr)]; an error stands for the pair [(nil, err)]. *)
Definition ReadStringPool (sr : SectionReader) : ResStringPool + error :=
  let '(sr, header) :=
    binary_Read_ignore sizeof_ResStringPoolHeader decode_ResStringPoolHeader
      zero_ResStringPoolHeader sr in
  let '(sr, stringStarts) := read_u32s_ignore (sph_StringCount header) sr in
  let '(sr, styleStarts) := read_u32s_ignore (sph_StyleCount header) sr in
  match read_strings (sph_Flags header) (sph_StringStart header) stringStarts sr with
  | (sr, inr e) => inr e
  | (sr, inl strings) =>
      match read_strings (sph_Flags header) (sph_StylesStart header) styleStarts sr with
      | (sr, inr e) => inr e
      | (sr, inl styles) => inl (mkResStringPool header strings styles)
      end
  end.

(** [ReadResourceMap(sr)]. *)
Definition ReadResourceMap (sr : SectionReader) : list Z + error :=
  let '(sr, header) :=
    binary_Read_ignore sizeof_ResChunkHeader decode_ResChunkHeader
      zero_ResChunkHeader sr in
  let count := wrap32 (ch_Size header - ch_HeaderSize header) / 4 in
  match binary_Read (4 * count) le32s sr with
  | (_, inr e) => inr e
  | (_, inl resourceMap) => inl resourceMap
  end.

(** ** main.go: the binary XML events *)

Definition quote : string := String (chr 34) EmptyString.

(** [m[k]] on a possibly nil map: the zero value when the key is absent. *)
Definition lookup_ns (m : option refmap) (k : ResStringPoolRef) : ResStringPoolRef :=
  match m with
  | None => 0
  | Some m => map_get m k
  end.

(** [f.AddNamespace(ns, name)]. *)
Definition AddNamespace (f : File) (ns name : ResStringPoolRef) : result string :=
  if negb (ns =? NilResStringPoolRef) then
    prefix <- GetString f (lookup_ns (namespaces f) ns) ;;
    n <- GetString f name ;;
    Ok (prefix ++ ":" ++ n)%string
  else GetString f name.

(** The header and the extension that start every XML event: the node is
    read at the origin, the extension at [header.Header.HeaderSize]; both
    errors are dropped by the callers that use this form. *)
Definition read_node_ignore {A : Type} (size : Z) (decode : list byte -> A)
    (zero : A) (sr : SectionReader) : SectionReader * ResXMLTreeNode * A :=
  let '(sr, header) :=
    binary_Read_ignore sizeof_ResXMLTreeNode decode_ResXMLTreeNode
      zero_ResXMLTreeNode sr in
  let sr := Seek sr (ch_HeaderSize (node_Header header)) in
  let '(sr, ext) := binary_Read_ignore size decode zero sr in
  (sr, header, ext).

Definition make_if_nil (m : option refmap) : refmap :=
  match m with
  | None => []
  | Some m => m
  end.

(** [f.ReadStartNamespace(sr)]. *)
Definition ReadStartNamespace (f : File) (sr : SectionReader)
  : result (File * option error) :=
  let '(_, _, namespace) :=
    read_node_ignore sizeof_ResXMLTreeNamespaceExt
      decode_ResXMLTreeNamespaceExt zero_ResXMLTreeNamespaceExt sr in
  let f := set_notPrecessedNS f
    (Some (map_set (make_if_nil (notPrecessedNS f))
                   (ns_Uri namespace) (ns_Prefix namespace))) in
  let f := set_namespaces f
    (Some (map_set (make_if_nil (namespaces f))
                   (ns_Uri namespace) (ns_Prefix namespace))) in
  Ok (f, None).

(** [f.ReadEndNamespace(sr)]; [delete] on a nil map does nothing. *)
Definition ReadEndNamespace (f : File) (sr : SectionReader)
  : result (File * option error) :=
  let '(_, _, namespace) :=
    read_node_ignore sizeof_ResXMLTreeNamespaceExt
      decode_ResXMLTreeNamespaceExt zero_ResXMLTreeNamespaceExt sr in
  let f := set_namespaces f
    (option_map (fun m => map_delete m (ns_Uri namespace)) (namespaces f)) in
  Ok (f, None).

(** The body of [for uri, prefix := range f.notPrecessedNS]. *)
Fixpoint write_namespaces (f : File) (m : refmap) : result File :=
  match m with
  | [] => Ok f
  | (uri, prefix) :: rest =>
      p <- GetString f prefix ;;
      let f := Fprint f (" xmlns:" ++ p ++ "=" ++ quote) in
      u <- GetString f uri ;;
      let f := Fprint f (xml_Escape u) in
      let f := Fprint f quote in
      write_namespaces f rest
  end.

(** The rendering of an attribute value, lines 452 to 475 of main.go. *)
Definition attribute_value (f : File) (attr : ResXMLTreeAttribute) : result string :=
  if negb (attr_RawValue attr =? NilResStringPoolRef) then
    GetString f (attr_RawValue attr)
  else
    let data := val_Data (attr_TypedValue attr) in
    let dt := val_DataType (attr_TypedValue attr) in
    if dt =? TYPE_NULL then Ok EmptyString
    else if dt =? TYPE_REFERENCE then Ok ("@0x" ++ Sprintf_08X data)%string
    else if dt =? TYPE_INT_DEC then Ok (Sprintf_d data)
    else if dt =? TYPE_INT_HEX then Ok ("0x" ++ Sprintf_08X data)%string
    else if dt =? TYPE_INT_BOOLEAN then
      if negb (data =? 0) then Ok "true"%string else Ok "false"%string
    else Ok ("@0x" ++ Sprintf_08X data)%string.

(** One round of the attribute loop after the attribute was read: the value
    is rendered, then the qualified name, the escaped value and the closing
    quote are written. *)
Definition write_attribute (f : File) (attr : ResXMLTreeAttribute) : result File :=
  value <- attribute_value f attr ;;
  name <- AddNamespace f (attr_NS attr) (attr_Name attr) ;;
  let f := Fprint f (" " ++ name ++ "=" ++ quote) in
  let f := Fprint f (xml_Escape value) in
  Ok (Fprint f quote).

(** [for i := 0; i < int(ext.AttributeCount); i++], [n] rounds left. *)
Fixpoint read_attributes (n : nat) (attributeSize : Z) (f : File)
    (sr : SectionReader) (offset : Z) : result File :=
  match n with
  | O => Ok f
  | S n' =>
      let sr := Seek sr offset in
      let '(sr, attr) :=
        binary_Read_ignore sizeof_ResXMLTreeAttribute
          decode_ResXMLTreeAttribute zero_ResXMLTreeAttribute sr in
      f <- write_attribute f attr ;;
      read_attributes n' attributeSize f sr (offset + attributeSize)
  end.

(** [f.ReadStartElement(sr)]. *)
Definition ReadStartElement (f : File) (sr : SectionReader)
  : result (File * option error) :=
  let '(sr, header, ext) :=
    read_node_ignore sizeof_ResXMLTreeAttrExt decode_ResXMLTreeAttrExt
      zero_ResXMLTreeAttrExt sr in
  name <- AddNamespace f (ext_NS ext) (ext_Name ext) ;;
  let f := Fprint f ("<" ++ name) in
  f <- match notPrecessedNS f with
       | Some m =>
           f <- write_namespaces f m ;;
           Ok (set_notPrecessedNS f None)
       | None => Ok f
       end ;;
  let offset :=
    wrap16 (ext_AttributeStart ext + ch_HeaderSize (node_Header header)) in
  f <- read_attributes (Z.to_nat (ext_AttributeCount ext))
         (ext_AttributeSize ext) f sr offset ;;
  Ok (Fprint f ">", None).

(** [f.ReadEndElement(sr)]: here both reads are checked. *)
Definition ReadEndElement (f : File) (sr : SectionReader)
  : result (File * option error) :=
  match binary_Read sizeof_ResXMLTreeNode decode_ResXMLTreeNode sr with
  | (_, inr e) => Ok (f, Some e)
  | (sr, inl header) =>
      let sr := Seek sr (ch_HeaderSize (node_Header header)) in
      match binary_Read sizeof_ResXMLTreeEndElementExt
              decode_ResXMLTreeEndElementExt sr with
      | (_, inr e) => Ok (f, Some e)
      | (_, inl ext) =>
          name <- AddNamespace f (end_NS ext) (end_Name ext) ;;
          Ok (Fprint f ("</" ++ name ++ ">"), None)
      end
  end.

(** ** main.go: the resource table *)

(** The body of [for i, index := range entryIndexes] in [ReadTableType]: a
    slot whose index is [0xFFFFFFFF] keeps the zero entry; the two reads of
    a present slot drop their errors. *)
Fixpoint read_entries (entriesStart : Z) (indexes : list Z) (sr : SectionReader)
  : SectionReader * list TableEntry :=
  match indexes with
  | [] => (sr, [])
  | index :: rest =>
      if index =? 0xFFFFFFFF then
        let '(sr, entries) := read_entries entriesStart rest sr in
        (sr, zero_TableEntry :: entries)
      else
        let sr := Seek sr (wrap32 (entriesStart + index)) in
        let '(sr, key) :=
          binary_Read_ignore sizeof_ResTableEntry decode_ResTableEntry
            zero_ResTableEntry sr in
        let '(sr, val) :=
          binary_Read_ignore sizeof_ResValue decode_ResValue zero_ResValue sr in
        let '(sr, entries) := read_entries entriesStart rest sr in
        (sr, mkTableEntry (Some key) (Some val) 0 :: entries)
  end.

(** [ReadTableType(sr)]. *)
Definition ReadTableType (sr : SectionReader) : TableType + error :=
  match binary_Read sizeof_ResTableType decode_ResTableType sr with
  | (_, inr e) => inr e
  | (sr, inl header) =>
      let sr := Seek sr (ch_HeaderSize (tt_Header header)) in
      match binary_Read (4 * tt_EntryCount header) le32s sr with
      | (_, inr e) => inr e
      | (sr, inl entryIndexes) =>
          let '(_, entries) :=
            read_entries (tt_EntriesStart header) entryIndexes sr in
          inl (mkTableType header entries)
      end
  end.

(** [ReadTableTypeSpec(sr)]. *)
Definition ReadTableTypeSpec (sr : SectionReader) : list Z + error :=
  match binary_Read sizeof_ResTableTypeSpec decode_ResTableTypeSpec sr with
  | (_, inr e) => inr e
  | (sr, inl header) =>
      let sr := Seek sr (ch_HeaderSize (ts_Header header)) in
      match binary_Read (4 * ts_EntryCount header) le32s sr with
      | (_, inr e) => inr e
      | (_, inl flags) => inl flags
      end
  end.

(** The loop [for offset < int64(header.Header.Size)] of [ReadTablePackage],
    [types] being [tablePackage.TableTypes] so far.  The loop has no bound of
    its own: it is given fuel. *)
Fixpoint package_chunks (fuel : nat) (size : Z) (sr : SectionReader)
    (types : list TableType) (offset : Z) : result (list TableType + error) :=
  match fuel with
  | O => OutOfFuel
  | S fuel' =>
      if offset <? size then
        let sr := Seek sr offset in
        match binary_Read sizeof_ResChunkHeader decode_ResChunkHeader sr with
        | (_, inr e) => Ok (inr e)
        | (sr, inl chunkHeader) =>
            let chunkReader := NewSectionReader sr offset (ch_Size chunkHeader) in
            let sr := Seek sr offset in
            let step :=
              if ch_Type chunkHeader =? RES_TABLE_TYPE_TYPE then
                match ReadTableType chunkReader with
                | inl tableType => inl (types ++ [tableType])
                | inr e => inr e
                end
              else if ch_Type chunkHeader =? RES_TABLE_TYPE_SPEC_TYPE then
                match ReadTableTypeSpec chunkReader with
                | inl _ => inl types
                | inr e => inr e
                end
              else inl types in
            match step with
            | inr e => Ok (inr e)
            | inl types =>
                package_chunks fuel' size sr types (offset + ch_Size chunkHeader)
            end
        end
      else Ok (inl types)
  end.

(** [ReadTablePackage(sr)]; an error stands for the pair [(nil, err)].  The
    header is read into a local and is never copied to the package:
    [tablePackage.Header] keeps the zero value that [new(TablePackage)] gave
    it. *)
Definition ReadTablePackage (fuel : nat) (sr : SectionReader)
  : result (TablePackage + error) :=
  let tablePackage := zero_TablePackage in
  match binary_Read sizeof_ResTablePackage decode_ResTablePackage sr with
  | (_, inr e) => Ok (inr e)
  | (sr, inl header) =>
      let srTypes :=
        NewSectionReader sr (pkg_TypeStrings header)
          (wrap32 (ch_Size (pkg_Header header) - pkg_TypeStrings header)) in
      match ReadStringPool srTypes with
      | inr e => Ok (inr e)
      | inl typeStrings =>
          let srKeys :=
            NewSectionReader sr (pkg_KeyStrings header)
              (wrap32 (ch_Size (pkg_Header header) - pkg_KeyStrings header)) in
          match ReadStringPool srKeys with
          | inr e => Ok (inr e)
          | inl keyStrings =>
              r <- package_chunks fuel (ch_Size (pkg_Header header)) sr []
                     (ch_HeaderSize (pkg_Header header)) ;;
              match r with
              | inr e => Ok (inr e)
              | inl types =>
                  Ok (inl (mkTablePackage (tp_Header tablePackage)
                             (Some typeStrings) (Some keyStrings) types))
              end
          end
      end
  end.

(** ** main.go: the dispatcher *)

(** [f.tablePackages[i] = p]. *)
Fixpoint store_at (l : list TablePackage) (i : nat) (p : TablePackage)
  : option (list TablePackage) :=
  match l, i with
  | [], _ => None
  | _ :: rest, O => Some (p :: rest)
  | x :: rest, S i' => option_map (cons x) (store_at rest i' p)
  end.

(** The loop [for offset < int64(header.Size)] that [readTable] and [readXML]
    both run, [rc] being [f.readChunk(sr, .)]: it leaves at the first error
    and otherwise moves the cursor by the size the sub-chunk declares. *)
Fixpoint chunk_loop (rc : File -> Z -> result (File * (ResChunkHeader + error)))
    (fuel : nat) (size : Z) (f : File) (offset : Z)
  : result (File * option error) :=
  match fuel with
  | O => OutOfFuel
  | S fuel' =>
      if offset <? size then
        '(f, r) <- rc f offset ;;
        match r with
        | inr err => Ok (f, Some err)
        | inl chunkHeader =>
            chunk_loop rc fuel' size f (offset + ch_Size chunkHeader)
        end
      else Ok (f, None)
  end.

(** The [RES_TABLE_PACKAGE_TYPE] case of [readChunk].  [numTablePackages] is
    a local of [readChunk], set to 0 on entry, so the index of the store is
    0; its increment is dead.  The right-hand side [*tablePackage] is
    evaluated first: a nil pointer, returned with an error, panics there. *)
Definition store_package (fuel : nat) (f : File) (sr : SectionReader)
  : result (File * option error) :=
  let numTablePackages := 0%nat in
  r <- ReadTablePackage fuel sr ;;
  match r with
  | inr _ => Panic NilDereference
  | inl tablePackage =>
      match store_at (tablePackages f) numTablePackages tablePackage with
      | None =>
          Panic (IndexOutOfRange (Z.of_nat numTablePackages)
                   (Z.of_nat (length (tablePackages f))))
      | Some ps => Ok (set_tablePackages f ps, None)
      end
  end.

Section Containers.

(** [f.readChunk(sr, offset)] as the containers call it. *)
Variable readChunk :
  File -> SectionReader -> Z -> result (File * (ResChunkHeader + error)).
Variable fuel : nat.

(** [f.readTable(sr)]. *)
Definition readTable (f : File) (sr : SectionReader)
  : result (File * option error) :=
  let '(_, header) :=
    binary_Read_ignore sizeof_ResTableHeader decode_ResTableHeader
      zero_ResTableHeader sr in
  let f := set_tablePackages f
    (repeat zero_TablePackage (Z.to_nat (th_PackageCount header))) in
  chunk_loop (fun f offset => readChunk f sr offset) fuel
    (ch_Size (th_Header header)) f (ch_HeaderSize (th_Header header)).

(** [f.readXML(sr)]. *)
Definition readXML (f : File) (sr : SectionReader)
  : result (File * option error) :=
  let f := Fprint f
    ("<?xml version=" ++ quote ++ "1.0" ++ quote ++ " encoding="
       ++ quote ++ "utf-8" ++ quote ++ "?>") in
  let '(_, header) :=
    binary_Read_ignore sizeof_ResChunkHeader decode_ResChunkHeader
      zero_ResChunkHeader sr in
  chunk_loop (fun f offset => readChunk f sr offset) fuel
    (ch_Size header) f (ch_HeaderSize header).

(** The body of [f.readChunk(r, offset)]. *)
Definition readChunk_body (f : File) (r : SectionReader) (offset : Z)
  : result (File * (ResChunkHeader + error)) :=
  let sr := NewSectionReader r offset (maxint64 - offset) in
  let sr := Seek sr 0 in
  match binary_Read sizeof_ResChunkHeader decode_ResChunkHeader sr with
  | (_, inr e) => Ok (f, inr e)
  | (sr, inl chunkHeader) =>
      let sr := Seek sr 0 in
      let ty := ch_Type chunkHeader in
      '(f, err) <-
        (if ty =? RES_TABLE_TYPE then readTable f sr
         else if ty =? RES_XML_TYPE then readXML f sr
         else if ty =? RES_STRING_POOL_TYPE then
           match ReadStringPool sr with
           | inl sp => Ok (set_stringPool f (Some sp), None)
           | inr e => Ok (set_stringPool f None, Some e)
           end
         else if ty =? RES_XML_RESOURCE_MAP_TYPE then
           match ReadResourceMap sr with
           | inl m => Ok (set_resourceMap f m, None)
           | inr e => Ok (set_resourceMap f [], Some e)
           end
         else if ty =? RES_XML_START_NAMESPACE_TYPE then ReadStartNamespace f sr
         else if ty =? RES_XML_END_NAMESPACE_TYPE then ReadEndNamespace f sr
         else if ty =? RES_XML_START_ELEMENT_TYPE then ReadStartElement f sr
         else if ty =? RES_XML_END_ELEMENT_TYPE then ReadEndElement f sr
         else if ty =? RES_TABLE_PACKAGE_TYPE then store_package fuel f sr
         else Ok (f, None)) ;;
      match err with
      | Some e => Ok (f, inr e)
      | None => Ok (f, inl chunkHeader)
      end
  end.

End Containers.

(** [f.readChunk(r, offset)].  Each unit of fuel pays for one level of the
    recursion through [readTable] and [readXML]; the loops of that level run
    on what is left. *)
Fixpoint readChunk (fuel : nat) (f : File) (r : SectionReader) (offset : Z)
  : result (File * (ResChunkHeader + error)) :=
  match fuel with
  | O => OutOfFuel
  | S fuel' => readChunk_body (readChunk fuel') fuel' f r offset
  end.

(** [NewFile(r)]: the result of [f.readChunk(r, 0)] is dropped and the file
    is returned with a nil error. *)
Definition NewFile (fuel : nat) (r : list byte) : result (File * option error) :=
  let f := new_File in
  '(f, _) <- readChunk fuel f (ReaderAt r) 0 ;;
  Ok (f, None).

(** ** Writing byte sources

    The concrete inputs of the properties below are written with the
    little-endian encoders of this section, field by field in the order of
    the structs. *)

Definition byte_of (z : Z) : byte :=
  match Byte.of_N (Z.to_N (z mod 256)) with
  | Some b => b
  | None => x00
  end.

Definition put8 (z : Z) : list byte := [byte_of z].
Definition put16 (z : Z) : list byte := [byte_of z; byte_of (z / 256)].
Definition put32 (z : Z) : list byte :=
  [byte_of z; byte_of (z / 256); byte_of (z / 65536); byte_of (z / 16777216)].

Definition len (bs : list byte) : Z := Z.of_nat (length bs).

(** A chunk header. *)
Definition put_header (ty headerSize size : Z) : list byte :=
  put16 ty ++ put16 headerSize ++ put32 size.

(** An ASCII string as a string pool stores it in UTF-16 mode: the length in
    one [u16], the code units, a null terminator. *)
Definition put_utf16 (s : string) : list byte :=
  put16 (Z.of_nat (String.length s))
  ++ flat_map (fun c => put16 (ord c)) (list_ascii_of_string s)
  ++ put16 0.

(** The offsets at which the strings of a pool start. *)
Fixpoint string_starts (pos : Z) (encoded : list (list byte)) : list Z :=
  match encoded with
  | [] => []
  | e :: rest => pos :: string_starts (pos + len e) rest
  end.

(** A string pool chunk without styles holding [encoded], each element being
    one stored string. *)
Definition put_string_pool (flags : Z) (encoded : list (list byte)) : list byte :=
  let count := Z.of_nat (length encoded) in
  let data := concat encoded in
  let stringStart := 28 + 4 * count in
  put_header RES_STRING_POOL_TYPE 28 (stringStart + len data)
  ++ put32 count ++ put32 0 ++ put32 flags ++ put32 stringStart ++ put32 0
  ++ flat_map put32 (string_starts 0 encoded)
  ++ data.

(** An XML tree node: the 16-byte node header, then the extension. *)
Definition put_node (ty lineNumber : Z) (ext : list byte) : list byte :=
  put_header ty 16 (16 + len ext) ++ put32 lineNumber
  ++ put32 NilResStringPoolRef ++ ext.

Definition put_attribute (ns name rawValue dataType data : Z) : list byte :=
  put32 ns ++ put32 name ++ put32 rawValue
  ++ put16 8 ++ put8 0 ++ put8 dataType ++ put32 data.

Definition put_start_element (ns name : Z) (attrs : list (list byte)) : list byte :=
  put_node RES_XML_START_ELEMENT_TYPE 1
    (put32 ns ++ put32 name ++ put16 20 ++ put16 20
     ++ put16 (Z.of_nat (length attrs)) ++ put16 0 ++ put16 0 ++ put16 0
     ++ concat attrs).

Definition put_xml (chunks : list byte) : list byte :=
  put_header RES_XML_TYPE 8 (8 + len chunks) ++ chunks.

(** The minimal manifest: the pool holds [versionCode], [android], the
    namespace URI and [manifest]; the namespace binds prefix 1 to URI 2; the
    element [manifest] has no namespace of its own and carries the attribute
    [android:versionCode] with a nil raw value and the typed value
    [INT_DEC 1]. *)
Definition android_uri : string := "http://schemas.android.com/apk/res/android".

Definition minimal_manifest : list byte :=
  put_xml
    (put_string_pool 0
       [put_utf16 "versionCode"; put_utf16 "android"; put_utf16 android_uri;
        put_utf16 "manifest"]
     ++ (put_header RES_XML_RESOURCE_MAP_TYPE 8 12 ++ put32 0x0101021b)
     ++ put_node RES_XML_START_NAMESPACE_TYPE 1 (put32 1 ++ put32 2)
     ++ put_start_element NilResStringPoolRef 3
          [put_attribute 2 0 NilResStringPoolRef TYPE_INT_DEC 1]
     ++ put_node RES_XML_END_ELEMENT_TYPE 1 (put32 NilResStringPoolRef ++ put32 3)
     ++ put_node RES_XML_END_NAMESPACE_TYPE 1 (put32 1 ++ put32 2)).

Definition minimal_manifest_xml : string :=
  "<?xml version=" ++ quote ++ "1.0" ++ quote ++ " encoding=" ++ quote
  ++ "utf-8" ++ quote ++ "?><manifest xmlns:android=" ++ quote ++ android_uri
  ++ quote ++ " android:versionCode=" ++ quote ++ "1" ++ quote
  ++ "></manifest>".

(** A file whose pool was decoded to two strings. *)
Definition sample_pool_file : File :=
  set_stringPool new_File
    (Some (mkResStringPool zero_ResStringPoolHeader ["hello"; "world"]%string [])).

(** An element [app] with one attribute [label] whose raw value is nil and
    whose typed value is [STRING 1], the pool holding [hello] at index 1. *)
Definition string_attribute_xml : list byte :=
  put_xml
    (put_string_pool 0 [put_utf16 "label"; put_utf16 "hello"; put_utf16 "app"]
     ++ put_start_element NilResStringPoolRef 2
          [put_attribute NilResStringPoolRef 0 NilResStringPoolRef TYPE_STRING 1]
     ++ put_node RES_XML_END_ELEMENT_TYPE 1 (put32 NilResStringPoolRef ++ put32 2)).

(** The attribute of [string_attribute_xml] and a file that holds its
    pool. *)
Definition string_attribute : ResXMLTreeAttribute :=
  mkResXMLTreeAttribute NilResStringPoolRef 0 NilResStringPoolRef
    (mkResValue 8 0 TYPE_STRING 1).

Definition label_pool_file : File :=
  set_stringPool new_File
    (Some (mkResStringPool zero_ResStringPoolHeader
             ["label"; "hello"; "app"]%string [])).

(** A package chunk: the 284-byte header, then the pool of type names and
    the pool of key names. *)
Definition put_package (id : Z) (typeNames keyNames : list string) : list byte :=
  let typeStrings := put_string_pool 0 (map put_utf16 typeNames) in
  let keyStrings := put_string_pool 0 (map put_utf16 keyNames) in
  put_header RES_TABLE_PACKAGE_TYPE 284 (284 + len typeStrings + len keyStrings)
  ++ put32 id ++ flat_map put16 (repeat 0 128)
  ++ put32 284 ++ put32 0 ++ put32 (284 + len typeStrings) ++ put32 0
  ++ typeStrings ++ keyStrings.

Definition put_table (packageCount : Z) (chunks : list byte) : list byte :=
  put_header RES_TABLE_TYPE 12 (12 + len chunks) ++ put32 packageCount ++ chunks.

(** A table that declares two packages and holds two PACKAGE chunks: the
    first has the type string [string] and the key string [app_name], the
    second the type string [bool] and the key string [flag]. *)
Definition package_a : list byte := put_package 0x7F ["string"%string] ["app_name"%string].
Definition package_b : list byte := put_package 0x01 ["bool"%string] ["flag"%string].
Definition two_package_table : list byte :=
  put_table 2 (package_a ++ package_b).

(** The reader that [readTable] hands to [ReadTablePackage] for the
    sub-chunk at [offset] of a table at the origin of [src]. *)
Definition package_reader (src : list byte) (offset : Z) : SectionReader :=
  let table := Seek (NewSectionReader (ReaderAt src) 0 (maxint64 - 0)) 0 in
  Seek (NewSectionReader table offset (maxint64 - offset)) 0.

(** An XML chunk whose only sub-chunk is an END_ELEMENT cut after its chunk
    header: the 16 bytes of its node header are not all there. *)
Definition truncated_xml : list byte :=
  put_header RES_XML_TYPE 8 32 ++ put_header RES_XML_END_ELEMENT_TYPE 16 24.

(** A source whose first chunk has the type [RES_NULL_TYPE]. *)
Definition null_chunk : list byte := put_header RES_NULL_TYPE 8 8.

(** The case list of the [switch] in [readChunk]. *)
Definition dispatched (ty : Z) : bool :=
  existsb (Z.eqb ty)
    [RES_TABLE_TYPE; RES_XML_TYPE; RES_STRING_POOL_TYPE;
     RES_XML_RESOURCE_MAP_TYPE; RES_XML_START_NAMESPACE_TYPE;
     RES_XML_END_NAMESPACE_TYPE; RES_XML_START_ELEMENT_TYPE;
     RES_XML_END_ELEMENT_TYPE; RES_TABLE_PACKAGE_TYPE].

(** The cases of the [switch] in [readChunk] other than [RES_TABLE_TYPE]
    and [RES_XML_TYPE], for a chunk of type [ty] read through [sr]: the
    file and the error that the case leaves.  A type outside the case list
    leaves both as they were. *)
Definition dispatch_leaf (fuel : nat) (ty : Z) (f : File) (sr : SectionReader)
  : result (File * option error) :=
  if ty =? RES_STRING_POOL_TYPE then
    match ReadStringPool sr with
    | inl sp => Ok (set_stringPool f (Some sp), None)
    | inr e => Ok (set_stringPool f None, Some e)
    end
  else if ty =? RES_XML_RESOURCE_MAP_TYPE then
    match ReadResourceMap sr with
    | inl m => Ok (set_resourceMap f m, None)
    | inr e => Ok (set_resourceMap f [], Some e)
    end
  else if ty =? RES_XML_START_NAMESPACE_TYPE then ReadStartNamespace f sr
  else if ty =? RES_XML_END_NAMESPACE_TYPE then ReadEndNamespace f sr
  else if ty =? RES_XML_START_ELEMENT_TYPE then ReadStartElement f sr
  else if ty =? RES_XML_END_ELEMENT_TYPE then ReadEndElement f sr
  else if ty =? RES_TABLE_PACKAGE_TYPE then store_package fuel f sr
  else Ok (f, None).

(** An XML chunk of 16 bytes whose sub-chunk, of type [RES_NULL_TYPE],
    declares the size 0. *)
Definition zero_size_xml : list byte :=
  put_header RES_XML_TYPE 8 16 ++ put_header RES_NULL_TYPE 8 0.

(** An XML chunk of 24 bytes with two sub-chunks: an END_ELEMENT whose
    extension lies past the end of the source, so that its decoder fails,
    and after it a chunk of type [RES_NULL_TYPE] that declares the size
    0. *)
Definition error_before_zero_size : list byte :=
  put_header RES_XML_TYPE 8 24 ++ put_header RES_XML_END_ELEMENT_TYPE 16 8
  ++ put_header RES_NULL_TYPE 8 0.

(** The string [hello] as a UTF-8 pool stores it: the character count 5, the
    byte length 5, the five bytes, a null terminator. *)
Definition hello_utf8 : list byte :=
  put8 5 ++ put8 5 ++ list_byte_of_string "hello" ++ put8 0.

(** The UTF-8 string format in the words of the specification: a character
    count of one or two bytes, then a byte length of one or two bytes with
    the same encoding, then that many bytes of payload. *)
Definition read_length8 (sr : SectionReader) : SectionReader * (Z + error) :=
  match binary_Read 1 decode_u8 sr with
  | (sr, inr e) => (sr, inr e)
  | (sr, inl first) =>
      if negb (Z.land first 0x80 =? 0) then
        match binary_Read 1 decode_u8 sr with
        | (sr, inr e) => (sr, inr e)
        | (sr, inl second) =>
            (sr, inl (Z.lor (Z.shiftl (Z.land first 0x7F) 8) second))
        end
      else (sr, inl first)
  end.

Definition ReadUTF8_spec (sr : SectionReader) (offset : Z)
  : SectionReader * (string + error) :=
  let sr := Seek sr offset in
  match read_length8 sr with
  | (sr, inr e) => (sr, inr e)
  | (sr, inl chars) =>
      match read_length8 sr with
      | (sr, inr e) => (sr, inr e)
      | (sr, inl bytes) => binary_Read bytes string_of_bytes sr
      end
  end.

(** The character count of a UTF-16 string in the words of the
    specification. *)
Definition utf16_count_spec (L1 L2 : Z) : Z :=
  if Z.testbit L1 15 then Z.lor (Z.shiftl (Z.land L1 0x7FFF) 16) L2 else L1.

(** UTF-16 and UTF-8 in the words of the Unicode standard.  A text is a
    list of scalar values: code points up to U+10FFFF outside the surrogate
    range.  In UTF-16 a scalar value below U+10000 is one code unit, and one
    from U+10000 on is a surrogate pair that carries the high and the low
    ten bits of the value less [0x10000].  In UTF-8 a scalar value takes one
    to four bytes: a leading byte that tells the length and holds the high
    bits, then continuation bytes of six bits each. *)
Definition is_scalar (c : Z) : bool :=
  ((0 <=? c) && (c <? 0xD800)) || ((0xE000 <=? c) && (c <=? 0x10FFFF)).

Definition utf16_units (c : Z) : list Z :=
  if c <? 0x10000 then [c]
  else [0xD800 + (c - 0x10000) / 0x400; 0xDC00 + (c - 0x10000) mod 0x400].

Definition utf8_bytes (c : Z) : list Z :=
  if c <? 0x80 then [c]
  else if c <? 0x800 then [0xC0 + c / 64; 0x80 + c mod 64]
  else if c <? 0x10000 then
    [0xE0 + c / 4096; 0x80 + (c / 64) mod 64; 0x80 + c mod 64]
  else
    [0xF0 + c / 262144; 0x80 + (c / 4096) mod 64; 0x80 + (c / 64) mod 64;
     0x80 + c mod 64].

(** A text as UTF-16LE bytes, and as the UTF-8 string that Go holds. *)
Definition utf16le (text : list Z) : list byte :=
  flat_map put16 (flat_map utf16_units text).

Definition utf8_string (text : list Z) : string :=
  string_of_list_ascii (map chr (flat_map utf8_bytes text)).

(** A UTF-16 string of three code units: [H], then a surrogate pair. *)
Definition surrogate_utf16 : list byte :=
  put16 3 ++ put16 0x48 ++ put16 0xD83D ++ put16 0xDE00 ++ put16 0.

(** ** The facade file (package androidbinary): [Bool] and [Int32]

    The facade calls [IsResID], [ParseResID] and [TableFile.GetResource],
    which belong to files of the package that are not part of this
    development: they are the variables of the section.  [GetResource] is
    called on a table pointer that may be nil and returns an [interface{}]
    value. *)

(** The dynamic values that the type assertions of the accessors inspect;
    [any_other] carries the name [%T] prints. *)
Inductive any : Type :=
| any_bool (b : bool)
| any_uint32 (z : Z)
| any_string (s : string)
| any_other (tyname : string).

Definition type_name (v : any) : string :=
  match v with
  | any_bool _ => "bool"
  | any_uint32 _ => "uint32"
  | any_string _ => "string"
  | any_other n => n
  end.

(** [strconv.ParseBool]. *)
Definition ParseBool (str : string) : bool * option error :=
  if existsb (String.eqb str) ["1"; "t"; "T"; "true"; "TRUE"; "True"]%string
  then (true, None)
  else if existsb (String.eqb str) ["0"; "f"; "F"; "false"; "FALSE"; "False"]%string
  then (false, None)
  else (false, Some (ErrSyntax "ParseBool" str)).

(** [strconv.ParseUint(s, 10, 32)] on a non-empty [s]: the loop over the
    characters leaves at the first character that is not a decimal digit
    with a syntax error, and at the first digit that takes the value past
    [2^32 - 1] with that bound and a range error.  (The test [n >= cutoff]
    of the source guards the 64-bit product and cannot hold below
    [2^32].) *)
Inductive uint_result : Type :=
| uint_ok (n : Z)
| uint_syntax
| uint_range (maxVal : Z).

Fixpoint ParseUint_loop (s : string) (n : Z) : uint_result :=
  match s with
  | EmptyString => uint_ok n
  | String c rest =>
      let d := ord c - 48 in
      if (0 <=? d) && (d <=? 9) then
        let n1 := 10 * n + d in
        if 4294967295 <? n1 then uint_range 4294967295
        else ParseUint_loop rest n1
      else uint_syntax
  end.

(** [strconv.ParseInt(s, 10, 32)]: the value and the error; a syntax error
    comes with 0, a range error with the nearest bound. *)
Definition ParseInt32 (s : string) : Z * option error :=
  match s with
  | EmptyString => (0, Some (ErrSyntax "ParseInt" s))
  | String c rest =>
      let neg := Ascii.eqb c "-" in
      let digits := if Ascii.eqb c "+" || neg then rest else s in
      match digits with
      | EmptyString => (0, Some (ErrSyntax "ParseInt" s))
      | _ =>
          match ParseUint_loop digits 0 with
          | uint_syntax => (0, Some (ErrSyntax "ParseInt" s))
          | uint_ok un | uint_range un =>
              let cutoff := 2147483648 in
              if negb neg && (cutoff <=? un)
              then (cutoff - 1, Some (ErrRange "ParseInt" s))
              else if neg && (cutoff <? un)
              then (- cutoff, Some (ErrRange "ParseInt" s))
              else (if neg then - un else un, None)
          end
      end
  end.

(** [int32(x)] for a [uint32]. *)
Definition int32_of_uint32 (x : Z) : Z :=
  if x <? 2147483648 then x else x - 4294967296.

Section Facade.

Variable TableFile : Type.
Variable ResID : Type.
Variable IsResID : string -> bool.
Variable ParseResID : string -> ResID + error.
Variable GetResource :
  option TableFile -> ResID -> option ResTableConfig -> result (any + error).

(** [table] and [config] are pointers: [None] is nil. *)
Record Bool : Type := mkBool {
  bool_value : string;
  bool_table : option TableFile;
  bool_config : option ResTableConfig
}.

(** [v.WithTableFile(table)]. *)
Definition Bool_WithTableFile (v : Bool) (table : option TableFile) : Bool :=
  mkBool (bool_value v) table (bool_config v).

(** [v.WithResTableConfig(config)]. *)
Definition Bool_WithResTableConfig (v : Bool) (config : option ResTableConfig)
  : Bool :=
  mkBool (bool_value v) (bool_table v) config.

(** [v.inject(table, config)]. *)
Definition Bool_inject (v : Bool) (table : option TableFile)
    (config : option ResTableConfig) : Bool :=
  mkBool (bool_value v) table config.

(** [v.Bool()]. *)
Definition Bool_Bool (v : Bool) : result (bool * option error) :=
  if String.eqb (bool_value v) "" then Ok (false, None)
  else if negb (IsResID (bool_value v)) then Ok (ParseBool (bool_value v))
  else
    match ParseResID (bool_value v) with
    | inr err => Ok (false, Some err)
    | inl id =>
        r <- GetResource (bool_table v) id (bool_config v) ;;
        match r with
        | inr err => Ok (false, Some err)
        | inl (any_bool ret) => Ok (ret, None)
        | inl value => Ok (false, Some (ErrInvalidType (type_name value)))
        end
    end.

Record Int32 : Type := mkInt32 {
  int32_value : string;
  int32_table : option TableFile;
  int32_config : option ResTableConfig
}.

(** [v.WithTableFile(table)]. *)
Definition Int32_WithTableFile (v : Int32) (table : option TableFile) : Int32 :=
  mkInt32 (int32_value v) table (int32_config v).

(** [v.WithResTableConfig(config)], which the source declares to return a
    [Bool]. *)
Definition Int32_WithResTableConfig (v : Int32)
    (config : option ResTableConfig) : Bool :=
  mkBool (int32_value v) (int32_table v) config.

(** [v.inject(table, config)]. *)
Definition Int32_inject (v : Int32) (table : option TableFile)
    (config : option ResTableConfig) : Int32 :=
  mkInt32 (int32_value v) table config.

(** [v.Int32()]. *)
Definition Int32_Int32 (v : Int32) : result (Z * option error) :=
  if String.eqb (int32_value v) "" then Ok (0, None)
  else if negb (IsResID (int32_value v)) then Ok (ParseInt32 (int32_value v))
  else
    match ParseResID (int32_value v) with
    | inr err => Ok (0, Some err)
    | inl id =>
        r <- GetResource (int32_table v) id (int32_config v) ;;
        match r with
        | inr err => Ok (0, Some err)
        | inl (any_uint32 ret) => Ok (int32_of_uint32 ret, None)
        | inl value => Ok (0, Some (ErrInvalidType (type_name value)))
        end
    end.

End Facade.

Arguments mkBool {TableFile} _ _ _.
Arguments bool_value {TableFile} _.
Arguments bool_table {TableFile} _.
Arguments bool_config {TableFile} _.
Arguments mkInt32 {TableFile} _ _ _.
Arguments int32_value {TableFile} _.
Arguments int32_table {TableFile} _.
Arguments int32_config {TableFile} _.

(** ** Vocabulary of the properties *)

(** [le_res a b]: [b] is [a], or [a] ran out of fuel. *)
Definition le_res {A : Type} (a b : result A) : Prop :=
  a = OutOfFuel \/ a = b.

(** A decode terminates when some amount of fuel lets it finish. *)
Definition terminates (src : list byte) : Prop :=
  exists fuel, NewFile fuel src <> OutOfFuel.

(** The characters that [xml.EscapeText] copies as they are, among those
    below [0x80]: the printable ones other than the quotes, [&], [<] and
    [>]. *)
Definition plain_char (c : ascii) : bool :=
  let r := ord c in
  (0x20 <=? r) && (r <? 0x80)
  && negb ((r =? 34) || (r =? 39) || (r =? 38) || (r =? 60) || (r =? 62)).

(** What the decoder writes for [string_attribute_xml], and what it would
    write if the value were resolved from the pool. *)
Definition xml_declaration : string :=
  "<?xml version=" ++ quote ++ "1.0" ++ quote ++ " encoding=" ++ quote
  ++ "utf-8" ++ quote ++ "?>".

Definition string_attribute_output : string :=
  xml_declaration ++ "<app label=" ++ quote ++ "@0x00000001" ++ quote
  ++ "></app>".

Definition string_attribute_resolved : string :=
  xml_declaration ++ "<app label=" ++ quote ++ "hello" ++ quote ++ "></app>".

(** The chunk header that stands at the absolute position [p] of a source,
    when its eight bytes are there. *)
Definition header_at (src : list byte) (p : Z) : option ResChunkHeader :=
  if (0 <=? p) && (p + 8 <=? len src)
  then Some (decode_ResChunkHeader (slice src p 8))
  else None.

(** The reader of the chunk at [offset] of [r], its cursor at the start of
    the chunk, and the header of the chunk, as [readChunk] reads it; nothing
    when the header cannot be read. *)
Definition chunk_at (r : SectionReader) (offset : Z)
  : option (SectionReader * ResChunkHeader) :=
  let sr := Seek (NewSectionReader r offset (maxint64 - offset)) 0 in
  match binary_Read sizeof_ResChunkHeader decode_ResChunkHeader sr with
  | (_, inr _) => None
  | (sr, inl chunkHeader) => Some (Seek sr 0, chunkHeader)
  end.

(** The loop that [f.readChunk(r, offset)] enters when the chunk is a table
    or an XML tree: the file that [readTable] or [readXML] hands to its
    loop, the reader of the chunk, the size of the window and the offset at
    which the loop starts. *)
Definition loop_start (f : File) (r : SectionReader) (offset : Z)
  : option (File * SectionReader * Z * Z) :=
  match chunk_at r offset with
  | None => None
  | Some (sr, chunkHeader) =>
      if ch_Type chunkHeader =? RES_TABLE_TYPE then
        let '(_, header) :=
          binary_Read_ignore sizeof_ResTableHeader decode_ResTableHeader
            zero_ResTableHeader sr in
        Some (set_tablePackages f
                (repeat zero_TablePackage (Z.to_nat (th_PackageCount header))),
              sr, ch_Size (th_Header header), ch_HeaderSize (th_Header header))
      else if ch_Type chunkHeader =? RES_XML_TYPE then
        let '(_, header) :=
          binary_Read_ignore sizeof_ResChunkHeader decode_ResChunkHeader
            zero_ResChunkHeader sr in
        Some (Fprint f xml_declaration, sr, ch_Size header, ch_HeaderSize header)
      else None
  end.

(** The loop of [ReadTablePackage] that [readChunk(r, offset)] enters when
    the chunk is a package whose header and two pools are read without
    error: the reader, the size of the window and the offset at which the
    loop starts. *)
Definition package_start (r : SectionReader) (offset : Z)
  : option (SectionReader * Z * Z) :=
  match chunk_at r offset with
  | None => None
  | Some (sr, chunkHeader) =>
      if ch_Type chunkHeader =? RES_TABLE_PACKAGE_TYPE then
        match binary_Read sizeof_ResTablePackage decode_ResTablePackage sr with
        | (_, inr _) => None
        | (sr, inl header) =>
            let srTypes :=
              NewSectionReader sr (pkg_TypeStrings header)
                (wrap32 (ch_Size (pkg_Header header) - pkg_TypeStrings header)) in
            match ReadStringPool srTypes with
            | inr _ => None
            | inl _ =>
                let srKeys :=
                  NewSectionReader sr (pkg_KeyStrings header)
                    (wrap32 (ch_Size (pkg_Header header) - pkg_KeyStrings header)) in
                match ReadStringPool srKeys with
                | inr _ => None
                | inl _ =>
                    Some (sr, ch_Size (pkg_Header header),
                          ch_HeaderSize (pkg_Header header))
                end
            end
        end
      else None
  end.

(** One round of the loop of [ReadTablePackage] at [offset]: the header of
    the sub-chunk when the round ends without error, so that the loop moves
    on by the size that header declares. *)
Definition package_round (sr : SectionReader) (offset : Z)
  : option ResChunkHeader :=
  let sr := Seek sr offset in
  match binary_Read sizeof_ResChunkHeader decode_ResChunkHeader sr with
  | (_, inr _) => None
  | (sr, inl chunkHeader) =>
      let chunkReader := NewSectionReader sr offset (ch_Size chunkHeader) in
      if ch_Type chunkHeader =? RES_TABLE_TYPE_TYPE then
        match ReadTableType chunkReader with
        | inl _ => Some chunkHeader
        | inr _ => None
        end
      else if ch_Type chunkHeader =? RES_TABLE_TYPE_SPEC_TYPE then
        match ReadTableTypeSpec chunkReader with
        | inl _ => Some chunkHeader
        | inr _ => None
        end
      else Some chunkHeader
  end.

(** [stands src f sr size o]: in the decode of [src], the loop of a table or
    of an XML tree that reads its sub-chunks through [sr], in a window of
    [size] bytes, comes to stand at the offset [o] with the file [f].  The
    loop of the first chunk starts where [loop_start] says; a loop that
    stands before the end of its window on a sub-chunk that is itself a
    table or an XML tree makes the loop of that sub-chunk start; and a loop
    that stands before the end of its window on a sub-chunk that
    [readChunk] decodes without error moves on by the size of that
    sub-chunk, with the file that [readChunk] left.  A loop goes no further
    than the first sub-chunk that fails or panics. *)
Inductive stands (src : list byte) : File -> SectionReader -> Z -> Z -> Prop :=
| stands_top (f : File) (sr : SectionReader) (size o : Z) :
    loop_start new_File (ReaderAt src) 0 = Some (f, sr, size, o) ->
    stands src f sr size o
| stands_down (f : File) (r : SectionReader) (size o : Z)
    (f1 : File) (sr1 : SectionReader) (size1 o1 : Z) :
    stands src f r size o -> o < size ->
    loop_start f r o = Some (f1, sr1, size1, o1) ->
    stands src f1 sr1 size1 o1
| stands_next (f : File) (sr : SectionReader) (size o : Z) (n : nat)
    (f' : File) (hc : ResChunkHeader) :
    stands src f sr size o -> o < size ->
    readChunk n f sr o = Ok (f', inl hc) ->
    stands src f' sr size (o + ch_Size hc).

(** The calls [f.readChunk(r, o)] of the decode of [src]: the call of
    [NewFile], and the calls of the loops. *)
Definition called (src : list byte) (f : File) (r : SectionReader) (o : Z)
  : Prop :=
  (f = new_File /\ r = ReaderAt src /\ o = 0)
  \/ exists size, stands src f r size o /\ o < size.

(** [package_stands src sr size o]: the loop of [ReadTablePackage], for a
    package chunk on which [readChunk] is called, comes to stand at the
    offset [o] of its window of [size] bytes. *)
Inductive package_stands (src : list byte) : SectionReader -> Z -> Z -> Prop :=
| package_enter (f : File) (r : SectionReader) (o : Z)
    (sr : SectionReader) (size start : Z) :
    called src f r o ->
    package_start r o = Some (sr, size, start) ->
    package_stands src sr size start
| package_next (sr : SectionReader) (size o : Z) (hc : ResChunkHeader) :
    package_stands src sr size o -> o < size ->
    package_round sr o = Some hc ->
    package_stands src sr size (o + ch_Size hc).

(** A source is advancing when every loop advances where it moves on: a
    sub-chunk on which a loop stands before the end of its window, and
    which is decoded without error, declares a size of at least 1; and the
    loop of a table or of an XML tree never stands at the offset 0 before
    the end of its window, where the sub-chunk would be the table or the
    tree itself (a table or an XML tree with a window to read declares a
    header size of at least 1). *)
Definition advancing (src : list byte) : Prop :=
  (forall f sr size o,
      stands src f sr size o -> o < size ->
      1 <= o
      /\ (forall n f' hc, readChunk n f sr o = Ok (f', inl hc) ->
                          1 <= ch_Size hc))
  /\ (forall sr size o hc,
        package_stands src sr size o -> o < size ->
        package_round sr o = Some hc -> 1 <= ch_Size hc).

(** Fuel that covers any one loop: a window is shorter than [2^32]. *)
Definition loop_fuel : nat := Z.to_nat 4294967296.

(** An outcome of the Go program: a return or a panic. *)
Definition finished {A : Type} (r : result A) : Prop := r <> OutOfFuel.

(** ** More of the facade file *)

(** [strconv.FormatBool]. *)
Definition FormatBool (b : bool) : string :=
  if b then "true" else "false".

(** [strconv.FormatInt(int64(value), 10)] for an [int32] value: a minus sign
    for a negative value, then the decimal digits of the magnitude, which
    are at most ten. *)
Definition FormatInt32 (value : Z) : string :=
  if value <? 0 then String "-" (decimal_loop 10 (- value) EmptyString)
  else decimal_loop 10 value EmptyString.

(** [v.SetBool(value)]. *)
Definition Bool_SetBool {TableFile : Type} (v : Bool TableFile) (value : bool)
  : Bool TableFile :=
  mkBool (FormatBool value) (bool_table v) (bool_config v).

(** [v.SetInt32(value)]. *)
Definition Int32_SetInt32 {TableFile : Type} (v : Int32 TableFile) (value : Z)
  : Int32 TableFile :=
  mkInt32 (FormatInt32 value) (int32_table v) (int32_config v).

(** [v.UnmarshalXMLAttr(attr)], [attrValue] being [attr.Value]: the receiver
    after the call and the nil error. *)
Definition Bool_UnmarshalXMLAttr {TableFile : Type} (v : Bool TableFile)
    (attrValue : string) : Bool TableFile * option error :=
  (mkBool attrValue (bool_table v) (bool_config v), None).

Definition Int32_UnmarshalXMLAttr {TableFile : Type} (v : Int32 TableFile)
    (attrValue : string) : Int32 TableFile * option error :=
  (mkInt32 attrValue (int32_table v) (int32_config v), None).

(** ** More byte sources *)

(** An XML tree whose only sub-chunk is a CDATA node that refers to string
    0. *)
Definition cdata_xml : list byte :=
  put_xml (put_node RES_XML_CDATA_TYPE 1
             (put32 0 ++ put16 8 ++ put8 0 ++ put8 TYPE_NULL ++ put32 0)).

(** A source that starts with a PACKAGE chunk. *)
Definition lone_package : list byte := package_a.

(** A string pool chunk cut in the middle of its header. *)
Definition cut_pool : list byte :=
  firstn 20 (put_string_pool 0 [put_utf16 "hello"]).

(** [only_prints f f']: [f'] is [f] with more text at the end of its XML
    buffer, every other field being the same. *)
Definition only_prints (f f' : File) : Prop :=
  stringPool f' = stringPool f
  /\ resourceMap f' = resourceMap f
  /\ notPrecessedNS f' = notPrecessedNS f
  /\ namespaces f' = namespaces f
  /\ tablePackages f' = tablePackages f
  /\ exists s, XMLBuffer f' = (XMLBuffer f ++ s)%string.

(** [grows f f']: the XML buffer of [f] is a prefix of that of [f']. *)
Definition grows (f f' : File) : Prop :=
  exists s, XMLBuffer f' = (XMLBuffer f ++ s)%string.

(** A START_ELEMENT chunk of which only the chunk header is there. *)
Definition cut_start_element : list byte :=
  put_header RES_XML_START_ELEMENT_TYPE 16 56.

(** The text that [ReadStartElement] writes for the element of
    [string_attribute_xml]. *)
Definition app_start_tag : string :=
  "<app label=" ++ quote ++ "@0x00000001" ++ quote ++ ">".

(** A START_NAMESPACE chunk that binds prefix 1 to URI 2, and a file whose
    pool names them. *)
Definition namespace_chunk : list byte :=
  put_node RES_XML_START_NAMESPACE_TYPE 1 (put32 1 ++ put32 2).

Definition namespace_pool_file : File :=
  set_stringPool new_File
    (Some (mkResStringPool zero_ResStringPoolHeader
             ["versionCode"; "android"; android_uri]%string [])).

(** The keys of a map of the file are distinct; every map that
    [ReadStartNamespace] builds from a nil map is such. *)
Definition keys_unique (m : option refmap) : Prop :=
  NoDup (map fst (make_if_nil m)).

(** The END_NAMESPACE chunk for the same binding, and the file in which the
    binding is active. *)
Definition namespace_end_chunk : list byte :=
  put_node RES_XML_END_NAMESPACE_TYPE 1 (put32 1 ++ put32 2).

Definition bound_namespace_file : File :=
  set_namespaces namespace_pool_file (Some [(2, 1)]).

(** A pool of two strings, and the pool that a header cut short leaves. *)
Definition hello_pool : list byte :=
  put_string_pool 0 [put_utf16 "hello"; put_utf16 "world"].

Definition empty_pool : ResStringPool :=
  mkResStringPool zero_ResStringPoolHeader [] [].

(** What [ReadTableType] leaves in a slot for an entry index: the zero entry,
    with nil key and value, for the index [0xFFFFFFFF], an entry with key
    and value otherwise. *)
Definition slot (index : Z) (e : TableEntry) : Prop :=
  if index =? 0xFFFFFFFF then e = zero_TableEntry
  else te_Key e <> None /\ te_Value e <> None.

(** A TYPE chunk with three entry indexes, the second sparse: header of 52
    bytes, indexes [0], [0xFFFFFFFF] and [16], then two entries of 16
    bytes. *)
Definition put_entry (key dataType data : Z) : list byte :=
  put16 8 ++ put16 0 ++ put32 key
  ++ put16 8 ++ put8 0 ++ put8 dataType ++ put32 data.

Definition sparse_type_chunk : list byte :=
  put_header RES_TABLE_TYPE_TYPE 52 (52 + 12 + 32)
  ++ put8 1 ++ put8 0 ++ put16 0 ++ put32 3 ++ put32 64
  ++ put32 32 ++ flat_map put32 [0; 0; 0; 0; 0; 0; 0]
  ++ put32 0 ++ put32 0xFFFFFFFF ++ put32 16
  ++ put_entry 0 TYPE_STRING 5 ++ put_entry 1 TYPE_INT_DEC 7.

(** A resource map chunk with two identifiers. *)
Definition resource_map_chunk : list byte :=
  put_header RES_XML_RESOURCE_MAP_TYPE 8 16
  ++ put32 0x0101021b ++ put32 0x0101021c.

(** A stand-in for [IsResID] in examples: a resource id in text starts with
    [@]. *)
Definition starts_with_at (s : string) : bool :=
  match s with
  | String c _ => Ascii.eqb c "@"
  | EmptyString => false
  end.

(** A stand-in for [ParseResID] and for [GetResource] in examples that never
    reach them. *)
Definition no_ParseResID (s : string) : unit + error := inr (ErrOther s).
Definition no_GetResource (t : option unit) (id : unit)
    (c : option ResTableConfig) : result (any + error) :=
  Panic NilDereference.

(** Attributes with a nil raw value and the typed values [INT_DEC 1] and
    [INT_BOOLEAN 0xFFFFFFFF]. *)
Definition int_attribute : ResXMLTreeAttribute :=
  mkResXMLTreeAttribute NilResStringPoolRef 0 NilResStringPoolRef
    (mkResValue 8 0 TYPE_INT_DEC 1).

Definition bool_attribute : ResXMLTreeAttribute :=
  mkResXMLTreeAttribute NilResStringPoolRef 0 NilResStringPoolRef
    (mkResValue 8 0 TYPE_INT_BOOLEAN 0xFFFFFFFF).

(** The characters that end or open markup inside an attribute value or a
    text: the two quotes, [<] and [>]. *)
Definition markup_char (c : ascii) : bool :=
  let r := ord c in (r =? 34) || (r =? 39) || (r =? 60) || (r =? 62).

Definition no_markup (s : string) : Prop :=
  Forall (fun c => markup_char c = false) (list_ascii_of_string s).

(** An attribute whose raw value refers to pool string 0, and a file whose
    string 0 is full of markup. *)
Definition raw_attribute : ResXMLTreeAttribute :=
  mkResXMLTreeAttribute NilResStringPoolRef 1 0 zero_ResValue.

Definition markup_pool_file : File :=
  set_stringPool new_File
    (Some (mkResStringPool zero_ResStringPoolHeader
             ["a<b>'c'"; "name"]%string [])).

(** Stand-ins for the collaborators in an example that resolves a resource:
    every text that starts with [@] parses to the one id, and a table that
    is there maps it to the boolean [true]. *)
Definition one_ParseResID (s : string) : unit + error := inl tt.
Definition true_GetResource (t : option unit) (id : unit)
    (c : option ResTableConfig) : result (any + error) :=
  match t with
  | Some _ => Ok (inl (any_bool true))
  | None => Panic NilDereference
  end.

(** A string of ASCII characters that is short enough for the one-unit
    length of a UTF-16 pool string. *)
Definition short_ascii (s : string) : Prop :=
  Z.of_nat (String.length s) < 0x8000
  /\ Forall (fun c => ord c < 0x80) (list_ascii_of_string s).

(** The header of the pool that [put_string_pool] writes. *)
Definition pool_header (flags : Z) (encoded : list (list byte))
  : ResStringPoolHeader :=
  let count := Z.of_nat (length encoded) in
  mkResStringPoolHeader
    (mkResChunkHeader RES_STRING_POOL_TYPE 28
       (28 + 4 * count + len (concat encoded)))
    count 0 flags (28 + 4 * count) 0.

(** * Properties *)

(** ** Samples of the text functions *)

Example Sprintf_d_sample : Sprintf_d 4294967295 = "4294967295"%string.
Proof. reflexivity. Qed.

Example Sprintf_08X_sample : Sprintf_08X 2130837505 = "7F020001"%string.
Proof. reflexivity. Qed.

Example xml_Escape_sample :
  xml_Escape "a<b & 'c'"%string = "a&lt;b &amp; &#39;c&#39;"%string.
Proof. reflexivity. Qed.

Example utf16_surrogate_sample :
  string_of_runes (utf16_Decode [0x48; 0xD83D; 0xDE00; 0xDC00])
  = string_of_list_ascii
      [chr 0x48; chr 0xF0; chr 0x9F; chr 0x98; chr 0x80; chr 0xEF; chr 0xBF; chr 0xBD].
Proof. reflexivity. Qed.


(** ** Fuel

    An outcome other than [OutOfFuel] does not depend on the fuel: more fuel
    gives the same outcome. *)

Lemma le_res_refl {A : Type} (a : result A) : le_res a a.
Proof. now right. Qed.

Lemma le_res_out {A : Type} (b : result A) : le_res OutOfFuel b.
Proof. now left. Qed.

Lemma le_res_eq {A : Type} (a b : result A) :
  le_res a b -> a <> OutOfFuel -> b = a.
Proof. intros [H | H] Hne; [contradiction | now symmetry]. Qed.

Lemma bind_le {A B : Type} (m m' : result A) (k k' : A -> result B) :
  le_res m m' -> (forall a, le_res (k a) (k' a)) ->
  le_res (bind m k) (bind m' k').
Proof.
  intros [-> | ->] Hk.
  - apply le_res_out.
  - destruct m' as [a | p |]; simpl; auto using le_res_refl, le_res_out.
Qed.

Create HintDb fuel.
#[local] Hint Resolve le_res_refl le_res_out : fuel.

Lemma package_chunks_mono (n m : nat) (size : Z) (sr : SectionReader)
    (types : list TableType) (offset : Z) :
  (n <= m)%nat ->
  le_res (package_chunks n size sr types offset)
         (package_chunks m size sr types offset).
Proof.
  revert m sr types offset.
  induction n as [| n IH]; intros m sr types offset Hle; simpl.
  - apply le_res_out.
  - destruct m as [| m]; [lia |]. simpl.
    destruct (offset <? size); [| apply le_res_refl].
    destruct (binary_Read _ _ _) as [sr' [hdr | e]]; [| apply le_res_refl].
    match goal with
    | |- le_res (match ?s with _ => _ end) _ =>
        destruct s as [types' | e]; [| apply le_res_refl]
    end.
    apply IH. lia.
Qed.

Lemma ReadTablePackage_mono (n m : nat) (sr : SectionReader) :
  (n <= m)%nat -> le_res (ReadTablePackage n sr) (ReadTablePackage m sr).
Proof.
  intros Hle. unfold ReadTablePackage.
  destruct (binary_Read _ _ _) as [sr' [hdr | e]]; [| apply le_res_refl].
  destruct (ReadStringPool _); [| apply le_res_refl].
  destruct (ReadStringPool _); [| apply le_res_refl].
  apply bind_le; [now apply package_chunks_mono | auto with fuel].
Qed.

Lemma store_package_mono (n m : nat) (f : File) (sr : SectionReader) :
  (n <= m)%nat -> le_res (store_package n f sr) (store_package m f sr).
Proof.
  intros Hle. unfold store_package.
  apply bind_le; [now apply ReadTablePackage_mono | auto with fuel].
Qed.

Lemma chunk_loop_mono
    (rc rc' : File -> Z -> result (File * (ResChunkHeader + error)))
    (n m : nat) (size : Z) (f : File) (offset : Z) :
  (forall f o, le_res (rc f o) (rc' f o)) -> (n <= m)%nat ->
  le_res (chunk_loop rc n size f offset) (chunk_loop rc' m size f offset).
Proof.
  intros Hrc. revert m f offset.
  induction n as [| n IH]; intros m f offset Hle; simpl.
  - apply le_res_out.
  - destruct m as [| m]; [lia |]. simpl.
    destruct (offset <? size); [| apply le_res_refl].
    apply bind_le; [apply Hrc |].
    intros [f' [hdr | e]]; [| apply le_res_refl].
    apply IH. lia.
Qed.

Lemma readChunk_body_mono
    (rc rc' : File -> SectionReader -> Z -> result (File * (ResChunkHeader + error)))
    (n m : nat) (f : File) (r : SectionReader) (offset : Z) :
  (forall f r o, le_res (rc f r o) (rc' f r o)) -> (n <= m)%nat ->
  le_res (readChunk_body rc n f r offset) (readChunk_body rc' m f r offset).
Proof.
  intros Hrc Hle. unfold readChunk_body.
  destruct (binary_Read _ _ _) as [sr' [hdr | e]]; [| apply le_res_refl].
  apply bind_le; [| intros [f' [e |]]; apply le_res_refl].
  repeat match goal with
         | |- le_res (if ?c then _ else _) _ => destruct c
         end; auto with fuel.
  - unfold readTable. destruct (binary_Read_ignore _ _ _ _) as [sr'' th].
    apply chunk_loop_mono; auto.
  - unfold readXML. destruct (binary_Read_ignore _ _ _ _) as [sr'' th].
    apply chunk_loop_mono; auto.
  - now apply store_package_mono.
Qed.

Lemma readChunk_mono (n m : nat) (f : File) (r : SectionReader) (offset : Z) :
  (n <= m)%nat -> le_res (readChunk n f r offset) (readChunk m f r offset).
Proof.
  revert m f r offset.
  induction n as [| n IH]; intros m f r offset Hle.
  - apply le_res_out.
  - destruct m as [| m]; [lia |]. simpl.
    apply readChunk_body_mono; [| lia].
    intros f' r' o'. apply IH. lia.
Qed.

Lemma NewFile_mono (n m : nat) (src : list byte) :
  (n <= m)%nat -> le_res (NewFile n src) (NewFile m src).
Proof.
  intros Hle. unfold NewFile.
  apply bind_le; [now apply readChunk_mono |].
  intros [f r]. apply le_res_refl.
Qed.

(** ** GetString *)

(** C10. [GetString] is partial.  For a reference other than the sentinel
    [0xFFFFFFFF]: on a file whose string pool was never decoded it panics
    with a nil dereference; on a decoded pool it panics with an index out of
    range when the reference is at least the number of strings, and returns
    the string at that index otherwise.  The sentinel yields the empty
    string whatever the file. *)
Theorem GetString_partial (f : File) (ref : ResStringPoolRef) :
  0 <= ref < 4294967296 ->
  ref <> NilResStringPoolRef ->
  (stringPool f = None -> GetString f ref = Panic NilDereference)
  /\ (forall sp, stringPool f = Some sp ->
        Z.of_nat (length (sp_Strings sp)) <= ref ->
        GetString f ref
        = Panic (IndexOutOfRange ref (Z.of_nat (length (sp_Strings sp)))))
  /\ (forall sp, stringPool f = Some sp ->
        ref < Z.of_nat (length (sp_Strings sp)) ->
        exists s, nth_error (sp_Strings sp) (Z.to_nat ref) = Some s
                  /\ GetString f ref = Ok s)
  /\ GetString f NilResStringPoolRef = Ok EmptyString.
Proof.
  intros Hrange Hnil. unfold GetString.
  assert (Hneq : (ref =? NilResStringPoolRef) = false) by now apply Z.eqb_neq.
  rewrite Hneq. repeat split.
  - intros ->. reflexivity.
  - intros sp -> Hlen.
    assert (Hnone : nth_error (sp_Strings sp) (Z.to_nat ref) = None)
      by (apply nth_error_None; lia).
    now rewrite Hnone.
  - intros sp -> Hlen.
    destruct (nth_error (sp_Strings sp) (Z.to_nat ref)) as [s |] eqn:Hnth.
    + now exists s.
    + apply nth_error_None in Hnth. lia.
Qed.

(** ** The facade accessors *)

(** C9. An empty textual value yields the zero value and a nil error:
    [Bool()] returns [false] and [Int32()] returns 0, whatever table and
    config are bound (nil or not) and whatever the collaborators do. *)
Theorem empty_value_is_zero
    (TableFile ResID : Type) (IsResID : string -> bool)
    (ParseResID : string -> ResID + error)
    (GetResource : option TableFile -> ResID -> option ResTableConfig ->
                   result (any + error))
    (table : option TableFile) (config : option ResTableConfig) :
  Bool_Bool TableFile ResID IsResID ParseResID GetResource
    (mkBool EmptyString table config) = Ok (false, None)
  /\ Int32_Int32 TableFile ResID IsResID ParseResID GetResource
       (mkInt32 EmptyString table config) = Ok (0, None).
Proof. split; reflexivity. Qed.

(** ** The minimal manifest *)

(** C7. On the minimal manifest the decoder returns, with a nil error, a
    file whose XML buffer is exactly the expected document; eight units of
    fuel suffice and more change nothing. *)
Theorem minimal_manifest_output (k : nat) :
  exists f, NewFile (8 + k) minimal_manifest = Ok (f, None)
            /\ XMLBuffer f = minimal_manifest_xml.
Proof.
  assert (H8 : exists f, NewFile 8 minimal_manifest = Ok (f, None)
                         /\ String.eqb (XMLBuffer f) minimal_manifest_xml = true).
  { vm_compute. eexists. split; reflexivity. }
  destruct H8 as [f [Hf Hx]]. exists f. split.
  - rewrite <- Hf. apply le_res_eq.
    + apply NewFile_mono. lia.
    + rewrite Hf. discriminate.
  - now apply String.eqb_eq.
Qed.

Lemma GetString_partial_witness :
  GetString new_File 0 = Panic NilDereference
  /\ GetString sample_pool_file 5 = Panic (IndexOutOfRange 5 2)
  /\ (exists s, nth_error ["hello"; "world"]%string 1 = Some s
                /\ GetString sample_pool_file 1 = Ok s).
Proof.
  split; [| split].
  - destruct (GetString_partial new_File 0) as [H _];
      [lia | discriminate | exact (H eq_refl)].
  - destruct (GetString_partial sample_pool_file 5) as (_ & H & _);
      [lia | discriminate |].
    apply (H (mkResStringPool zero_ResStringPoolHeader
                ["hello"; "world"]%string [])); [reflexivity | simpl; lia].
  - destruct (GetString_partial sample_pool_file 1) as (_ & _ & H & _);
      [lia | discriminate |].
    apply (H (mkResStringPool zero_ResStringPoolHeader
                ["hello"; "world"]%string [])); [reflexivity | simpl; lia].
Defined.

(** ** The package list of a table *)

(** C1, at a table that declares two packages and holds two PACKAGE chunks.
    Both chunks decode, to [pa] (type string [string], key string
    [app_name]) and to [pb] (type string [bool], key string [flag]); the
    list has length 2, but every store goes to index 0: the list ends as
    [[pb; zero]], not as [[pa; pb]], and [pa] is lost. *)
Theorem two_packages_only_last_kept :
  exists pa pb f,
    ReadTablePackage 3 (package_reader two_package_table 12) = Ok (inl pa)
    /\ ReadTablePackage 3
         (package_reader two_package_table (12 + len package_a)) = Ok (inl pb)
    /\ option_map sp_Strings (tp_TypeStrings pa) = Some ["string"%string]
    /\ option_map sp_Strings (tp_KeyStrings pa) = Some ["app_name"%string]
    /\ option_map sp_Strings (tp_TypeStrings pb) = Some ["bool"%string]
    /\ option_map sp_Strings (tp_KeyStrings pb) = Some ["flag"%string]
    /\ NewFile 5 two_package_table = Ok (f, None)
    /\ tablePackages f = [pb; zero_TablePackage]
    /\ tablePackages f <> [pa; pb].
Proof.
  vm_compute. do 3 eexists.
  repeat (split; [reflexivity |]). discriminate.
Qed.

(** ** Errors at the top level *)

(** Whatever [readChunk] returns, [NewFile] returns a nil error. *)
Lemma NewFile_error_is_nil (fuel : nat) (src : list byte) (f : File)
    (e : option error) :
  NewFile fuel src = Ok (f, e) -> e = None.
Proof.
  unfold NewFile.
  destruct (readChunk fuel new_File (ReaderAt src) 0) as [[f' r] | p |];
    simpl; intros H; [| discriminate | discriminate].
  now inversion H.
Qed.

(** C4, at an XML chunk whose END_ELEMENT sub-chunk is cut short.  The
    sub-decoder fails, the error climbs through [readXML] up to the outermost
    [readChunk], which returns [io.ErrUnexpectedEOF]; [NewFile] then returns
    the file with a nil error. *)
Theorem NewFile_drops_decoder_error :
  exists f,
    readChunk 3 new_File (ReaderAt truncated_xml) 0 = Ok (f, inr ErrUnexpectedEOF)
    /\ NewFile 3 truncated_xml = Ok (f, None).
Proof.
  vm_compute. eexists. split; reflexivity.
Qed.

(** The first chunk header of a source of at least 8 bytes. *)
Lemma first_header_read (src : list byte) :
  8 <= len src ->
  binary_Read sizeof_ResChunkHeader decode_ResChunkHeader
    (Seek (NewSectionReader (ReaderAt src) 0 (maxint64 - 0)) 0)
  = (mkSR src 0 8 (Z.min (len src) maxint64),
     inl (decode_ResChunkHeader (firstn 8 src))).
Proof.
  intros Hlen. unfold len in Hlen.
  unfold binary_Read, ReadFull, available, advance, Seek, NewSectionReader,
    ReaderAt, slice, sizeof_ResChunkHeader, maxint64, len; simpl sr_src;
    simpl sr_off; simpl sr_limit; simpl sr_base.
  replace (8 <=? 0) with false by reflexivity.
  match goal with
  | |- context [8 <=? ?a] => replace (8 <=? a) with true by (symmetry; apply Z.leb_le; lia)
  end.
  reflexivity.
Qed.

Lemma not_dispatched (ty : Z) :
  dispatched ty = false ->
  (ty =? RES_TABLE_TYPE) = false /\ (ty =? RES_XML_TYPE) = false
  /\ (ty =? RES_STRING_POOL_TYPE) = false
  /\ (ty =? RES_XML_RESOURCE_MAP_TYPE) = false
  /\ (ty =? RES_XML_START_NAMESPACE_TYPE) = false
  /\ (ty =? RES_XML_END_NAMESPACE_TYPE) = false
  /\ (ty =? RES_XML_START_ELEMENT_TYPE) = false
  /\ (ty =? RES_XML_END_ELEMENT_TYPE) = false
  /\ (ty =? RES_TABLE_PACKAGE_TYPE) = false.
Proof.
  unfold dispatched. simpl. intros H.
  repeat (apply orb_false_iff in H; destruct H as [? H]).
  repeat split; assumption.
Qed.

(** A chunk of a type outside the case list is left alone: [readChunk]
    returns its header and the file as it was. *)
Lemma readChunk_body_not_dispatched
    (rc : File -> SectionReader -> Z -> result (File * (ResChunkHeader + error)))
    (fuel : nat) (f : File) (r : SectionReader) (offset : Z)
    (sr : SectionReader) (hdr : ResChunkHeader) :
  binary_Read sizeof_ResChunkHeader decode_ResChunkHeader
    (Seek (NewSectionReader r offset (maxint64 - offset)) 0) = (sr, inl hdr) ->
  dispatched (ch_Type hdr) = false ->
  readChunk_body rc fuel f r offset = Ok (f, inl hdr).
Proof.
  intros Hread Hty. unfold readChunk_body. rewrite Hread.
  destruct (not_dispatched _ Hty) as (H1 & H2 & H3 & H4 & H5 & H6 & H7 & H8 & H9).
  rewrite H1, H2, H3, H4, H5, H6, H7, H8, H9. reflexivity.
Qed.

(** C5, as the code has it.  [NewFile] hands the first chunk to
    [readChunk] as a loop hands it a sub-chunk, and [readChunk] has no
    check of the type: for a first chunk that is neither a table nor an XML
    tree, what [readChunk] returns is what the case of its type leaves, with
    the chunk header when the case left no error.  A type outside the case
    list is skipped: [readChunk] returns the header, without error, and the
    file as [new(File)] made it, and so does [NewFile]. *)
Theorem no_top_level_type_check (fuel : nat) (src : list byte) :
  let h := decode_ResChunkHeader (firstn 8 src) in
  let sr := Seek (NewSectionReader (ReaderAt src) 0 (maxint64 - 0)) 0 in
  8 <= len src ->
  ch_Type h <> RES_XML_TYPE ->
  ch_Type h <> RES_TABLE_TYPE ->
  readChunk (S fuel) new_File (ReaderAt src) 0
  = ('(f, err) <- dispatch_leaf fuel (ch_Type h) new_File sr ;;
     Ok (f, match err with Some e => inr e | None => inl h end))
  /\ (dispatched (ch_Type h) = false ->
      readChunk (S fuel) new_File (ReaderAt src) 0 = Ok (new_File, inl h)
      /\ NewFile (S fuel) src = Ok (new_File, None)).
Proof.
  intros h sr Hlen Hxml Htable.
  assert (Hbody : readChunk (S fuel) new_File (ReaderAt src) 0
                  = ('(f, err) <- dispatch_leaf fuel (ch_Type h) new_File sr ;;
                     Ok (f, match err with Some e => inr e | None => inl h end))).
  { simpl readChunk. unfold readChunk_body.
    rewrite (first_header_read src Hlen). fold h.
    change (Seek (mkSR src 0 8 (Z.min (len src) maxint64)) 0) with sr.
    apply Z.eqb_neq in Hxml, Htable. rewrite Htable, Hxml.
    unfold dispatch_leaf.
    match goal with
    | |- bind ?m _ = bind ?m _ => destruct m as [[f [e |]] | pn |]; reflexivity
    end. }
  split; [exact Hbody |].
  intros Hty.
  assert (Hskip : readChunk (S fuel) new_File (ReaderAt src) 0
                  = Ok (new_File, inl h)).
  { rewrite Hbody. unfold dispatch_leaf.
    destruct (not_dispatched _ Hty) as (_ & _ & H3 & H4 & H5 & H6 & H7 & H8 & H9).
    rewrite H3, H4, H5, H6, H7, H8, H9. reflexivity. }
  split; [exact Hskip |].
  unfold NewFile. rewrite Hskip. reflexivity.
Qed.

Lemma no_top_level_type_check_witness :
  readChunk 1 new_File (ReaderAt null_chunk) 0
  = Ok (new_File, inl (mkResChunkHeader RES_NULL_TYPE 8 8))
  /\ NewFile 1 null_chunk = Ok (new_File, None).
Proof.
  destruct (no_top_level_type_check 0 null_chunk) as [_ Hskip].
  - vm_compute. discriminate.
  - vm_compute. discriminate.
  - vm_compute. discriminate.
  - apply Hskip. reflexivity.
Defined.

(** C5 as stated fails: the first chunk of [null_chunk] has the type
    [RES_NULL_TYPE], neither XML nor TABLE; [readChunk] returns its header
    without any error and the decode succeeds. *)
Lemma null_chunk_is_accepted :
  ch_Type (decode_ResChunkHeader (firstn 8 null_chunk)) <> RES_XML_TYPE
  /\ ch_Type (decode_ResChunkHeader (firstn 8 null_chunk)) <> RES_TABLE_TYPE
  /\ readChunk 1 new_File (ReaderAt null_chunk) 0
     = Ok (new_File, inl (mkResChunkHeader RES_NULL_TYPE 8 8))
  /\ NewFile 1 null_chunk = Ok (new_File, None).
Proof.
  repeat split; vm_compute; discriminate || reflexivity.
Qed.

(** ** Reading at a known place *)

Lemma len_app (a b : list byte) : len (a ++ b) = len a + len b.
Proof. unfold len. rewrite length_app. lia. Qed.

Lemma len_nonneg (a : list byte) : 0 <= len a.
Proof. unfold len. lia. Qed.

Lemma slice_app (pre mid post : list byte) :
  slice (pre ++ mid ++ post) (len pre) (len mid) = mid.
Proof.
  unfold slice, len. rewrite !Nat2Z.id.
  rewrite skipn_app, skipn_all, Nat.sub_diag. simpl.
  rewrite firstn_app, firstn_all, Nat.sub_diag. simpl.
  apply app_nil_r.
Qed.

(** A read of [n] bytes at a cursor that stands before [mid], [n] being the
    length of [mid] and the window reaching past it, yields [mid] and moves
    the cursor by [n]. *)
Lemma binary_Read_at {A : Type} (decode : list byte -> A)
    (src : list byte) (base off limit n : Z) (pre mid post : list byte) :
  src = pre ++ mid ++ post ->
  off = len pre ->
  n = len mid ->
  len pre + n <= limit ->
  binary_Read n decode (mkSR src base off limit)
  = (mkSR src base (off + n) limit, inl (decode mid)).
Proof.
  intros -> -> -> Hlim. unfold binary_Read, ReadFull.
  destruct (len mid <=? 0) eqn:Hzero.
  - apply Z.leb_le in Hzero. pose proof (len_nonneg mid) as Hnn.
    assert (Hmid : mid = []).
    { destruct mid; [reflexivity |]. unfold len in Hzero. simpl in Hzero. lia. }
    subst mid. simpl. now rewrite Z.add_0_r.
  - apply Z.leb_gt in Hzero. unfold available, advance. simpl.
    assert (Hav : len mid
                  <= Z.max 0 (Z.min limit (Z.of_nat (length (pre ++ mid ++ post)))
                              - len pre)).
    { rewrite !length_app. unfold len in *. lia. }
    apply Z.leb_le in Hav. rewrite Hav.
    now rewrite slice_app.
Qed.

(** ** Bits *)

Lemma land_pow2_testbit (x n : Z) :
  0 <= n -> (Z.land x (2 ^ n) =? 0) = negb (Z.testbit x n).
Proof.
  intros Hn. destruct (Z.testbit x n) eqn:Hbit; simpl.
  - apply Z.eqb_neq. intros Hzero.
    assert (Hb : Z.testbit (Z.land x (2 ^ n)) n = true)
      by (rewrite Z.land_spec, Hbit, Z.pow2_bits_true; auto).
    rewrite Hzero, Z.bits_0 in Hb. discriminate.
  - apply Z.eqb_eq. apply Z.bits_inj'. intros m Hm.
    rewrite Z.land_spec, Z.bits_0, Z.pow2_bits_eqb by assumption.
    destruct (Z.eqb_spec n m) as [-> | Hne].
    + now rewrite Hbit.
    + apply andb_false_r.
Qed.

Lemma lor_shiftl_add (a b n : Z) :
  0 <= n -> 0 <= b < 2 ^ n -> Z.lor (Z.shiftl a n) b = Z.shiftl a n + b.
Proof.
  intros Hn Hb.
  assert (Hland : Z.land (Z.shiftl a n) b = 0).
  { apply Z.bits_inj'. intros m Hm.
    rewrite Z.land_spec, Z.bits_0.
    destruct (Z.ltb_spec m n) as [Hlt | Hge].
    - now rewrite Z.shiftl_spec_low.
    - assert (Hbm : Z.testbit b m = false).
      { destruct (Z.eq_dec b 0) as [-> | Hb0]; [apply Z.bits_0 |].
        apply Z.bits_above_log2; [lia |].
        assert (Z.log2 b < n) by (apply Z.log2_lt_pow2; lia). lia. }
      rewrite Hbm. apply andb_false_r. }
  rewrite (Z.add_nocarry_lxor _ _ Hland). symmetry. now apply Z.lxor_lor.
Qed.

Lemma u8_range (b : byte) : 0 <= u8 b < 256.
Proof. destruct b; vm_compute; split; congruence. Qed.

Lemma byte_at_0 (b : byte) (rest : list byte) : byte_at (b :: rest) 0 = u8 b.
Proof. reflexivity. Qed.

Lemma le16_range (b0 b1 : byte) : 0 <= le16 [b0; b1] 0 < 65536.
Proof.
  unfold le16, byte_at. simpl nth.
  rewrite Z.lor_comm, (lor_shiftl_add (u8 b1) (u8 b0) 8)
    by (pose proof (u8_range b0); change (2 ^ 8) with 256; lia).
  rewrite Z.shiftl_mul_pow2 by lia. change (2 ^ 8) with 256.
  pose proof (u8_range b0). pose proof (u8_range b1). lia.
Qed.

(** ** The length prefixes of pool strings *)

(** C2, as the code has it.  A UTF-8 string starts with a single length of
    one or two bytes, the second byte being there exactly when the high bit
    of the first is set; the bytes that follow it, as many as that length
    says, are the string, byte for byte, and the cursor stops right after
    them.  No second length is read. *)
Theorem ReadUTF8_single_length
    (sr : SectionReader) (offset : Z) (pre payload post : list byte)
    (first second : byte) :
  let long := Z.testbit (u8 first) 7 in
  let prefix := if long then [first; second] else [first] in
  let size :=
    if long then Z.shiftl (Z.land (u8 first) 0x7F) 8 + u8 second
    else u8 first in
  sr_src sr = pre ++ prefix ++ payload ++ post ->
  sr_base sr + offset = len pre ->
  len payload = size ->
  len pre + len prefix + size <= sr_limit sr ->
  ReadUTF8 sr offset
  = (mkSR (sr_src sr) (sr_base sr) (len pre + len prefix + size) (sr_limit sr),
     inl (string_of_bytes payload)).
Proof.
  destruct sr as [src base off limit]. simpl sr_src; simpl sr_base; simpl sr_limit.
  intros long prefix size Hsrc Hpos Hlen Hlim.
  pose proof (len_nonneg payload) as Hpay.
  assert (Hbit : (Z.land (u8 first) 0x80 =? 0) = negb long)
    by (apply (land_pow2_testbit (u8 first) 7); lia).
  unfold ReadUTF8, Seek. simpl sr_src; simpl sr_base; simpl sr_limit.
  subst prefix size. destruct long; simpl in Hbit.
  - (* two bytes of length *)
    rewrite (binary_Read_at decode_u8 src base (base + offset) limit 1
               pre [first] ([second] ++ payload ++ post));
      [| exact Hsrc | exact Hpos | reflexivity
       | change (len [first; second]) with 2 in Hlim; lia].
    change (decode_u8 [first]) with (u8 first). rewrite Hbit. simpl negb. cbv iota.
    rewrite (binary_Read_at decode_u8 src base (base + offset + 1) limit 1
               (pre ++ [first]) [second] (payload ++ post));
      [| rewrite Hsrc, <- app_assoc; reflexivity
       | rewrite len_app; change (len [first]) with 1; lia
       | reflexivity
       | rewrite len_app; change (len [first]) with 1;
         change (len [first; second]) with 2 in Hlim; lia].
    change (decode_u8 [second]) with (u8 second).
    rewrite (binary_Read_at string_of_bytes src base (base + offset + 1 + 1) limit
               _ (pre ++ [first; second]) payload post);
      [| rewrite Hsrc, <- app_assoc; reflexivity
       | rewrite len_app; change (len [first; second]) with 2; lia
       | symmetry; exact Hlen
       | rewrite len_app; lia].
    f_equal. f_equal. change (len [first; second]) with 2. lia.
  - (* one byte of length *)
    rewrite (binary_Read_at decode_u8 src base (base + offset) limit 1
               pre [first] (payload ++ post));
      [| exact Hsrc | exact Hpos | reflexivity
       | change (len [first]) with 1 in Hlim; lia].
    change (decode_u8 [first]) with (u8 first). rewrite Hbit. simpl negb. cbv iota.
    rewrite (binary_Read_at string_of_bytes src base (base + offset + 1) limit
               _ (pre ++ [first]) payload post);
      [| rewrite Hsrc, <- app_assoc; reflexivity
       | rewrite len_app; change (len [first]) with 1; lia
       | symmetry; exact Hlen
       | rewrite len_app; lia].
    f_equal. f_equal. change (len [first]) with 1. lia.
Qed.

Lemma ReadUTF8_single_length_witness :
  ReadUTF8 (ReaderAt hello_utf8) 0
  = (mkSR hello_utf8 0 6 8,
     inl (string_of_bytes [x05; x68; x65; x6c; x6c])).
Proof.
  apply (ReadUTF8_single_length (ReaderAt hello_utf8) 0 []
           [x05; x68; x65; x6c; x6c] [x6f; x00] x05 x00);
    [reflexivity | reflexivity | reflexivity | vm_compute; discriminate].
Defined.

(** C2 as stated fails.  On [hello] stored with its two lengths the code
    takes the character count for the byte length: it returns the five bytes
    that follow the first length, the byte 5 and [hell], where a reader of
    both lengths returns [hello]. *)
Lemma ReadUTF8_skips_no_second_length :
  snd (ReadUTF8 (ReaderAt hello_utf8) 0)
  = inl (String (chr 5) "hell")
  /\ snd (ReadUTF8_spec (ReaderAt hello_utf8) 0) = inl "hello"%string
  /\ snd (ReadUTF8 (ReaderAt hello_utf8) 0)
     <> snd (ReadUTF8_spec (ReaderAt hello_utf8) 0).
Proof.
  repeat split; vm_compute; congruence.
Qed.

Lemma length_le16s (bs : list byte) (n : nat) :
  length bs = (2 * n)%nat -> length (le16s bs) = n.
Proof.
  revert bs. induction n as [| n IH]; intros bs Hlen.
  - destruct bs; [reflexivity | discriminate].
  - destruct bs as [| b0 [| b1 rest]]; simpl in Hlen; try lia.
    simpl. f_equal. apply IH. lia.
Qed.

(** The count that the code adds up is the count that the specification
    combines with [|]. *)
Lemma utf16_count_code_is_spec (L1 L2 : Z) :
  0 <= L2 < 65536 ->
  (if negb (Z.land L1 0x8000 =? 0)
   then Z.shiftl (Z.land L1 0x7FFF) 16 + L2 else L1)
  = utf16_count_spec L1 L2.
Proof.
  intros HL2. unfold utf16_count_spec.
  change 0x8000 with (2 ^ 15). rewrite land_pow2_testbit by lia.
  rewrite negb_involutive. destruct (Z.testbit L1 15); [| reflexivity].
  symmetry. apply lor_shiftl_add; [lia | exact HL2].
Qed.

(** [ReadUTF16] on any payload.  It reads the length [L1]; when its high
    bit is set it reads [L2] and the count is [((L1 & 0x7FFF) << 16) | L2],
    otherwise the count is [L1].  The code units that follow, exactly that
    many, go through [utf16.Decode] and the cursor stops right after
    them. *)
Lemma ReadUTF16_reads
    (sr : SectionReader) (offset : Z) (pre payload post : list byte)
    (l0 l1 l2 l3 : byte) :
  let L1 := le16 [l0; l1] 0 in
  let L2 := le16 [l2; l3] 0 in
  let prefix := if Z.testbit L1 15 then [l0; l1; l2; l3] else [l0; l1] in
  let count := utf16_count_spec L1 L2 in
  sr_src sr = pre ++ prefix ++ payload ++ post ->
  sr_base sr + offset = len pre ->
  len payload = 2 * count ->
  len pre + len prefix + 2 * count <= sr_limit sr ->
  ReadUTF16 sr offset
  = (mkSR (sr_src sr) (sr_base sr) (len pre + len prefix + 2 * count)
       (sr_limit sr),
     inl (string_of_runes (utf16_Decode (le16s payload))))
  /\ Z.of_nat (length (le16s payload)) = count
  /\ (forall hi lo rest,
        0xD800 <= hi < 0xDC00 -> 0xDC00 <= lo < 0xE000 ->
        utf16_Decode (hi :: lo :: rest)
        = (0x10000 + (hi - 0xD800) * 1024 + (lo - 0xDC00)) :: utf16_Decode rest).
Proof.
  destruct sr as [src base off limit]. simpl sr_src; simpl sr_base; simpl sr_limit.
  intros L1 L2 prefix count Hsrc Hpos Hlen Hlim.
  pose proof (le16_range l2 l3) as HL2. fold L2 in HL2.
  pose proof (utf16_count_code_is_spec L1 L2 HL2) as Hcount. fold count in Hcount.
  assert (Hbit : (Z.land L1 0x8000 =? 0) = negb (Z.testbit L1 15))
    by (apply (land_pow2_testbit L1 15); lia).
  split; [| split].
  - unfold ReadUTF16, Seek. simpl sr_src; simpl sr_base; simpl sr_limit.
    rewrite Hbit, negb_involutive in Hcount.
    subst prefix. destruct (Z.testbit L1 15) eqn:Hlong; simpl in Hbit.
    + rewrite (binary_Read_at decode_u16 src base (base + offset) limit 2
                 pre [l0; l1] ([l2; l3] ++ payload ++ post));
        [| exact Hsrc | exact Hpos | reflexivity
         | change (len [l0; l1; l2; l3]) with 4 in Hlim;
           pose proof (len_nonneg payload); lia].
      change (decode_u16 [l0; l1]) with L1. rewrite Hbit. simpl negb. cbv iota.
      rewrite (binary_Read_at decode_u16 src base (base + offset + 2) limit 2
                 (pre ++ [l0; l1]) [l2; l3] (payload ++ post));
        [| rewrite Hsrc, <- app_assoc; reflexivity
         | rewrite len_app; change (len [l0; l1]) with 2; lia
         | reflexivity
         | rewrite len_app; change (len [l0; l1]) with 2;
           change (len [l0; l1; l2; l3]) with 4 in Hlim;
           pose proof (len_nonneg payload); lia].
      change (decode_u16 [l2; l3]) with L2. rewrite Hcount.
      rewrite (binary_Read_at le16s src base (base + offset + 2 + 2) limit
                 _ (pre ++ [l0; l1; l2; l3]) payload post);
        [| rewrite Hsrc, <- app_assoc; reflexivity
         | rewrite len_app; change (len [l0; l1; l2; l3]) with 4; lia
         | symmetry; exact Hlen
         | rewrite len_app; lia].
      f_equal. f_equal. change (len [l0; l1; l2; l3]) with 4. lia.
    + rewrite (binary_Read_at decode_u16 src base (base + offset) limit 2
                 pre [l0; l1] (payload ++ post));
        [| exact Hsrc | exact Hpos | reflexivity
         | change (len [l0; l1]) with 2 in Hlim;
           pose proof (len_nonneg payload); lia].
      change (decode_u16 [l0; l1]) with L1. rewrite Hbit. simpl negb. cbv iota.
      rewrite Hcount.
      rewrite (binary_Read_at le16s src base (base + offset + 2) limit
                 _ (pre ++ [l0; l1]) payload post);
        [| rewrite Hsrc, <- app_assoc; reflexivity
         | rewrite len_app; change (len [l0; l1]) with 2; lia
         | symmetry; exact Hlen
         | rewrite len_app; lia].
      f_equal. f_equal. change (len [l0; l1]) with 2. lia.
  - pose proof (len_nonneg payload) as Hpay.
    rewrite (length_le16s payload (Z.to_nat count)); [lia |].
    unfold len in Hlen. lia.
  - intros hi lo rest Hhi Hlo. unfold utf16_Decode at 1. fold utf16_Decode.
    unfold surr1, surr2, surr3.
    replace (hi <? 55296) with false by (symmetry; apply Z.ltb_ge; lia).
    replace (57344 <=? hi) with false by (symmetry; apply Z.leb_gt; lia).
    replace (hi <? 56320) with true by (symmetry; apply Z.ltb_lt; lia).
    replace (56320 <=? lo) with true by (symmetry; apply Z.leb_le; lia).
    replace (lo <? 57344) with true by (symmetry; apply Z.ltb_lt; lia).
    cbn [orb andb]. f_equal. unfold utf16_DecodeRune, surr1, surr2.
    rewrite lor_shiftl_add by (change (2 ^ 10) with 1024; lia).
    rewrite Z.shiftl_mul_pow2 by lia. change (2 ^ 10) with 1024. lia.
Qed.

(** ** Attribute values *)

Lemma append_assoc (a b c : string) :
  ((a ++ b) ++ c = a ++ (b ++ c))%string.
Proof. induction a as [| x a IH]; simpl; [reflexivity | now rewrite IH]. Qed.

Lemma Fprint_Fprint (f : File) (a b : string) :
  Fprint (Fprint f a) b = Fprint f (a ++ b).
Proof. unfold Fprint. cbn [stringPool resourceMap notPrecessedNS namespaces XMLBuffer tablePackages]. now rewrite append_assoc. Qed.

Lemma length_list_ascii (s : string) :
  length (list_ascii_of_string s) = String.length s.
Proof. induction s as [| c s IH]; simpl; [reflexivity | now rewrite IH]. Qed.

Lemma ord_chr (z : Z) : 0 <= z < 256 -> ord (chr z) = z.
Proof.
  intros Hz. unfold ord, chr. rewrite N_ascii_embedding; [lia |].
  apply N2Z.inj_lt. rewrite Z2N.id; lia.
Qed.

(** A plain character is a rune of width 1 that needs no escape. *)
Lemma plain_char_copied (c : ascii) (rest : list ascii) :
  plain_char c = true ->
  utf8_DecodeRune (map ord (c :: rest)) = (ord c, 1%nat)
  /\ escape_of (ord c) 1 = None.
Proof.
  unfold plain_char. intros H.
  apply andb_true_iff in H. destruct H as [H Hspecial].
  apply andb_true_iff in H. destruct H as [Hlo Hhi].
  apply negb_true_iff in Hspecial.
  repeat (apply orb_false_iff in Hspecial; destruct Hspecial as [Hspecial ?]).
  apply Z.leb_le in Hlo. apply Z.ltb_lt in Hhi.
  split.
  - simpl. apply Z.ltb_lt in Hhi. now rewrite Hhi.
  - unfold escape_of, isInCharacterRange.
    repeat match goal with
           | H : (ord c =? _) = false |- _ => rewrite H; clear H
           end.
    replace (ord c =? 9) with false by (symmetry; apply Z.eqb_neq; lia).
    replace (ord c =? 10) with false by (symmetry; apply Z.eqb_neq; lia).
    replace (ord c =? 13) with false by (symmetry; apply Z.eqb_neq; lia).
    replace (ord c =? 0xFFFD) with false by (symmetry; apply Z.eqb_neq; lia).
    replace (0x20 <=? ord c) with true by (symmetry; apply Z.leb_le; lia).
    replace (ord c <=? 0xD7FF) with true by (symmetry; apply Z.leb_le; lia).
    reflexivity.
Qed.

Lemma escape_loop_plain (s : list ascii) (fuel : nat) :
  (length s <= fuel)%nat -> forallb plain_char s = true ->
  escape_loop fuel s = string_of_list_ascii s.
Proof.
  revert fuel. induction s as [| c rest IH]; intros fuel Hfuel Hplain.
  - destruct fuel; reflexivity.
  - destruct fuel as [| fuel]; [simpl in Hfuel; lia |].
    simpl in Hplain. apply andb_true_iff in Hplain. destruct Hplain as [Hc Hrest].
    destruct (plain_char_copied c rest Hc) as [Hdec Hesc].
    unfold escape_loop; fold escape_loop. rewrite Hdec, Hesc.
    simpl firstn. simpl skipn. simpl string_of_list_ascii.
    rewrite IH; [reflexivity | simpl in Hfuel; lia | exact Hrest].
Qed.

Lemma xml_Escape_plain (s : string) :
  forallb plain_char (list_ascii_of_string s) = true -> xml_Escape s = s.
Proof.
  intros H. unfold xml_Escape.
  rewrite escape_loop_plain;
    [apply string_of_list_ascii_of_string | rewrite length_list_ascii; lia | exact H].
Qed.

Lemma hex_digit_plain (d : Z) : 0 <= d < 16 -> plain_char (hex_digit d) = true.
Proof.
  intros Hd.
  assert (Hcases : d = 0 \/ d = 1 \/ d = 2 \/ d = 3 \/ d = 4 \/ d = 5 \/ d = 6
                   \/ d = 7 \/ d = 8 \/ d = 9 \/ d = 10 \/ d = 11 \/ d = 12
                   \/ d = 13 \/ d = 14 \/ d = 15) by lia.
  repeat (destruct Hcases as [-> | Hcases]; [reflexivity |]).
  subst d. reflexivity.
Qed.

Lemma nibble_range (x : Z) : 0 <= Z.land x 15 < 16.
Proof.
  change 15 with (Z.ones 4). rewrite Z.land_ones by lia.
  apply Z.mod_pos_bound. reflexivity.
Qed.

Lemma fallback_text_plain (data : Z) :
  forallb plain_char (list_ascii_of_string ("@0x" ++ Sprintf_08X data)) = true.
Proof.
  unfold Sprintf_08X. cbn [map string_of_list_ascii append list_ascii_of_string forallb].
  rewrite !hex_digit_plain by apply nibble_range. reflexivity.
Qed.

(** C3, as the code has it.  An attribute whose raw value is nil and whose
    typed value has the type STRING takes the default branch: its value is
    [@0x] followed by the eight upper-case hexadecimal digits of the data,
    whatever the string pool holds, and that text is what is written between
    the quotes after the attribute name. *)
Theorem string_typed_attribute_falls_back (f : File) (attr : ResXMLTreeAttribute) :
  attr_RawValue attr = NilResStringPoolRef ->
  val_DataType (attr_TypedValue attr) = TYPE_STRING ->
  attribute_value f attr
  = Ok ("@0x" ++ Sprintf_08X (val_Data (attr_TypedValue attr)))%string
  /\ (forall name,
        AddNamespace f (attr_NS attr) (attr_Name attr) = Ok name ->
        write_attribute f attr
        = Ok (Fprint f (" " ++ name ++ "=" ++ quote ++ "@0x"
                        ++ Sprintf_08X (val_Data (attr_TypedValue attr))
                        ++ quote))).
Proof.
  intros Hraw Hty.
  assert (Hvalue : attribute_value f attr
                   = Ok ("@0x" ++ Sprintf_08X (val_Data (attr_TypedValue attr)))%string).
  { unfold attribute_value. rewrite Hraw, Hty. reflexivity. }
  split; [exact Hvalue |].
  intros name Hname. unfold write_attribute. rewrite Hvalue. simpl bind.
  rewrite Hname. simpl bind.
  rewrite xml_Escape_plain by apply fallback_text_plain.
  rewrite !Fprint_Fprint. f_equal. f_equal.
  generalize (Sprintf_08X (val_Data (attr_TypedValue attr))) as digits.
  generalize quote as q. intros q digits.
  cbn [append]. rewrite !append_assoc. reflexivity.
Qed.

Lemma string_typed_attribute_falls_back_witness :
  GetString label_pool_file 1 = Ok "hello"%string
  /\ attribute_value label_pool_file string_attribute = Ok "@0x00000001"%string
  /\ write_attribute label_pool_file string_attribute
     = Ok (Fprint label_pool_file (" label=" ++ quote ++ "@0x00000001" ++ quote)).
Proof.
  destruct (string_typed_attribute_falls_back label_pool_file string_attribute)
    as [Hvalue Hwrite]; [reflexivity | reflexivity |].
  split; [reflexivity | split].
  - exact Hvalue.
  - apply (Hwrite "label"%string). reflexivity.
Defined.

(** C3 as stated fails.  The attribute of [string_attribute_xml] has a nil
    raw value and the typed value [STRING 1]; the pool resolves index 1 to
    [hello]; the document holds [@0x00000001] and not [hello]. *)
Lemma string_attribute_not_resolved :
  exists f,
    NewFile 5 string_attribute_xml = Ok (f, None)
    /\ GetString f 1 = Ok "hello"%string
    /\ XMLBuffer f = string_attribute_output
    /\ XMLBuffer f <> string_attribute_resolved.
Proof.
  assert (H : exists f,
             NewFile 5 string_attribute_xml = Ok (f, None)
             /\ match GetString f 1 with
                | Ok s => String.eqb s "hello"
                | _ => false
                end
                && String.eqb (XMLBuffer f) string_attribute_output
                && negb (String.eqb (XMLBuffer f) string_attribute_resolved)
                = true).
  { vm_compute. eexists. split; reflexivity. }
  destruct H as [f [Hf Hb]]. exists f.
  apply andb_true_iff in Hb. destruct Hb as [Hb Hne].
  apply andb_true_iff in Hb. destruct Hb as [Hget Hout].
  repeat split.
  - exact Hf.
  - clear Hf. destruct (GetString f 1) as [s | p |];
      [| discriminate Hget | discriminate Hget].
    apply String.eqb_eq in Hget. now subst s.
  - now apply String.eqb_eq.
  - apply negb_true_iff in Hne. now apply String.eqb_neq.
Qed.

(** ** Termination *)

(** *** A sub-chunk of size 0 *)

(** The sub-chunk of [zero_size_xml], read from the XML tree's reader. *)
Lemma zero_size_subchunk (n : nat) (f : File) :
  readChunk (S n) f (mkSR zero_size_xml 0 0 16) 8
  = Ok (f, inl (mkResChunkHeader RES_NULL_TYPE 8 0)).
Proof.
  simpl readChunk.
  apply (readChunk_body_not_dispatched _ _ _ _ _ (mkSR zero_size_xml 8 16 16));
    reflexivity.
Qed.

(** The loop of the XML tree stands at offset 8 for ever. *)
Lemma zero_size_loop (n k : nat) (f : File) :
  chunk_loop (fun f o => readChunk n f (mkSR zero_size_xml 0 0 16) o) k 16 f 8
  = OutOfFuel.
Proof.
  revert f. induction k as [| k IH]; intros f; [reflexivity |].
  unfold chunk_loop; fold chunk_loop.
  change (8 <? 16) with true. cbv iota.
  destruct n as [| n]; [reflexivity |].
  rewrite zero_size_subchunk. simpl bind.
  change (8 + ch_Size (mkResChunkHeader RES_NULL_TYPE 8 0)) with 8.
  apply IH.
Qed.

Lemma zero_size_xml_out_of_fuel (fuel : nat) :
  NewFile fuel zero_size_xml = OutOfFuel.
Proof.
  destruct fuel as [| n]; [reflexivity |].
  unfold NewFile. simpl readChunk. unfold readChunk_body.
  rewrite first_header_read by (vm_compute; discriminate).
  change (ch_Type (decode_ResChunkHeader (firstn 8 zero_size_xml)))
    with RES_XML_TYPE.
  change (RES_XML_TYPE =? RES_TABLE_TYPE) with false.
  change (RES_XML_TYPE =? RES_XML_TYPE) with true. cbv iota.
  unfold readXML.
  change (Seek (mkSR zero_size_xml 0 8 (Z.min (len zero_size_xml) maxint64)) 0)
    with (mkSR zero_size_xml 0 0 16).
  change (binary_Read_ignore sizeof_ResChunkHeader decode_ResChunkHeader
            zero_ResChunkHeader (mkSR zero_size_xml 0 0 16))
    with (mkSR zero_size_xml 0 8 16, mkResChunkHeader RES_XML_TYPE 8 16).
  cbv iota beta.
  change (ch_Size (mkResChunkHeader RES_XML_TYPE 8 16)) with 16.
  change (ch_HeaderSize (mkResChunkHeader RES_XML_TYPE 8 16)) with 8.
  rewrite zero_size_loop. reflexivity.
Qed.


(** *** The decoders without recursion always finish *)

Lemma finished_Ok {A : Type} (a : A) : finished (Ok a).
Proof. discriminate. Qed.

Lemma finished_Panic {A : Type} (p : panic) : finished (@Panic A p).
Proof. discriminate. Qed.

Lemma finished_bind {A B : Type} (m : result A) (k : A -> result B) :
  finished m -> (forall a, m = Ok a -> finished (k a)) -> finished (bind m k).
Proof.
  intros Hm Hk. destruct m as [a | p |]; simpl.
  - now apply Hk.
  - apply finished_Panic.
  - now elim Hm.
Qed.

#[local] Hint Resolve finished_Ok finished_Panic : fuel.

Lemma GetString_finished (f : File) (ref : ResStringPoolRef) :
  finished (GetString f ref).
Proof.
  unfold GetString. destruct (ref =? NilResStringPoolRef); auto with fuel.
  destruct (stringPool f) as [sp |]; auto with fuel.
  destruct (nth_error _ _); auto with fuel.
Qed.

Lemma AddNamespace_finished (f : File) (ns name : ResStringPoolRef) :
  finished (AddNamespace f ns name).
Proof.
  unfold AddNamespace. destruct (negb _).
  - apply finished_bind; [apply GetString_finished |]. intros prefix _.
    apply finished_bind; [apply GetString_finished |]. auto with fuel.
  - apply GetString_finished.
Qed.

Lemma write_namespaces_finished (m : refmap) (f : File) :
  finished (write_namespaces f m).
Proof.
  revert f. induction m as [| [uri prefix] rest IH]; intros f; simpl.
  - auto with fuel.
  - apply finished_bind; [apply GetString_finished |]. intros p _.
    apply finished_bind; [apply GetString_finished |]. intros u _. apply IH.
Qed.

Lemma attribute_value_finished (f : File) (attr : ResXMLTreeAttribute) :
  finished (attribute_value f attr).
Proof.
  unfold attribute_value.
  repeat match goal with
         | |- finished (if ?c then _ else _) => destruct c
         end; auto using GetString_finished with fuel.
Qed.

Lemma write_attribute_finished (f : File) (attr : ResXMLTreeAttribute) :
  finished (write_attribute f attr).
Proof.
  unfold write_attribute.
  apply finished_bind; [apply attribute_value_finished |]. intros value _.
  apply finished_bind; [apply AddNamespace_finished |]. auto with fuel.
Qed.

Lemma read_attributes_finished (n : nat) (attributeSize : Z) (f : File)
    (sr : SectionReader) (offset : Z) :
  finished (read_attributes n attributeSize f sr offset).
Proof.
  revert f sr offset. induction n as [| n IH]; intros f sr offset; simpl.
  - auto with fuel.
  - destruct (binary_Read_ignore _ _ _ _) as [sr' attr].
    apply finished_bind; [apply write_attribute_finished |]. intros f' _. apply IH.
Qed.

Lemma ReadStartElement_finished (f : File) (sr : SectionReader) :
  finished (ReadStartElement f sr).
Proof.
  unfold ReadStartElement.
  destruct (read_node_ignore _ _ _ _) as [[sr' header] ext].
  apply finished_bind; [apply AddNamespace_finished |]. intros name _.
  apply finished_bind.
  - destruct (notPrecessedNS _) as [m |]; auto with fuel.
    apply finished_bind; [apply write_namespaces_finished |]. auto with fuel.
  - intros f' _.
    apply finished_bind; [apply read_attributes_finished |]. auto with fuel.
Qed.

Lemma ReadEndElement_finished (f : File) (sr : SectionReader) :
  finished (ReadEndElement f sr).
Proof.
  unfold ReadEndElement.
  destruct (binary_Read _ _ _) as [sr' [header | e]]; auto with fuel.
  destruct (binary_Read _ _ _) as [sr'' [ext | e]]; auto with fuel.
  apply finished_bind; [apply AddNamespace_finished |]. auto with fuel.
Qed.

Lemma ReadStartNamespace_finished (f : File) (sr : SectionReader) :
  finished (ReadStartNamespace f sr).
Proof.
  unfold ReadStartNamespace.
  destruct (read_node_ignore _ _ _ _) as [[sr' header] ext]. auto with fuel.
Qed.

Lemma ReadEndNamespace_finished (f : File) (sr : SectionReader) :
  finished (ReadEndNamespace f sr).
Proof.
  unfold ReadEndNamespace.
  destruct (read_node_ignore _ _ _ _) as [[sr' header] ext]. auto with fuel.
Qed.

(** *** Headers read by the decoder are headers of the source *)

Lemma byte_at_range (bs : list byte) (i : nat) : 0 <= byte_at bs i < 256.
Proof. apply u8_range. Qed.

Lemma lor4_sum (b0 b1 b2 b3 : Z) :
  0 <= b0 < 256 -> 0 <= b1 < 256 -> 0 <= b2 < 256 -> 0 <= b3 < 256 ->
  Z.lor (Z.lor b0 (Z.shiftl b1 8)) (Z.lor (Z.shiftl b2 16) (Z.shiftl b3 24))
  = b0 + 256 * b1 + 65536 * b2 + 16777216 * b3.
Proof.
  intros H0 H1 H2 H3.
  rewrite (Z.lor_comm b0), (lor_shiftl_add b1 b0 8)
    by (change (2 ^ 8) with 256; lia).
  rewrite (Z.lor_comm (Z.shiftl b2 16)), (lor_shiftl_add b3 (Z.shiftl b2 16) 24)
    by (rewrite ?Z.shiftl_mul_pow2 by lia;
        change (2 ^ 16) with 65536; change (2 ^ 24) with 16777216; lia).
  replace (Z.shiftl b3 24 + Z.shiftl b2 16) with (Z.shiftl (b3 * 256 + b2) 16)
    by (rewrite !Z.shiftl_mul_pow2 by lia;
        change (2 ^ 16) with 65536; change (2 ^ 24) with 16777216; lia).
  rewrite Z.lor_comm, lor_shiftl_add
    by (rewrite ?Z.shiftl_mul_pow2 by lia;
        change (2 ^ 8) with 256; change (2 ^ 16) with 65536; lia).
  rewrite !Z.shiftl_mul_pow2 by lia.
  change (2 ^ 8) with 256; change (2 ^ 16) with 65536. lia.
Qed.

Lemma le32_range (bs : list byte) (i : nat) : 0 <= le32 bs i < 4294967296.
Proof.
  unfold le32.
  pose proof (byte_at_range bs i). pose proof (byte_at_range bs (i + 1)).
  pose proof (byte_at_range bs (i + 2)). pose proof (byte_at_range bs (i + 3)).
  rewrite lor4_sum by assumption. lia.
Qed.

Lemma le16_nonneg (bs : list byte) (i : nat) : 0 <= le16 bs i.
Proof.
  unfold le16. apply Z.lor_nonneg. split.
  - apply byte_at_range.
  - apply Z.shiftl_nonneg. apply byte_at_range.
Qed.

Lemma header_fields_range (bs : list byte) (p : nat) :
  0 <= ch_HeaderSize (decode_ResChunkHeader_at bs p)
  /\ 0 <= ch_Size (decode_ResChunkHeader_at bs p) < 4294967296.
Proof. split; [apply le16_nonneg | apply le32_range]. Qed.

(** The header fields of a struct depend on its first eight bytes only. *)
Lemma header_of_prefix (bs1 bs2 : list byte) :
  (forall i, (i < 8)%nat -> nth i bs1 x00 = nth i bs2 x00) ->
  decode_ResChunkHeader_at bs1 0 = decode_ResChunkHeader_at bs2 0.
Proof.
  intros H. unfold decode_ResChunkHeader_at, le16, le32, byte_at. simpl Nat.add.
  rewrite !H by lia. reflexivity.
Qed.

Lemma header_of_slice (src : list byte) (c n : Z) :
  8 <= n ->
  decode_ResChunkHeader_at (slice src c n) 0 = decode_ResChunkHeader (slice src c 8).
Proof.
  intros Hn. apply header_of_prefix. intros i Hi. unfold slice.
  rewrite !nth_firstn.
  replace (i <? Z.to_nat n)%nat with true by (symmetry; apply Nat.ltb_lt; lia).
  replace (i <? Z.to_nat 8)%nat with true by (symmetry; apply Nat.ltb_lt; lia).
  reflexivity.
Qed.

(** What a successful read tells. *)
Lemma binary_Read_inl {A : Type} (decode : list byte -> A) (n : Z)
    (src : list byte) (base off limit : Z) (sr' : SectionReader) (a : A) :
  0 < n ->
  binary_Read n decode (mkSR src base off limit) = (sr', inl a) ->
  off + n <= len src /\ off + n <= limit
  /\ a = decode (slice src off n) /\ sr' = mkSR src base (off + n) limit.
Proof.
  intros Hn. unfold binary_Read, ReadFull, available, advance, len. simpl.
  replace (n <=? 0) with false by (symmetry; apply Z.leb_gt; lia).
  destruct (Z.leb_spec n (Z.max 0 (Z.min limit (Z.of_nat (length src)) - off)))
    as [Hle | Hgt].
  - intros H. inversion H. repeat split; lia.
  - destruct (_ =? 0); discriminate.
Qed.

(** The header that [readChunk] reads at [offset] of a reader over [src] is
    the header of [src] at that place. *)
Lemma chunk_header_read (r : SectionReader) (offset : Z)
    (sr' : SectionReader) (h : ResChunkHeader) :
  0 <= sr_base r + offset ->
  binary_Read sizeof_ResChunkHeader decode_ResChunkHeader
    (Seek (NewSectionReader r offset (maxint64 - offset)) 0) = (sr', inl h) ->
  header_at (sr_src r) (sr_base r + offset) = Some h
  /\ Seek sr' 0
     = mkSR (sr_src r) (sr_base r + offset) (sr_base r + offset)
         (sr_limit sr').
Proof.
  intros Hpos. unfold Seek, NewSectionReader.
  cbn [sr_src sr_base sr_off sr_limit].
  rewrite Z.add_0_r. intros Hread.
  apply binary_Read_inl in Hread; [| reflexivity].
  destruct Hread as (Hlen & _ & Hh & Hsr). subst sr'.
  cbn [sr_src sr_base sr_off sr_limit]. split.
  - unfold header_at, sizeof_ResChunkHeader in *.
    replace (0 <=? sr_base r + offset) with true by (symmetry; apply Z.leb_le; lia).
    replace (sr_base r + offset + 8 <=? len (sr_src r)) with true
      by (symmetry; apply Z.leb_le; lia).
    cbn [andb]. now rewrite Hh.
  - now rewrite Z.add_0_r.
Qed.

Lemma header_at_range (src : list byte) (p : Z) (h : ResChunkHeader) :
  header_at src p = Some h ->
  0 <= p /\ 0 <= ch_HeaderSize h /\ 0 <= ch_Size h < 4294967296
  /\ h = decode_ResChunkHeader (slice src p 8).
Proof.
  unfold header_at.
  destruct (Z.leb_spec 0 p) as [Hp | Hp]; [| discriminate].
  destruct (p + 8 <=? len src); [| discriminate].
  intros H. inversion H. repeat split; try assumption.
  - apply le16_nonneg.
  - apply le32_range.
  - apply le32_range.
Qed.

(** A header read at [offset] after a [Seek]. *)
Lemma header_read_at (sr : SectionReader) (offset : Z)
    (sr' : SectionReader) (h : ResChunkHeader) :
  0 <= sr_base sr + offset ->
  binary_Read sizeof_ResChunkHeader decode_ResChunkHeader (Seek sr offset)
  = (sr', inl h) ->
  header_at (sr_src sr) (sr_base sr + offset) = Some h
  /\ sr_src sr' = sr_src sr /\ sr_base sr' = sr_base sr.
Proof.
  intros Hpos. unfold Seek. intros Hread.
  apply binary_Read_inl in Hread; [| reflexivity].
  destruct Hread as (Hlen & _ & Hh & Hsr). subst sr'.
  cbn [sr_src sr_base]. repeat split.
  unfold header_at, sizeof_ResChunkHeader in *.
  replace (0 <=? sr_base sr + offset) with true by (symmetry; apply Z.leb_le; lia).
  replace (sr_base sr + offset + 8 <=? len (sr_src sr)) with true
    by (symmetry; apply Z.leb_le; lia).
  cbn [andb]. now rewrite Hh.
Qed.

(** *** Where the loops stand *)

Lemma loop_fuel_spec : Z.of_nat loop_fuel = 4294967296.
Proof. unfold loop_fuel. apply Z2Nat.id. discriminate. Qed.

Lemma ReadFull_frame (sr : SectionReader) (n : Z) :
  sr_src (fst (ReadFull sr n)) = sr_src sr
  /\ sr_base (fst (ReadFull sr n)) = sr_base sr
  /\ sr_limit (fst (ReadFull sr n)) = sr_limit sr.
Proof.
  unfold ReadFull, advance.
  destruct (n <=? 0); [auto |].
  destruct (n <=? available sr); [auto |].
  destruct (available sr =? 0); auto.
Qed.

(** A read moves the cursor only. *)
Lemma binary_Read_frame {A : Type} (decode : list byte -> A) (n : Z)
    (sr sr' : SectionReader) (x : A + error) :
  binary_Read n decode sr = (sr', x) ->
  sr_src sr' = sr_src sr /\ sr_base sr' = sr_base sr
  /\ sr_limit sr' = sr_limit sr.
Proof.
  unfold binary_Read. pose proof (ReadFull_frame sr n) as H.
  destruct (ReadFull sr n) as [sr1 [bs | e]]; intros Heq; inversion Heq;
    subst; exact H.
Qed.

Lemma binary_Read_decoded {A : Type} (decode : list byte -> A) (n : Z)
    (sr sr' : SectionReader) (a : A) :
  binary_Read n decode sr = (sr', inl a) -> exists bs, a = decode bs.
Proof.
  unfold binary_Read.
  destruct (ReadFull sr n) as [sr1 [bs | e]]; intros Heq; inversion Heq.
  now exists bs.
Qed.

Lemma binary_Read_ignore_value {A : Type} (decode : list byte -> A) (old : A)
    (n : Z) (sr sr' : SectionReader) (a : A) :
  binary_Read_ignore n decode old sr = (sr', a) ->
  a = old \/ exists bs, a = decode bs.
Proof.
  unfold binary_Read_ignore.
  destruct (binary_Read n decode sr) as [sr1 [x | e]] eqn:Hread;
    intros Heq; inversion Heq; subst.
  - right. now apply (binary_Read_decoded decode n sr sr').
  - now left.
Qed.

Lemma header_at_len (src : list byte) (q : Z) (h : ResChunkHeader) :
  header_at src q = Some h -> q + 8 <= len src.
Proof.
  unfold header_at. destruct (0 <=? q); [| discriminate].
  destruct (Z.leb_spec (q + 8) (len src)); [easy | discriminate].
Qed.

(** The chunk that [readChunk] finds is the chunk of the source at that
    place, and its reader starts there. *)
Lemma chunk_at_inv (r : SectionReader) (o : Z) (sr : SectionReader)
    (h : ResChunkHeader) :
  0 <= sr_base r + o ->
  chunk_at r o = Some (sr, h) ->
  header_at (sr_src r) (sr_base r + o) = Some h
  /\ sr_src sr = sr_src r /\ sr_base sr = sr_base r + o.
Proof.
  intros Hpos. unfold chunk_at.
  destruct (binary_Read sizeof_ResChunkHeader decode_ResChunkHeader _)
    as [sr' [hdr | e]] eqn:Hread; [| discriminate].
  intros H. inversion H. subst hdr.
  apply chunk_header_read in Hread; [| exact Hpos].
  destruct Hread as [Hh Hsr]. rewrite Hsr. cbn [sr_src sr_base]. auto.
Qed.

(** The header that [readChunk] returns is the header of the source at the
    place of the chunk. *)
Lemma readChunk_header (n : nat) (f : File) (r : SectionReader) (o : Z)
    (f' : File) (h : ResChunkHeader) :
  0 <= sr_base r + o ->
  readChunk n f r o = Ok (f', inl h) ->
  header_at (sr_src r) (sr_base r + o) = Some h.
Proof.
  intros Hpos. destruct n as [| n]; [discriminate |].
  simpl readChunk. unfold readChunk_body.
  destruct (binary_Read sizeof_ResChunkHeader decode_ResChunkHeader _)
    as [sr' [hdr | e]] eqn:Hread.
  - apply chunk_header_read in Hread; [| exact Hpos].
    destruct Hread as [Hh _].
    match goal with
    | |- bind ?m _ = _ -> _ => destruct m as [[f1 [e |]] | pn |]
    end; simpl; intros H; inversion H. now subst.
  - intros H. inversion H.
Qed.

(** The window of a loop: its size is a [uint32], its start a [uint16]. *)
Lemma loop_start_inv (f : File) (r : SectionReader) (o : Z)
    (f1 : File) (sr1 : SectionReader) (size1 o1 : Z) :
  0 <= sr_base r + o ->
  loop_start f r o = Some (f1, sr1, size1, o1) ->
  sr_src sr1 = sr_src r /\ sr_base sr1 = sr_base r + o
  /\ sr_base sr1 + 8 <= len (sr_src r)
  /\ 0 <= o1 /\ 0 <= size1 < 4294967296.
Proof.
  intros Hpos. unfold loop_start.
  destruct (chunk_at r o) as [[sr h] |] eqn:Hchunk; [| discriminate].
  apply chunk_at_inv in Hchunk; [| exact Hpos].
  destruct Hchunk as (Hh & Hsrc & Hbase). apply header_at_len in Hh.
  destruct (ch_Type h =? RES_TABLE_TYPE).
  - destruct (binary_Read_ignore sizeof_ResTableHeader _ _ sr)
      as [sr' header] eqn:Hread.
    intros H. inversion H. subst.
    apply binary_Read_ignore_value in Hread.
    assert (Hrange : 0 <= ch_HeaderSize (th_Header header)
                     /\ 0 <= ch_Size (th_Header header) < 4294967296).
    { destruct Hread as [-> | [bs ->]].
      - cbn. lia.
      - unfold decode_ResTableHeader. cbn [th_Header].
        apply header_fields_range. }
    repeat split; try assumption; lia.
  - destruct (ch_Type h =? RES_XML_TYPE); [| discriminate].
    destruct (binary_Read_ignore sizeof_ResChunkHeader _ _ sr)
      as [sr' header] eqn:Hread.
    intros H. inversion H. subst.
    apply binary_Read_ignore_value in Hread.
    assert (Hrange : 0 <= ch_HeaderSize header
                     /\ 0 <= ch_Size header < 4294967296).
    { destruct Hread as [-> | [bs ->]].
      - cbn. lia.
      - apply header_fields_range. }
    repeat split; try assumption; lia.
Qed.

Lemma stands_inv (src : list byte) (f : File) (sr : SectionReader)
    (size o : Z) :
  stands src f sr size o ->
  sr_src sr = src /\ 0 <= sr_base sr /\ sr_base sr + 8 <= len src
  /\ 0 <= o /\ 0 <= size < 4294967296.
Proof.
  induction 1 as [f sr size o Hstart
                 | f r size o f1 sr1 size1 o1 Hst IH Ho Hstart
                 | f sr size o n f' hc Hst IH Ho Hrc].
  - apply loop_start_inv in Hstart; [| cbn; lia].
    cbn [ReaderAt sr_src sr_base] in Hstart.
    destruct Hstart as (H1 & H2 & H3 & H4 & H5). repeat split; try lia; assumption.
  - destruct IH as (Hsrc & Hbase & _ & Ho0 & _).
    apply loop_start_inv in Hstart; [| lia].
    rewrite Hsrc in Hstart.
    destruct Hstart as (H1 & H2 & H3 & H4 & H5). repeat split; try lia; assumption.
  - destruct IH as (Hsrc & Hbase & Hlen & Ho0 & Hsize).
    apply readChunk_header in Hrc; [| lia].
    apply header_at_range in Hrc. repeat split; try lia; assumption.
Qed.

Lemma called_inv (src : list byte) (f : File) (r : SectionReader) (o : Z) :
  called src f r o -> sr_src r = src /\ 0 <= sr_base r /\ 0 <= o.
Proof.
  intros [(-> & -> & ->) | (size & Hst & _)].
  - cbn. repeat split; lia.
  - apply stands_inv in Hst. tauto.
Qed.

(** A call of [readChunk] on a table or an XML tree makes its loop start. *)
Lemma called_enters (src : list byte) (f : File) (r : SectionReader) (o : Z)
    (f1 : File) (sr1 : SectionReader) (size1 o1 : Z) :
  called src f r o ->
  loop_start f r o = Some (f1, sr1, size1, o1) ->
  stands src f1 sr1 size1 o1.
Proof.
  intros [(-> & -> & ->) | (size & Hst & Ho)] Hstart.
  - now apply stands_top.
  - now apply (stands_down src f r size o).
Qed.

Lemma package_round_header (sr : SectionReader) (o : Z) (hc : ResChunkHeader) :
  package_round sr o = Some hc -> 0 <= ch_Size hc.
Proof.
  unfold package_round.
  destruct (binary_Read sizeof_ResChunkHeader decode_ResChunkHeader _)
    as [sr' [h | e]] eqn:Hread; [| discriminate].
  apply binary_Read_decoded in Hread. destruct Hread as [bs ->].
  pose proof (header_fields_range bs 0) as Hrange.
  fold (decode_ResChunkHeader bs) in Hrange.
  intros H.
  assert (Hhc : hc = decode_ResChunkHeader bs).
  { destruct (_ =? RES_TABLE_TYPE_TYPE).
    - destruct (ReadTableType _); now inversion H.
    - destruct (_ =? RES_TABLE_TYPE_SPEC_TYPE).
      + destruct (ReadTableTypeSpec _); now inversion H.
      + now inversion H. }
  subst hc. lia.
Qed.

Lemma package_stands_inv (src : list byte) (sr : SectionReader) (size o : Z) :
  package_stands src sr size o -> 0 <= o /\ 0 <= size < 4294967296.
Proof.
  induction 1 as [f r o sr size start Hcall Hstart | sr size o hc Hst IH Ho Hround].
  - unfold package_start in Hstart.
    destruct (chunk_at r o) as [[sr0 h] |]; [| discriminate].
    destruct (ch_Type h =? RES_TABLE_PACKAGE_TYPE); [| discriminate].
    destruct (binary_Read sizeof_ResTablePackage decode_ResTablePackage sr0)
      as [sr1 [header | e]] eqn:Hread; [| discriminate].
    apply binary_Read_decoded in Hread. destruct Hread as [bs ->].
    cbv zeta in Hstart.
    destruct (ReadStringPool _); [| discriminate].
    destruct (ReadStringPool _); [| discriminate].
    inversion Hstart. exact (header_fields_range bs 0).
  - apply package_round_header in Hround. lia.
Qed.

(** *** The loops finish on an advancing source *)

Lemma package_chunks_finishes (src : list byte) (sr0 : SectionReader)
    (size : Z) :
  advancing src ->
  forall (k : nat) (sr : SectionReader) (types : list TableType) (o : Z),
    package_stands src sr0 size o ->
    sr_src sr = sr_src sr0 -> sr_base sr = sr_base sr0 ->
    sr_limit sr = sr_limit sr0 ->
    (Z.to_nat (size - o) < k)%nat ->
    finished (package_chunks k size sr types o).
Proof.
  intros [_ Hadv].
  induction k as [| k IH]; intros sr types o Hst Hsrc Hbase Hlimit Hk; [lia |].
  unfold package_chunks; fold package_chunks. cbv zeta.
  destruct (Z.ltb_spec o size) as [Ho | Ho]; [| apply finished_Ok].
  assert (Hseek : Seek sr o = Seek sr0 o)
    by (unfold Seek; now rewrite Hsrc, Hbase, Hlimit).
  rewrite Hseek.
  pose proof (eq_refl (package_round sr0 o)) as Hround.
  unfold package_round at 2 in Hround. cbv zeta in Hround.
  destruct (binary_Read sizeof_ResChunkHeader decode_ResChunkHeader (Seek sr0 o))
    as [sr1 [hc | e]] eqn:Hread; [| apply finished_Ok].
  apply binary_Read_frame in Hread. cbn [Seek sr_src sr_base sr_limit] in Hread.
  destruct Hread as (Hsrc1 & Hbase1 & Hlimit1).
  assert (Hnext : forall types',
             package_round sr0 o = Some hc ->
             finished (package_chunks k size (Seek sr1 o) types'
                         (o + ch_Size hc))).
  { intros types' Hr.
    pose proof (Hadv sr0 size o hc Hst Ho Hr) as Hsize.
    apply IH.
    - now apply (package_next src sr0 size o hc).
    - exact Hsrc1.
    - exact Hbase1.
    - exact Hlimit1.
    - lia. }
  destruct (ch_Type hc =? RES_TABLE_TYPE_TYPE).
  - destruct (ReadTableType _); [now apply Hnext | apply finished_Ok].
  - destruct (ch_Type hc =? RES_TABLE_TYPE_SPEC_TYPE).
    + destruct (ReadTableTypeSpec _); [now apply Hnext | apply finished_Ok].
    + now apply Hnext.
Qed.

Lemma chunk_loop_finishes (src : list byte) (sr : SectionReader) (size : Z)
    (n : nat) :
  advancing src ->
  (forall f o, stands src f sr size o -> o < size ->
               finished (readChunk n f sr o)) ->
  forall (k : nat) (f : File) (o : Z),
    stands src f sr size o -> (Z.to_nat (size - o) < k)%nat ->
    finished (chunk_loop (fun f o => readChunk n f sr o) k size f o).
Proof.
  intros [Hadv _] Hrc.
  induction k as [| k IH]; intros f o Hst Hk; [lia |].
  unfold chunk_loop; fold chunk_loop.
  destruct (Z.ltb_spec o size) as [Ho | Ho]; [| apply finished_Ok].
  apply finished_bind; [now apply Hrc |].
  intros [f' [hc | e]] Heq; [| apply finished_Ok].
  destruct (Hadv f sr size o Hst Ho) as [_ Hsize].
  specialize (Hsize n f' hc Heq).
  apply IH.
  - now apply (stands_next src f sr size o n f' hc).
  - lia.
Qed.

Lemma ReadTablePackage_finishes (src : list byte) (f : File)
    (r : SectionReader) (o : Z) (sr : SectionReader) (h : ResChunkHeader)
    (k : nat) :
  advancing src -> called src f r o ->
  chunk_at r o = Some (sr, h) -> ch_Type h = RES_TABLE_PACKAGE_TYPE ->
  (loop_fuel <= k)%nat ->
  finished (ReadTablePackage k sr).
Proof.
  intros Hadv Hcall Hchunk Hty Hk. unfold ReadTablePackage. cbv zeta.
  pose proof (eq_refl (package_start r o)) as Hstart.
  unfold package_start at 2 in Hstart. cbv zeta in Hstart.
  rewrite Hchunk, Hty, Z.eqb_refl in Hstart.
  destruct (binary_Read sizeof_ResTablePackage decode_ResTablePackage sr)
    as [sr1 [header | e]]; [| apply finished_Ok].
  destruct (ReadStringPool _); [| apply finished_Ok].
  destruct (ReadStringPool _); [| apply finished_Ok].
  assert (Hst : package_stands src sr1 (ch_Size (pkg_Header header))
                  (ch_HeaderSize (pkg_Header header)))
    by (now apply (package_enter src f r o)).
  apply finished_bind.
  - apply (package_chunks_finishes src sr1 _ Hadv); try reflexivity; [exact Hst |].
    apply package_stands_inv in Hst. pose proof loop_fuel_spec. lia.
  - intros [types | e] _; apply finished_Ok.
Qed.

(** *** The dispatcher finishes on an advancing source *)

Lemma readChunk_finishes (src : list byte) :
  advancing src ->
  forall (m n : nat) (f : File) (r : SectionReader) (o : Z),
    called src f r o ->
    len src - (sr_base r + o) <= Z.of_nat m ->
    (loop_fuel + m < n)%nat ->
    finished (readChunk n f r o).
Proof.
  intros Hadv.
  induction m as [m IH] using lt_wf_ind. intros n f r o Hcall Hm Hn.
  destruct n as [| n]; [lia |].
  destruct (called_inv src f r o Hcall) as (Hsrc & Hbase & Ho).
  simpl readChunk. unfold readChunk_body.
  destruct (binary_Read sizeof_ResChunkHeader decode_ResChunkHeader _)
    as [sr' [h | e]] eqn:Hread; [| apply finished_Ok].
  assert (Hchunk : chunk_at r o = Some (Seek sr' 0, h))
    by (unfold chunk_at; now rewrite Hread).
  clear Hread. set (sr0 := Seek sr' 0) in *.
  destruct (chunk_at_inv r o sr0 h ltac:(lia) Hchunk) as (Hq & Hsrc0 & Hbase0).
  rewrite Hsrc in Hq, Hsrc0. apply header_at_len in Hq.
  (* the loop of a table or an XML tree *)
  assert (Hloop : forall f1 size hs,
             loop_start f r o = Some (f1, sr0, size, hs) ->
             finished (chunk_loop (fun f o => readChunk n f sr0 o) n size f1 hs)).
  { intros f1 size hs Hstart.
    pose proof (called_enters src f r o f1 sr0 size hs Hcall Hstart) as Hst.
    apply (chunk_loop_finishes src sr0 size n Hadv).
    - intros f0 o' Hst' Ho'.
      destruct Hadv as [Hadv _].
      destruct (Hadv f0 sr0 size o' Hst' Ho') as [Hpos _].
      apply (IH (m - 1)%nat); [lia | | lia | lia].
      right. exists size. split; assumption.
    - exact Hst.
    - apply stands_inv in Hst. pose proof loop_fuel_spec. lia. }
  apply finished_bind; [| intros [f1 [e |]] _; apply finished_Ok].
  pose proof (eq_refl (loop_start f r o)) as Hstart.
  unfold loop_start at 2 in Hstart. rewrite Hchunk in Hstart.
  destruct (ch_Type h =? RES_TABLE_TYPE) eqn:Htable.
  { unfold readTable.
    destruct (binary_Read_ignore sizeof_ResTableHeader decode_ResTableHeader
                zero_ResTableHeader sr0) as [sr2 th].
    now apply Hloop. }
  destruct (ch_Type h =? RES_XML_TYPE) eqn:Hxml.
  { unfold readXML.
    destruct (binary_Read_ignore sizeof_ResChunkHeader decode_ResChunkHeader
                zero_ResChunkHeader sr0) as [sr2 xh].
    now apply Hloop. }
  destruct (ch_Type h =? RES_STRING_POOL_TYPE).
  { destruct (ReadStringPool sr0); apply finished_Ok. }
  destruct (ch_Type h =? RES_XML_RESOURCE_MAP_TYPE).
  { destruct (ReadResourceMap sr0); apply finished_Ok. }
  destruct (ch_Type h =? RES_XML_START_NAMESPACE_TYPE);
    [apply ReadStartNamespace_finished |].
  destruct (ch_Type h =? RES_XML_END_NAMESPACE_TYPE);
    [apply ReadEndNamespace_finished |].
  destruct (ch_Type h =? RES_XML_START_ELEMENT_TYPE);
    [apply ReadStartElement_finished |].
  destruct (ch_Type h =? RES_XML_END_ELEMENT_TYPE);
    [apply ReadEndElement_finished |].
  destruct (ch_Type h =? RES_TABLE_PACKAGE_TYPE) eqn:Hpkg; [| apply finished_Ok].
  unfold store_package. apply finished_bind.
  - apply (ReadTablePackage_finishes src f r o sr0 h n Hadv Hcall Hchunk).
    + now apply Z.eqb_eq.
    + lia.
  - intros [tablePackage | e] _; [| apply finished_Panic].
    destruct (store_at _ _ _); [apply finished_Ok | apply finished_Panic].
Qed.


(** The loops of the minimal manifest: only the XML tree at the origin has
    one, and it stands at the starts of the six sub-chunks and at the end. *)
Lemma stands_minimal_manifest (f : File) (sr : SectionReader) (size o : Z) :
  stands minimal_manifest f sr size o ->
  sr = mkSR minimal_manifest 0 0 344 /\ size = 344
  /\ In o [8; 204; 216; 240; 296; 320; 344].
Proof.
  induction 1 as [f sr size o Hstart
                 | f r size o f1 sr1 size1 o1 Hst IH Ho Hstart
                 | f sr size o n f' hc Hst IH Ho Hrc].
  - vm_compute in Hstart. inversion Hstart.
    split; [vm_compute; reflexivity | split; [reflexivity | simpl; auto]].
  - exfalso. destruct IH as (-> & -> & Hin). simpl in Hin.
    repeat (destruct Hin as [<- | Hin];
            [try lia; vm_compute in Hstart; discriminate Hstart |]).
    contradiction.
  - destruct IH as (-> & -> & Hin). split; [reflexivity |]. split; [reflexivity |].
    apply readChunk_header in Hrc; [| cbn [sr_base]; simpl in Hin; intuition lia].
    cbn [sr_src sr_base] in Hrc. simpl in Hin.
    repeat (destruct Hin as [<- | Hin];
            [try lia; vm_compute in Hrc; inversion Hrc; subst hc; simpl; tauto |]).
    contradiction.
Qed.

Lemma package_stands_minimal_manifest (sr : SectionReader) (size o : Z) :
  ~ package_stands minimal_manifest sr size o.
Proof.
  induction 1 as [f r o sr size start Hcall Hstart | sr size o hc Hst IH Ho Hround];
    [| exact IH].
  destruct Hcall as [(-> & -> & ->) | (size' & Hst & Ho)].
  - vm_compute in Hstart. discriminate Hstart.
  - apply stands_minimal_manifest in Hst. destruct Hst as (-> & -> & Hin).
    simpl in Hin.
    repeat (destruct Hin as [<- | Hin];
            [try lia; vm_compute in Hstart; discriminate Hstart |]).
    contradiction.
Qed.

Lemma minimal_manifest_advancing : advancing minimal_manifest.
Proof.
  split.
  - intros f sr size o Hst Ho.
    apply stands_minimal_manifest in Hst. destruct Hst as (-> & -> & Hin).
    simpl in Hin. split; [intuition lia |].
    intros n f' hc Hrc.
    apply readChunk_header in Hrc; [| cbn [sr_base]; intuition lia].
    cbn [sr_src sr_base] in Hrc.
    repeat (destruct Hin as [<- | Hin];
            [try lia; vm_compute in Hrc; inversion Hrc; vm_compute; discriminate |]).
    contradiction.
  - intros sr size o hc Hst. now apply package_stands_minimal_manifest in Hst.
Qed.


(** A loop goes no further than the first sub-chunk that fails: in
    [error_before_zero_size] the chunk of size 0 at position 16 comes after
    an END_ELEMENT whose decoder returns [io.EOF], the loop never stands on
    it, and the source is advancing. *)
Lemma stands_error_before_zero_size (f : File) (sr : SectionReader)
    (size o : Z) :
  stands error_before_zero_size f sr size o ->
  sr = mkSR error_before_zero_size 0 0 24 /\ size = 24 /\ o = 8.
Proof.
  induction 1 as [f sr size o Hstart
                 | f r size o f1 sr1 size1 o1 Hst IH Ho Hstart
                 | f sr size o n f' hc Hst IH Ho Hrc].
  - vm_compute in Hstart. inversion Hstart.
    split; [vm_compute; reflexivity | split; reflexivity].
  - exfalso. destruct IH as (-> & -> & ->).
    vm_compute in Hstart. discriminate Hstart.
  - exfalso. destruct IH as (-> & -> & ->).
    destruct n as [| n]; [discriminate Hrc |].
    vm_compute in Hrc. discriminate Hrc.
Qed.

Lemma error_before_zero_size_advancing :
  header_at error_before_zero_size 16 = Some (mkResChunkHeader RES_NULL_TYPE 8 0)
  /\ advancing error_before_zero_size
  /\ NewFile 3 error_before_zero_size = Ok (Fprint new_File xml_declaration, None).
Proof.
  split; [reflexivity |]. split; [| reflexivity].
  split.
  - intros f sr size o Hst Ho.
    apply stands_error_before_zero_size in Hst. destruct Hst as (-> & -> & ->).
    split; [lia |]. intros n f' hc Hrc. exfalso.
    destruct n as [| n]; [discriminate Hrc |].
    vm_compute in Hrc. discriminate Hrc.
  - intros sr size o hc Hst. exfalso.
    induction Hst as [f r o sr size start Hcall Hstart
                     | sr size o hc' Hst IH Ho Hround]; [| exact IH].
    destruct Hcall as [(-> & -> & ->) | (size' & Hst & Ho)].
    + vm_compute in Hstart. discriminate Hstart.
    + apply stands_error_before_zero_size in Hst. destruct Hst as (-> & -> & ->).
      vm_compute in Hstart. discriminate Hstart.
Qed.

(** * Further properties of the decoder *)

(** ** Reads that succeed and reads that fail *)

Lemma binary_Read_ok {A : Type} (decode : list byte -> A) (n : Z)
    (src : list byte) (base off limit : Z) :
  0 < n -> off + n <= len src -> off + n <= limit ->
  binary_Read n decode (mkSR src base off limit)
  = (mkSR src base (off + n) limit, inl (decode (slice src off n))).
Proof.
  intros Hn Hlen Hlim. unfold binary_Read, ReadFull, available, advance.
  cbn [sr_src sr_base sr_off sr_limit]. fold (len src).
  replace (n <=? 0) with false by (symmetry; apply Z.leb_gt; lia).
  replace (n <=? Z.max 0 (Z.min limit (len src) - off)) with true
    by (symmetry; apply Z.leb_le; lia).
  reflexivity.
Qed.

Lemma binary_Read_short {A : Type} (decode : list byte -> A) (n : Z)
    (src : list byte) (base off limit : Z) :
  0 < n -> Z.min limit (len src) < off + n ->
  exists sr' e,
    binary_Read n decode (mkSR src base off limit) = (sr', inr e)
    /\ e = (if Z.max 0 (Z.min limit (len src) - off) =? 0
            then EOF else ErrUnexpectedEOF).
Proof.
  intros Hn Hshort. unfold binary_Read, ReadFull, available, advance.
  cbn [sr_src sr_base sr_off sr_limit]. fold (len src).
  replace (n <=? 0) with false by (symmetry; apply Z.leb_gt; lia).
  replace (n <=? Z.max 0 (Z.min limit (len src) - off)) with false
    by (symmetry; apply Z.leb_gt; lia).
  destruct (Z.max 0 (Z.min limit (len src) - off) =? 0); eauto.
Qed.

(** ** The dispatcher *)

(** X1. A source shorter than a chunk header decodes to the empty file:
    [readChunk] returns [io.EOF] for an empty source and
    [io.ErrUnexpectedEOF] otherwise, and [NewFile] returns the file as
    [new(File)] made it, with a nil error. *)
Theorem short_source_is_empty_file (fuel : nat) (src : list byte) :
  len src < 8 ->
  readChunk (S fuel) new_File (ReaderAt src) 0
  = Ok (new_File, inr (if len src =? 0 then EOF else ErrUnexpectedEOF))
  /\ NewFile (S fuel) src = Ok (new_File, None).
Proof.
  intros Hlen. pose proof (len_nonneg src) as Hnn.
  assert (Hrc : readChunk (S fuel) new_File (ReaderAt src) 0
                = Ok (new_File, inr (if len src =? 0 then EOF else ErrUnexpectedEOF))).
  { simpl readChunk. unfold readChunk_body, Seek, NewSectionReader, ReaderAt.
    cbn [sr_src sr_base sr_off sr_limit]. fold (len src).
    destruct (binary_Read_short decode_ResChunkHeader sizeof_ResChunkHeader src
                (0 + 0) (0 + 0 + 0) (Z.min (len src) (0 + 0 + (maxint64 - 0))))
      as (sr' & e & Hread & He).
    - reflexivity.
    - unfold sizeof_ResChunkHeader, maxint64. lia.
    - rewrite Hread. subst e. f_equal. f_equal. f_equal.
      unfold maxint64.
      destruct (Z.eqb_spec (len src) 0) as [H0 | H0];
        [ replace (Z.max 0 (Z.min (Z.min (len src) (0 + 0 + (9223372036854775807 - 0)))
                              (len src) - (0 + 0 + 0)) =? 0) with true
            by (symmetry; apply Z.eqb_eq; lia)
        | replace (Z.max 0 (Z.min (Z.min (len src) (0 + 0 + (9223372036854775807 - 0)))
                              (len src) - (0 + 0 + 0)) =? 0) with false
            by (symmetry; apply Z.eqb_neq; lia) ]; reflexivity. }
  split; [exact Hrc |]. unfold NewFile. rewrite Hrc. reflexivity.
Qed.

Lemma short_source_is_empty_file_witness :
  NewFile 1 [x03; x00; x08] = Ok (new_File, None).
Proof.
  apply (short_source_is_empty_file 0 [x03; x00; x08]). reflexivity.
Defined.

(** X2. A chunk whose type is outside the case list of the dispatcher is
    skipped: [readChunk] returns its header, so that the loop of the parent
    moves on by its size, and leaves the file as it was.  CDATA nodes
    ([0x0104]) are among these: their text never reaches the XML buffer. *)
Theorem unknown_chunk_is_skipped (fuel : nat) (f : File) (r : SectionReader)
    (offset : Z) (h : ResChunkHeader) :
  0 <= offset -> offset + 8 <= maxint64 ->
  sr_base r + offset + 8 <= sr_limit r ->
  header_at (sr_src r) (sr_base r + offset) = Some h ->
  dispatched (ch_Type h) = false ->
  readChunk (S fuel) f r offset = Ok (f, inl h)
  /\ dispatched RES_XML_CDATA_TYPE = false.
Proof.
  intros Ho Hmax Hlim Hh Hty. split; [| reflexivity].
  simpl readChunk.
  assert (Hrange := header_at_range _ _ _ Hh). destruct Hrange as (Hq & _ & _ & Hdec).
  assert (Hlen : sr_base r + offset + 8 <= len (sr_src r)).
  { unfold header_at in Hh. destruct (0 <=? sr_base r + offset); [| discriminate].
    destruct (Z.leb_spec (sr_base r + offset + 8) (len (sr_src r)));
      [assumption | discriminate]. }
  apply (readChunk_body_not_dispatched _ _ _ _ _
           (mkSR (sr_src r) (sr_base r + offset) (sr_base r + offset + 0 + 8)
              (Z.min (sr_limit r) (sr_base r + offset + (maxint64 - offset)))));
    [| exact Hty].
  unfold Seek, NewSectionReader. cbn [sr_src sr_base sr_off sr_limit].
  rewrite binary_Read_ok; unfold sizeof_ResChunkHeader; try lia.
  rewrite Z.add_0_r. now rewrite Hdec.
Qed.

Lemma unknown_chunk_is_skipped_witness :
  readChunk 1 new_File (mkSR cdata_xml 0 0 36) 8
  = Ok (new_File, inl (mkResChunkHeader RES_XML_CDATA_TYPE 16 28))
  /\ dispatched RES_XML_CDATA_TYPE = false.
Proof.
  apply (unknown_chunk_is_skipped 0 new_File (mkSR cdata_xml 0 0 36) 8);
    [lia | vm_compute; discriminate | vm_compute; discriminate
     | reflexivity | reflexivity].
Defined.

(** ** The package list *)

Lemma store_at_length (l : list TablePackage) (i : nat) (p : TablePackage)
    (l' : list TablePackage) :
  store_at l i p = Some l' -> length l' = length l.
Proof.
  revert i l'. induction l as [| x rest IH]; intros i l' H; [discriminate |].
  destruct i as [| i]; simpl in H.
  - inversion H. reflexivity.
  - destruct (store_at rest i p) as [r |] eqn:Hr; [| discriminate].
    inversion H. simpl. f_equal. now apply (IH i).
Qed.

(** What [ReadTablePackage] returns has the zero header. *)
Lemma ReadTablePackage_header (fuel : nat) (sr : SectionReader)
    (p : TablePackage) :
  ReadTablePackage fuel sr = Ok (inl p) -> tp_Header p = zero_ResTablePackage.
Proof.
  unfold ReadTablePackage. cbv zeta.
  destruct (binary_Read sizeof_ResTablePackage decode_ResTablePackage sr)
    as [sr' [header | e]]; [| discriminate].
  destruct (ReadStringPool _) as [typeStrings | e]; [| discriminate].
  destruct (ReadStringPool _) as [keyStrings | e]; [| discriminate].
  destruct (package_chunks _ _ _ _ _) as [[types | e] | pn |]; simpl;
    try discriminate.
  intros H. inversion H. reflexivity.
Qed.

(** X3. The package case of the dispatcher never returns an error and
    always writes slot 0.  Whenever it returns, the package decoded without
    error, the list was not empty, and the list afterwards is the list
    before with its first element replaced by the decoded package: the other
    slots and every other field of the file are untouched.  The package
    that is stored has the zero header: the header that was read is not
    kept. *)
Theorem package_goes_to_slot_0 (fuel : nat) (f : File) (sr : SectionReader)
    (f' : File) (e : option error) :
  store_package fuel f sr = Ok (f', e) ->
  e = None
  /\ exists p old rest,
       ReadTablePackage fuel sr = Ok (inl p)
       /\ tp_Header p = zero_ResTablePackage
       /\ tablePackages f = old :: rest
       /\ f' = set_tablePackages f (p :: rest).
Proof.
  unfold store_package.
  destruct (ReadTablePackage fuel sr) as [[p | err] | pn |] eqn:Hread; simpl;
    try discriminate.
  destruct (tablePackages f) as [| old rest] eqn:Hl; simpl; [discriminate |].
  intros H. inversion H. split; [reflexivity |].
  exists p, old, rest. repeat split.
  now apply (ReadTablePackage_header fuel sr).
Qed.

Lemma package_goes_to_slot_0_witness :
  exists f' p,
    store_package 3
      (set_tablePackages new_File [zero_TablePackage; zero_TablePackage])
      (package_reader two_package_table 12) = Ok (f', None)
    /\ ReadTablePackage 3 (package_reader two_package_table 12) = Ok (inl p)
    /\ tp_Header p = zero_ResTablePackage
    /\ f' = set_tablePackages new_File [p; zero_TablePackage].
Proof.
  destruct (store_package 3
              (set_tablePackages new_File [zero_TablePackage; zero_TablePackage])
              (package_reader two_package_table 12)) as [[f' e] | pn |] eqn:Hs.
  - destruct (package_goes_to_slot_0 _ _ _ _ _ Hs)
      as (-> & p & old & rest & Hp & Hh & Hl & Hf).
    exists f', p. repeat split; [exact Hp | exact Hh |].
    cbn [tablePackages set_tablePackages] in Hl. inversion Hl; subst old rest.
    exact Hf.
  - exfalso. vm_compute in Hs. discriminate Hs.
  - exfalso. vm_compute in Hs. discriminate Hs.
Defined.

Lemma package_store_needs_slot (fuel : nat) (f : File) (sr : SectionReader)
    (f' : File) (e : option error) :
  store_package fuel f sr = Ok (f', e) -> tablePackages f <> [].
Proof.
  unfold store_package.
  destruct (ReadTablePackage fuel sr) as [[p | err] | pn |]; simpl;
    try discriminate.
  destruct (tablePackages f); simpl; [discriminate |].
  intros _. discriminate.
Qed.

(** X4. A source that starts with a PACKAGE chunk is never decoded: the
    package list of a new file is empty, so whatever the chunk holds the
    store panics (or, on a chunk with a sub-chunk of size 0, the decode does
    not end); [NewFile] does not return. *)
Theorem top_level_package_never_returns (fuel : nat) (src : list byte) :
  8 <= len src ->
  ch_Type (decode_ResChunkHeader (firstn 8 src)) = RES_TABLE_PACKAGE_TYPE ->
  forall f e, NewFile fuel src <> Ok (f, e).
Proof.
  intros Hlen Hty f e. destruct fuel as [| n]; [discriminate |].
  unfold NewFile. simpl readChunk. unfold readChunk_body.
  rewrite first_header_read by exact Hlen. rewrite Hty.
  change (RES_TABLE_PACKAGE_TYPE =? RES_TABLE_TYPE) with false.
  change (RES_TABLE_PACKAGE_TYPE =? RES_XML_TYPE) with false.
  change (RES_TABLE_PACKAGE_TYPE =? RES_STRING_POOL_TYPE) with false.
  change (RES_TABLE_PACKAGE_TYPE =? RES_XML_RESOURCE_MAP_TYPE) with false.
  change (RES_TABLE_PACKAGE_TYPE =? RES_XML_START_NAMESPACE_TYPE) with false.
  change (RES_TABLE_PACKAGE_TYPE =? RES_XML_END_NAMESPACE_TYPE) with false.
  change (RES_TABLE_PACKAGE_TYPE =? RES_XML_START_ELEMENT_TYPE) with false.
  change (RES_TABLE_PACKAGE_TYPE =? RES_XML_END_ELEMENT_TYPE) with false.
  change (RES_TABLE_PACKAGE_TYPE =? RES_TABLE_PACKAGE_TYPE) with true.
  cbv iota.
  destruct (store_package n new_File _) as [[f1 e1] | pn |] eqn:Hs;
    simpl; try discriminate.
  apply package_store_needs_slot in Hs. now elim Hs.
Qed.

Lemma top_level_package_never_returns_witness :
  NewFile 4 lone_package = Panic (IndexOutOfRange 0 0)
  /\ forall f e, NewFile 4 lone_package <> Ok (f, e).
Proof.
  split; [reflexivity |].
  apply (top_level_package_never_returns 4 lone_package);
    [vm_compute; discriminate | reflexivity].
Defined.

(** ** The XML events *)

Lemma bind_Ok {A B : Type} (m : result A) (k : A -> result B) (b : B) :
  bind m k = Ok b -> exists a, m = Ok a /\ k a = Ok b.
Proof.
  destruct m as [a | p |]; simpl; intros H; [| discriminate | discriminate].
  now exists a.
Qed.

Lemma append_nil_r (s : string) : (s ++ "")%string = s.
Proof. induction s as [| c s IH]; simpl; [reflexivity | now rewrite IH]. Qed.

Lemma only_prints_refl (f : File) : only_prints f f.
Proof.
  repeat split. exists EmptyString. now rewrite append_nil_r.
Qed.

Lemma only_prints_trans (f1 f2 f3 : File) :
  only_prints f1 f2 -> only_prints f2 f3 -> only_prints f1 f3.
Proof.
  intros (A1 & A2 & A3 & A4 & A5 & s & As) (B1 & B2 & B3 & B4 & B5 & t & Bt).
  repeat split; try congruence.
  exists (s ++ t)%string. rewrite Bt, As. apply append_assoc.
Qed.

Lemma only_prints_Fprint (f : File) (s : string) : only_prints f (Fprint f s).
Proof. repeat split. now exists s. Qed.

Lemma write_namespaces_only_prints (m : refmap) (f f' : File) :
  write_namespaces f m = Ok f' -> only_prints f f'.
Proof.
  revert f. induction m as [| [uri prefix] rest IH]; intros f H; simpl in H.
  - inversion H. apply only_prints_refl.
  - apply bind_Ok in H. destruct H as (p & _ & H).
    apply bind_Ok in H. destruct H as (u & _ & H).
    apply IH in H.
    eapply only_prints_trans; [| exact H].
    eapply only_prints_trans; [apply only_prints_Fprint |].
    eapply only_prints_trans; apply only_prints_Fprint.
Qed.

Lemma write_attribute_only_prints (f : File) (attr : ResXMLTreeAttribute)
    (f' : File) :
  write_attribute f attr = Ok f' -> only_prints f f'.
Proof.
  unfold write_attribute. intros H.
  apply bind_Ok in H. destruct H as (value & _ & H).
  apply bind_Ok in H. destruct H as (name & _ & H).
  inversion H.
  eapply only_prints_trans; [apply only_prints_Fprint |].
  eapply only_prints_trans; apply only_prints_Fprint.
Qed.

Lemma read_attributes_only_prints (n : nat) (attributeSize : Z) (f : File)
    (sr : SectionReader) (offset : Z) (f' : File) :
  read_attributes n attributeSize f sr offset = Ok f' -> only_prints f f'.
Proof.
  revert f sr offset. induction n as [| n IH]; intros f sr offset H; simpl in H.
  - inversion H. apply only_prints_refl.
  - destruct (binary_Read_ignore _ _ _ _) as [sr' attr].
    apply bind_Ok in H. destruct H as (f1 & H1 & H).
    apply write_attribute_only_prints in H1. apply IH in H.
    eapply only_prints_trans; eassumption.
Qed.

(** X5. [ReadStartElement] drops the errors of all its reads: whenever it
    returns, its error is nil, also on a chunk that is cut short.  It leaves
    no namespace declaration pending, touches neither the string pool, the
    resource map, the active namespaces nor the packages, and only adds text
    to the XML buffer. *)
Theorem ReadStartElement_returns_no_error (f : File) (sr : SectionReader)
    (f' : File) (e : option error) :
  ReadStartElement f sr = Ok (f', e) ->
  e = None
  /\ notPrecessedNS f' = None
  /\ stringPool f' = stringPool f
  /\ resourceMap f' = resourceMap f
  /\ namespaces f' = namespaces f
  /\ tablePackages f' = tablePackages f
  /\ grows f f'.
Proof.
  unfold ReadStartElement.
  destruct (read_node_ignore _ _ _ _) as [[sr' header] ext]. intros H.
  apply bind_Ok in H. destruct H as (name & _ & H).
  apply bind_Ok in H. destruct H as (f1 & H1 & H).
  apply bind_Ok in H. destruct H as (f2 & H2 & H).
  inversion H. subst f' e. clear H.
  apply read_attributes_only_prints in H2.
  assert (Hf1 : notPrecessedNS f1 = None
                /\ stringPool f1 = stringPool f /\ resourceMap f1 = resourceMap f
                /\ namespaces f1 = namespaces f
                /\ tablePackages f1 = tablePackages f /\ grows f f1).
  { change (notPrecessedNS (Fprint f ("<" ++ name))) with (notPrecessedNS f) in H1.
    destruct (notPrecessedNS f) as [m |] eqn:Hm.
    - apply bind_Ok in H1. destruct H1 as (f0 & H0 & H1). inversion H1.
      apply write_namespaces_only_prints in H0.
      pose proof (only_prints_trans _ _ _
                    (only_prints_Fprint f ("<" ++ name)) H0)
        as (A1 & A2 & A3 & A4 & A5 & A6).
      repeat split; assumption.
    - inversion H1. repeat split; [exact Hm | now exists ("<" ++ name)%string]. }
  destruct Hf1 as (B0 & B1 & B2 & B3 & B4 & s & Bs).
  destruct H2 as (C1 & C2 & C3 & C4 & C5 & t & Ct).
  repeat split; cbn [Fprint stringPool resourceMap notPrecessedNS namespaces
                       tablePackages XMLBuffer]; try congruence.
  exists (s ++ t ++ ">")%string. cbn [Fprint XMLBuffer].
  rewrite Ct, Bs. now rewrite !append_assoc.
Qed.

Lemma ReadStartElement_returns_no_error_witness :
  notPrecessedNS (Fprint label_pool_file app_start_tag) = None
  /\ grows label_pool_file (Fprint label_pool_file app_start_tag).
Proof.
  destruct (ReadStartElement_returns_no_error label_pool_file
              (mkSR string_attribute_xml 86 86 166)
              (Fprint label_pool_file app_start_tag) None)
    as (_ & Hpending & _ & _ & _ & _ & Hgrows).
  - vm_compute. reflexivity.
  - split; assumption.
Defined.

(** A read that fails leaves the destination as it was and the reader on the
    same source and window. *)
Lemma binary_Read_ignore_short {A : Type} (decode : list byte -> A) (old : A)
    (n : Z) (src : list byte) (base off limit : Z) :
  0 < n -> Z.min limit (len src) < off + n ->
  exists off',
    binary_Read_ignore n decode old (mkSR src base off limit)
    = (mkSR src base off' limit, old).
Proof.
  intros Hn Hshort.
  unfold binary_Read_ignore, binary_Read, ReadFull, available, advance.
  cbn [sr_src sr_base sr_off sr_limit]. fold (len src).
  replace (n <=? 0) with false by (symmetry; apply Z.leb_gt; lia).
  replace (n <=? Z.max 0 (Z.min limit (len src) - off)) with false
    by (symmetry; apply Z.leb_gt; lia).
  destruct (Z.max 0 (Z.min limit (len src) - off) =? 0); eauto.
Qed.

(** X6. A START_ELEMENT chunk cut before the end of its 16-byte node header
    is not reported: node and extension keep their zero values, so the
    element is named by string 0 of the pool, in the namespace of reference
    0, has no attribute, and the error is nil.  When no namespace is bound
    to reference 0 the prefix is string 0 as well. *)
Theorem truncated_start_element_is_rendered
    (f : File) (src : list byte) (base limit : Z)
    (sp : ResStringPool) (s0 : string) :
  Z.min limit (len src) < base + 16 ->
  notPrecessedNS f = None ->
  lookup_ns (namespaces f) 0 = 0 ->
  stringPool f = Some sp ->
  nth_error (sp_Strings sp) 0 = Some s0 ->
  ReadStartElement f (mkSR src base base limit)
  = Ok (Fprint f ("<" ++ s0 ++ ":" ++ s0 ++ ">"), None).
Proof.
  intros Hshort Hpending Hns Hsp Hs0.
  unfold ReadStartElement, read_node_ignore.
  destruct (binary_Read_ignore_short decode_ResXMLTreeNode zero_ResXMLTreeNode
              sizeof_ResXMLTreeNode src base base limit) as [off1 Hnode];
    [reflexivity | unfold sizeof_ResXMLTreeNode; lia |].
  rewrite Hnode. unfold Seek. cbn [sr_src sr_base sr_off sr_limit].
  change (ch_HeaderSize (node_Header zero_ResXMLTreeNode)) with 0.
  destruct (binary_Read_ignore_short decode_ResXMLTreeAttrExt zero_ResXMLTreeAttrExt
              sizeof_ResXMLTreeAttrExt src base (base + 0) limit) as [off2 Hext];
    [reflexivity | unfold sizeof_ResXMLTreeAttrExt; lia |].
  rewrite Hext.
  assert (Hname : AddNamespace f 0 0 = Ok (s0 ++ ":" ++ s0)%string).
  { unfold AddNamespace. change (negb (0 =? NilResStringPoolRef)) with true.
    cbv iota. rewrite Hns. unfold GetString.
    change (0 =? NilResStringPoolRef) with false. cbv iota.
    rewrite Hsp. change (Z.to_nat 0) with 0%nat. rewrite Hs0. reflexivity. }
  change (ext_NS zero_ResXMLTreeAttrExt) with 0.
  change (ext_Name zero_ResXMLTreeAttrExt) with 0.
  rewrite Hname. cbn [bind].
  change (notPrecessedNS (Fprint f ("<" ++ (s0 ++ ":" ++ s0))))
    with (notPrecessedNS f).
  rewrite Hpending. cbn [bind].
  change (Z.to_nat (ext_AttributeCount zero_ResXMLTreeAttrExt)) with 0%nat.
  cbn [read_attributes bind].
  rewrite Fprint_Fprint. f_equal. f_equal. f_equal.
  cbn [append]. now rewrite !append_assoc.
Qed.

Lemma truncated_start_element_is_rendered_witness :
  ReadStartElement label_pool_file (mkSR cut_start_element 0 0 8)
  = Ok (Fprint label_pool_file "<label:label>", None).
Proof.
  apply (truncated_start_element_is_rendered label_pool_file cut_start_element 0 8
           (mkResStringPool zero_ResStringPoolHeader
              ["label"; "hello"; "app"]%string []) "label"%string);
    reflexivity.
Defined.

(** X7. [ReadEndElement] checks its reads: on a chunk cut before the end of
    its 16-byte node header it returns the read error, [io.EOF] when nothing
    is left and [io.ErrUnexpectedEOF] otherwise, and writes nothing. *)
Theorem truncated_end_element_is_reported
    (f : File) (src : list byte) (base limit : Z) :
  Z.min limit (len src) < base + 16 ->
  ReadEndElement f (mkSR src base base limit)
  = Ok (f, Some (if Z.max 0 (Z.min limit (len src) - base) =? 0
                 then EOF else ErrUnexpectedEOF)).
Proof.
  intros Hshort. unfold ReadEndElement.
  destruct (binary_Read_short decode_ResXMLTreeNode sizeof_ResXMLTreeNode
              src base base limit) as (sr' & e & Hread & He);
    [reflexivity | unfold sizeof_ResXMLTreeNode; lia |].
  rewrite Hread. now subst e.
Qed.

Lemma truncated_end_element_is_reported_witness :
  ReadEndElement label_pool_file (mkSR truncated_xml 8 8 16)
  = Ok (label_pool_file, Some ErrUnexpectedEOF).
Proof.
  apply (truncated_end_element_is_reported label_pool_file truncated_xml 8 16).
  reflexivity.
Defined.

(** ** Namespaces *)

Lemma map_get_set_same (m : refmap) (k v : Z) : map_get (map_set m k v) k = v.
Proof.
  induction m as [| [k' v'] rest IH]; simpl.
  - now rewrite Z.eqb_refl.
  - destruct (Z.eqb_spec k' k) as [-> | Hne]; simpl.
    + now rewrite Z.eqb_refl.
    + destruct (Z.eqb_spec k' k); [contradiction | exact IH].
Qed.

Lemma map_get_set_other (m : refmap) (k v k' : Z) :
  k' <> k -> map_get (map_set m k v) k' = map_get m k'.
Proof.
  intros Hne. induction m as [| [k0 v0] rest IH]; simpl.
  - destruct (Z.eqb_spec k k'); [congruence | reflexivity].
  - destruct (Z.eqb_spec k0 k) as [-> | Hk0]; simpl.
    + destruct (Z.eqb_spec k k'); [congruence | reflexivity].
    + destruct (Z.eqb_spec k0 k'); [reflexivity | exact IH].
Qed.

Lemma map_set_keys (m : refmap) (k v x : Z) :
  In x (map fst (map_set m k v)) -> x = k \/ In x (map fst m).
Proof.
  induction m as [| [k0 v0] rest IH]; simpl.
  - intros [H | []]. now left.
  - destruct (Z.eqb_spec k0 k) as [-> | Hk0]; simpl.
    + intros [H | H]; [now left | right; now right].
    + intros [H | H]; [right; now left |].
      destruct (IH H); [now left | right; now right].
Qed.

Lemma map_set_unique (m : refmap) (k v : Z) :
  NoDup (map fst m) -> NoDup (map fst (map_set m k v)).
Proof.
  induction m as [| [k0 v0] rest IH]; simpl; intros Hm.
  - constructor; [intros [] | constructor].
  - inversion Hm as [| x l Hnotin Hrest]; subst.
    destruct (Z.eqb_spec k0 k) as [-> | Hk0]; simpl.
    + now constructor.
    + constructor; [| now apply IH].
      intros Hin. apply map_set_keys in Hin. destruct Hin; [congruence | contradiction].
Qed.

Lemma map_get_absent (m : refmap) (k : Z) :
  ~ In k (map fst m) -> map_get m k = 0.
Proof.
  induction m as [| [k0 v0] rest IH]; simpl; intros Hnot; [reflexivity |].
  destruct (Z.eqb_spec k0 k) as [-> | Hne].
  - elim Hnot. now left.
  - apply IH. intros Hin. apply Hnot. now right.
Qed.

Lemma map_get_delete_same (m : refmap) (k : Z) :
  NoDup (map fst m) -> map_get (map_delete m k) k = 0.
Proof.
  induction m as [| [k0 v0] rest IH]; simpl; intros Hm; [reflexivity |].
  inversion Hm as [| x l Hnotin Hrest]; subst.
  destruct (Z.eqb_spec k0 k) as [-> | Hne]; simpl.
  - now apply map_get_absent.
  - destruct (Z.eqb_spec k0 k); [contradiction | now apply IH].
Qed.

Lemma map_get_delete_other (m : refmap) (k k' : Z) :
  k' <> k -> map_get (map_delete m k) k' = map_get m k'.
Proof.
  intros Hne. induction m as [| [k0 v0] rest IH]; simpl; [reflexivity |].
  destruct (Z.eqb_spec k0 k) as [-> | Hk0]; simpl.
  - destruct (Z.eqb_spec k k'); [congruence | reflexivity].
  - destruct (Z.eqb_spec k0 k'); [reflexivity | exact IH].
Qed.

(** The node header and the extension of an XML event laid out in the
    standard way: sixteen bytes of node whose header size is 16, then the
    extension. *)
Lemma read_node_at {A : Type} (size : Z) (decode : list byte -> A) (zero : A)
    (src : list byte) (base limit : Z) (pre node ext post : list byte) :
  src = pre ++ node ++ ext ++ post ->
  base = len pre ->
  len node = 16 ->
  ch_HeaderSize (node_Header (decode_ResXMLTreeNode node)) = 16 ->
  len ext = size ->
  base + 16 + size <= limit ->
  read_node_ignore size decode zero (mkSR src base base limit)
  = (mkSR src base (base + 16 + size) limit,
     decode_ResXMLTreeNode node, decode ext).
Proof.
  intros Hsrc Hbase Hnode Hhs Hext Hlim.
  pose proof (len_nonneg ext) as Hnn.
  unfold read_node_ignore, binary_Read_ignore.
  rewrite (binary_Read_at decode_ResXMLTreeNode src base base limit
             sizeof_ResXMLTreeNode pre node (ext ++ post));
    [| exact Hsrc | exact Hbase | now rewrite Hnode
     | unfold sizeof_ResXMLTreeNode; lia].
  rewrite Hhs. unfold Seek. cbn [sr_src sr_base sr_off sr_limit].
  rewrite (binary_Read_at decode src base (base + 16) limit size
             (pre ++ node) ext post);
    [| rewrite Hsrc, <- app_assoc; reflexivity
     | rewrite len_app; lia | now symmetry | rewrite len_app; lia].
  reflexivity.
Qed.

(** X8. A START_NAMESPACE chunk binds its URI to its prefix in both maps of
    the file, leaves every other binding, the pool and the XML buffer as
    they were, and returns a nil error; from then on a name in that
    namespace is written as the prefix string, a colon and the name
    string. *)
Theorem namespace_is_bound
    (f : File) (src : list byte) (base limit : Z)
    (pre node ext post : list byte) :
  src = pre ++ node ++ ext ++ post ->
  base = len pre ->
  len node = 16 ->
  ch_HeaderSize (node_Header (decode_ResXMLTreeNode node)) = 16 ->
  len ext = 8 ->
  base + 24 <= limit ->
  exists f',
    ReadStartNamespace f (mkSR src base base limit) = Ok (f', None)
    /\ lookup_ns (namespaces f') (le32 ext 4) = le32 ext 0
    /\ lookup_ns (notPrecessedNS f') (le32 ext 4) = le32 ext 0
    /\ (forall k, k <> le32 ext 4 ->
          lookup_ns (namespaces f') k = lookup_ns (namespaces f) k)
    /\ stringPool f' = stringPool f
    /\ XMLBuffer f' = XMLBuffer f
    /\ (keys_unique (namespaces f) -> keys_unique (namespaces f'))
    /\ (forall name,
          le32 ext 4 <> NilResStringPoolRef ->
          AddNamespace f' (le32 ext 4) name
          = (p <- GetString f (le32 ext 0) ;;
             n <- GetString f name ;;
             Ok (p ++ ":" ++ n)%string)).
Proof.
  intros Hsrc Hbase Hnode Hhs Hext Hlim.
  unfold ReadStartNamespace.
  rewrite (read_node_at sizeof_ResXMLTreeNamespaceExt decode_ResXMLTreeNamespaceExt
             zero_ResXMLTreeNamespaceExt src base limit pre node ext post);
    try assumption; [| unfold sizeof_ResXMLTreeNamespaceExt; lia].
  eexists. split; [reflexivity |].
  cbn [decode_ResXMLTreeNamespaceExt ns_Uri ns_Prefix set_namespaces
         set_notPrecessedNS namespaces notPrecessedNS stringPool XMLBuffer
         lookup_ns].
  repeat split.
  - apply map_get_set_same.
  - apply map_get_set_same.
  - intros k Hk. rewrite map_get_set_other by exact Hk.
    destruct (namespaces f); reflexivity.
  - unfold keys_unique. cbn [make_if_nil]. apply map_set_unique.
  - intros name Huri. unfold AddNamespace.
    replace (le32 ext 4 =? NilResStringPoolRef) with false
      by (symmetry; now apply Z.eqb_neq).
    cbn [negb namespaces lookup_ns set_namespaces set_notPrecessedNS].
    rewrite map_get_set_same. unfold GetString.
    cbn [stringPool set_namespaces set_notPrecessedNS]. reflexivity.
Qed.

Lemma namespace_is_bound_witness :
  exists f',
    ReadStartNamespace namespace_pool_file (mkSR namespace_chunk 0 0 24)
    = Ok (f', None)
    /\ lookup_ns (namespaces f') 2 = 1
    /\ AddNamespace f' 2 0 = Ok "android:versionCode"%string.
Proof.
  destruct (namespace_is_bound namespace_pool_file namespace_chunk 0 24 []
              (firstn 16 namespace_chunk) (skipn 16 namespace_chunk) [])
    as (f' & Hread & Hns & _ & _ & _ & _ & _ & Hname);
    [reflexivity | reflexivity | reflexivity | reflexivity | reflexivity
     | vm_compute; discriminate |].
  exists f'. split; [exact Hread | split; [exact Hns |]].
  assert (Huri : le32 (skipn 16 namespace_chunk) 4 <> NilResStringPoolRef)
    by (vm_compute; discriminate).
  exact (Hname 0 Huri).
Defined.

(** X9. An END_NAMESPACE chunk removes the binding of its URI from the
    active namespaces and nothing else: the pending declarations, the pool
    and the XML buffer stay, and the error is nil.  A name that still
    carries the URI afterwards finds no binding, so the lookup yields
    reference 0 and the name is written with string 0 of the pool as its
    prefix. *)
Theorem namespace_end_unbinds
    (f : File) (src : list byte) (base limit : Z)
    (pre node ext post : list byte) :
  src = pre ++ node ++ ext ++ post ->
  base = len pre ->
  len node = 16 ->
  ch_HeaderSize (node_Header (decode_ResXMLTreeNode node)) = 16 ->
  len ext = 8 ->
  base + 24 <= limit ->
  keys_unique (namespaces f) ->
  exists f',
    ReadEndNamespace f (mkSR src base base limit) = Ok (f', None)
    /\ lookup_ns (namespaces f') (le32 ext 4) = 0
    /\ (forall k, k <> le32 ext 4 ->
          lookup_ns (namespaces f') k = lookup_ns (namespaces f) k)
    /\ notPrecessedNS f' = notPrecessedNS f
    /\ stringPool f' = stringPool f
    /\ XMLBuffer f' = XMLBuffer f
    /\ (forall name,
          le32 ext 4 <> NilResStringPoolRef ->
          AddNamespace f' (le32 ext 4) name
          = (p <- GetString f 0 ;;
             n <- GetString f name ;;
             Ok (p ++ ":" ++ n)%string)).
Proof.
  intros Hsrc Hbase Hnode Hhs Hext Hlim Huniq.
  unfold ReadEndNamespace.
  rewrite (read_node_at sizeof_ResXMLTreeNamespaceExt decode_ResXMLTreeNamespaceExt
             zero_ResXMLTreeNamespaceExt src base limit pre node ext post);
    try assumption; [| unfold sizeof_ResXMLTreeNamespaceExt; lia].
  eexists. split; [reflexivity |].
  cbn [decode_ResXMLTreeNamespaceExt ns_Uri ns_Prefix set_namespaces
         namespaces notPrecessedNS stringPool XMLBuffer].
  assert (Hgone : lookup_ns
                    (option_map (fun m => map_delete m (le32 ext 4)) (namespaces f))
                    (le32 ext 4) = 0).
  { unfold keys_unique in Huniq. destruct (namespaces f) as [m |]; simpl.
    - now apply map_get_delete_same.
    - reflexivity. }
  repeat split.
  - exact Hgone.
  - intros k Hk. destruct (namespaces f) as [m |]; simpl; [| reflexivity].
    now apply map_get_delete_other.
  - intros name Huri. unfold AddNamespace.
    replace (le32 ext 4 =? NilResStringPoolRef) with false
      by (symmetry; now apply Z.eqb_neq).
    cbn [negb namespaces set_namespaces]. rewrite Hgone. unfold GetString.
    cbn [stringPool set_namespaces]. reflexivity.
Qed.

Lemma namespace_end_unbinds_witness :
  exists f',
    ReadEndNamespace bound_namespace_file (mkSR namespace_end_chunk 0 0 24)
    = Ok (f', None)
    /\ lookup_ns (namespaces bound_namespace_file) 2 = 1
    /\ lookup_ns (namespaces f') 2 = 0
    /\ AddNamespace f' 2 0 = Ok "versionCode:versionCode"%string.
Proof.
  destruct (namespace_end_unbinds bound_namespace_file namespace_end_chunk 0 24 []
              (firstn 16 namespace_end_chunk) (skipn 16 namespace_end_chunk) [])
    as (f' & Hread & Hns & _ & _ & _ & _ & Hname);
    [reflexivity | reflexivity | reflexivity | reflexivity | reflexivity
     | vm_compute; discriminate
     | unfold keys_unique; simpl; constructor; [intros [] | constructor] |].
  exists f'. split; [exact Hread | split; [reflexivity | split; [exact Hns |]]].
  assert (Huri : le32 (skipn 16 namespace_end_chunk) 4 <> NilResStringPoolRef)
    by (vm_compute; discriminate).
  exact (Hname 0 Huri).
Defined.

(** ** The string pool *)

Lemma slice_length (src : list byte) (off n : Z) :
  0 <= off -> 0 <= n -> off + n <= len src ->
  length (slice src off n) = Z.to_nat n.
Proof.
  intros Hoff Hn Hlen. unfold slice, len in *.
  rewrite length_firstn, length_skipn. lia.
Qed.

Lemma length_le32s (bs : list byte) (n : nat) :
  length bs = (4 * n)%nat -> length (le32s bs) = n.
Proof.
  revert bs. induction n as [| n IH]; intros bs Hlen.
  - destruct bs; [reflexivity | discriminate].
  - destruct bs as [| b0 [| b1 [| b2 [| b3 rest]]]]; simpl in Hlen; try lia.
    simpl. f_equal. apply IH. lia.
Qed.

(** A read never moves the cursor back. *)
Lemma ReadFull_cursor (sr : SectionReader) (n : Z) :
  sr_off sr <= sr_off (fst (ReadFull sr n)).
Proof.
  unfold ReadFull, available, advance.
  destruct (Z.leb_spec n 0) as [Hz | Hpos]; [simpl; lia |].
  destruct (Z.leb_spec n (Z.max 0 (Z.min (sr_limit sr) (Z.of_nat (length (sr_src sr)))
                                   - sr_off sr))) as [Hle | Hgt].
  - simpl; lia.
  - destruct (_ =? 0); simpl; lia.
Qed.

Lemma binary_Read_ignore_cursor {A : Type} (decode : list byte -> A) (old : A)
    (n : Z) (sr : SectionReader) :
  sr_off sr <= sr_off (fst (binary_Read_ignore n decode old sr)).
Proof.
  unfold binary_Read_ignore, binary_Read.
  pose proof (ReadFull_cursor sr n) as H.
  destruct (ReadFull sr n) as [sr' [bs | e]]; exact H.
Qed.

(** The array that [make] and the unchecked [binary.Read] leave has the
    declared number of elements, read or not. *)
Lemma read_u32s_ignore_length (n : Z) (sr sr' : SectionReader) (l : list Z) :
  0 <= sr_off sr ->
  read_u32s_ignore n sr = (sr', l) -> length l = Z.to_nat n.
Proof.
  intros Hoff. unfold read_u32s_ignore, binary_Read_ignore.
  destruct sr as [src base off limit]. cbn [sr_off] in Hoff.
  destruct (Z.leb_spec (4 * n) 0) as [Hz | Hpos].
  - unfold binary_Read, ReadFull.
    replace (4 * n <=? 0) with true by (symmetry; apply Z.leb_le; lia).
    intros H. inversion H. simpl. lia.
  - destruct (binary_Read (4 * n) le32s (mkSR src base off limit))
      as [sr1 [a | e]] eqn:Hread.
    + apply binary_Read_inl in Hread; [| lia].
      destruct Hread as (Hlen & _ & Ha & _).
      intros H. inversion H. subst l a.
      apply length_le32s. rewrite slice_length by lia. lia.
    + intros H. inversion H. apply repeat_length.
Qed.

Lemma read_strings_length (flags base : Z) (starts : list Z)
    (sr sr' : SectionReader) (strs : list string) :
  read_strings flags base starts sr = (sr', inl strs) ->
  length strs = length starts.
Proof.
  revert sr sr' strs. induction starts as [| start rest IH];
    intros sr sr' strs H; simpl in H.
  - inversion H. reflexivity.
  - destruct (if Z.land flags UTF8_FLAG =? 0 then _ else _) as [sr1 [str | e]];
      [| discriminate].
    destruct (read_strings flags base rest sr1) as [sr2 [strs' | e]] eqn:Hrest;
      [| discriminate].
    inversion H. simpl. f_equal. now apply (IH sr1 sr2).
Qed.

Lemma pool_header_counts (sr : SectionReader) :
  let header :=
    snd (binary_Read_ignore sizeof_ResStringPoolHeader decode_ResStringPoolHeader
           zero_ResStringPoolHeader sr) in
  0 <= sph_StringCount header < 4294967296.
Proof.
  unfold binary_Read_ignore, binary_Read.
  destruct (ReadFull sr sizeof_ResStringPoolHeader) as [sr' [bs | e]]; simpl.
  - apply le32_range.
  - lia.
Qed.

(** X10. A pool that [ReadStringPool] returns holds as many strings as its
    header declares, and as many styles; so once the pool is the pool of the
    file, every reference below the declared string count resolves:
    [GetString] returns the string at that index and does not panic. *)
Theorem decoded_pool_is_indexable (sr : SectionReader) (sp : ResStringPool) :
  0 <= sr_off sr ->
  ReadStringPool sr = inl sp ->
  length (sp_Strings sp) = Z.to_nat (sph_StringCount (sp_Header sp))
  /\ length (sp_Styles sp) = Z.to_nat (sph_StyleCount (sp_Header sp))
  /\ (forall f ref,
        0 <= ref < sph_StringCount (sp_Header sp) ->
        exists s, nth_error (sp_Strings sp) (Z.to_nat ref) = Some s
                  /\ GetString (set_stringPool f (Some sp)) ref = Ok s).
Proof.
  intros Hoff. unfold ReadStringPool.
  pose proof (pool_header_counts sr) as Hcount.
  pose proof (binary_Read_ignore_cursor decode_ResStringPoolHeader
                zero_ResStringPoolHeader sizeof_ResStringPoolHeader sr) as Hc1.
  destruct (binary_Read_ignore sizeof_ResStringPoolHeader _ _ sr)
    as [sr1 header]. cbn [fst snd] in Hcount, Hc1.
  destruct (read_u32s_ignore (sph_StringCount header) sr1)
    as [sr2 stringStarts] eqn:Hstrings.
  pose proof (binary_Read_ignore_cursor le32s
                (repeat 0 (Z.to_nat (sph_StringCount header)))
                (4 * sph_StringCount header) sr1) as Hc2.
  unfold read_u32s_ignore in Hstrings. rewrite Hstrings in Hc2. cbn [fst] in Hc2.
  fold (read_u32s_ignore (sph_StringCount header) sr1) in Hstrings.
  apply read_u32s_ignore_length in Hstrings; [| lia].
  destruct (read_u32s_ignore (sph_StyleCount header) sr2)
    as [sr3 styleStarts] eqn:Hstyles.
  apply read_u32s_ignore_length in Hstyles; [| lia].
  destruct (read_strings _ _ stringStarts sr3) as [sr4 [strings | e]] eqn:H1;
    [| discriminate].
  destruct (read_strings _ _ styleStarts sr4) as [sr5 [styles | e]] eqn:H2;
    [| discriminate].
  intros H. inversion H. subst sp. clear H.
  apply read_strings_length in H1. apply read_strings_length in H2.
  cbn [sp_Strings sp_Styles sp_Header].
  split; [congruence | split; [congruence |]].
  intros f ref Href.
  destruct (nth_error strings (Z.to_nat ref)) as [s |] eqn:Hnth.
  - exists s. split; [reflexivity |]. unfold GetString.
    replace (ref =? NilResStringPoolRef) with false
      by (symmetry; apply Z.eqb_neq; unfold NilResStringPoolRef; lia).
    cbn [set_stringPool stringPool sp_Strings]. now rewrite Hnth.
  - apply nth_error_None in Hnth. lia.
Qed.

Lemma decoded_pool_is_indexable_witness :
  exists sp s,
    ReadStringPool (ReaderAt hello_pool) = inl sp
    /\ GetString (set_stringPool new_File (Some sp)) 1 = Ok s.
Proof.
  destruct (ReadStringPool (ReaderAt hello_pool)) as [sp | e] eqn:Hread.
  - destruct (decoded_pool_is_indexable (ReaderAt hello_pool) sp) as (_ & _ & Hget);
      [simpl; lia | exact Hread |].
    destruct (Hget new_File 1) as (s & _ & Hs).
    + vm_compute in Hread. inversion Hread. vm_compute. split; congruence.
    + exists sp, s. split; [reflexivity | exact Hs].
  - exfalso. vm_compute in Hread. discriminate Hread.
Defined.

(** X11. A string pool chunk cut inside its 28-byte header is not reported:
    the header keeps its zero value, no string is read, and the dispatcher
    installs an empty pool as the pool of the file, in place of any pool
    decoded before, with a nil error. *)
Theorem truncated_pool_header_is_empty_pool
    (fuel : nat) (f : File) (r : SectionReader) (offset : Z)
    (h : ResChunkHeader) :
  0 <= offset -> offset + 8 <= maxint64 ->
  header_at (sr_src r) (sr_base r + offset) = Some h ->
  ch_Type h = RES_STRING_POOL_TYPE ->
  sr_base r + offset + 8 <= sr_limit r ->
  Z.min (sr_limit r) (len (sr_src r)) < sr_base r + offset + 28 ->
  readChunk (S fuel) f r offset
  = Ok (set_stringPool f (Some empty_pool), inl h).
Proof.
  intros Ho Hmax Hh Hty Hlim Hshort.
  assert (Hrange := header_at_range _ _ _ Hh).
  destruct Hrange as (Hq & _ & _ & Hdec).
  assert (Hlen : sr_base r + offset + 8 <= len (sr_src r)).
  { unfold header_at in Hh. destruct (0 <=? sr_base r + offset); [| discriminate].
    destruct (Z.leb_spec (sr_base r + offset + 8) (len (sr_src r)));
      [assumption | discriminate]. }
  simpl readChunk. unfold readChunk_body, Seek, NewSectionReader.
  cbn [sr_src sr_base sr_off sr_limit].
  rewrite binary_Read_ok; unfold sizeof_ResChunkHeader; try lia.
  rewrite Z.add_0_r, <- Hdec, Hty.
  change (RES_STRING_POOL_TYPE =? RES_TABLE_TYPE) with false.
  change (RES_STRING_POOL_TYPE =? RES_XML_TYPE) with false.
  change (RES_STRING_POOL_TYPE =? RES_STRING_POOL_TYPE) with true.
  cbv iota. cbn [sr_src sr_base sr_off sr_limit].
  assert (Hpool : ReadStringPool
                    (mkSR (sr_src r) (sr_base r + offset) (sr_base r + offset + 0)
                       (Z.min (sr_limit r)
                          (sr_base r + offset + (maxint64 - offset))))
                  = inl empty_pool).
  { unfold ReadStringPool.
    destruct (binary_Read_ignore_short decode_ResStringPoolHeader
                zero_ResStringPoolHeader sizeof_ResStringPoolHeader (sr_src r)
                (sr_base r + offset) (sr_base r + offset + 0)
                (Z.min (sr_limit r) (sr_base r + offset + (maxint64 - offset))))
      as [off1 Hhdr];
      [reflexivity | unfold sizeof_ResStringPoolHeader; lia |].
    rewrite Hhdr. reflexivity. }
  rewrite Hpool. reflexivity.
Qed.

Lemma truncated_pool_header_is_empty_pool_witness :
  readChunk 1 sample_pool_file (ReaderAt cut_pool) 0
  = Ok (set_stringPool sample_pool_file (Some empty_pool),
        inl (mkResChunkHeader RES_STRING_POOL_TYPE 28 46)).
Proof.
  apply (truncated_pool_header_is_empty_pool 0 sample_pool_file
           (ReaderAt cut_pool) 0);
    [lia | vm_compute; discriminate | reflexivity | reflexivity
     | vm_compute; discriminate | reflexivity].
Defined.

(** ** The resource table *)

Lemma read_entries_slots (entriesStart : Z) (indexes : list Z)
    (sr : SectionReader) :
  Forall2 slot indexes (snd (read_entries entriesStart indexes sr)).
Proof.
  revert sr. induction indexes as [| index rest IH]; intros sr; simpl.
  - constructor.
  - destruct (index =? 0xFFFFFFFF) eqn:Hnil.
    + specialize (IH sr).
      destruct (read_entries entriesStart rest sr) as [sr' entries].
      simpl. constructor; [| exact IH]. unfold slot. now rewrite Hnil.
    + destruct (binary_Read_ignore sizeof_ResTableEntry _ _ _) as [sr1 key].
      destruct (binary_Read_ignore sizeof_ResValue _ _ _) as [sr2 val].
      specialize (IH sr2).
      destruct (read_entries entriesStart rest sr2) as [sr' entries].
      simpl. constructor; [| exact IH]. unfold slot. rewrite Hnil.
      simpl. split; discriminate.
Qed.

Lemma Forall2_same_length {A B : Type} (R : A -> B -> Prop)
    (l1 : list A) (l2 : list B) :
  Forall2 R l1 l2 -> length l2 = length l1.
Proof. induction 1; simpl; congruence. Qed.

(** X12. A TYPE chunk that [ReadTableType] decodes has one entry for each
    declared entry, in the order of the index array that stands at the
    header size: the slot of an index [0xFFFFFFFF] is the zero entry, with
    nil key and nil value, and every other slot has a key and a value. *)
Theorem ReadTableType_slots (sr : SectionReader) (tt : TableType) :
  0 <= sr_base sr -> sr_off sr = sr_base sr ->
  ReadTableType sr = inl tt ->
  let header := ty_Header tt in
  Z.of_nat (length (ty_Entries tt)) = tt_EntryCount header
  /\ Forall2 slot
       (le32s (slice (sr_src sr)
                 (sr_base sr + ch_HeaderSize (tt_Header header))
                 (4 * tt_EntryCount header)))
       (ty_Entries tt).
Proof.
  intros Hbase Hoff. destruct sr as [src base off limit].
  cbn [sr_base sr_off sr_src] in *. subst off.
  unfold ReadTableType.
  destruct (binary_Read sizeof_ResTableType decode_ResTableType _)
    as [sr1 [header | e]] eqn:Hhdr; [| discriminate].
  apply binary_Read_inl in Hhdr; [| reflexivity].
  destruct Hhdr as (_ & _ & Hheader & ->).
  unfold Seek. cbn [sr_src sr_base sr_off sr_limit].
  assert (Hcount : 0 <= tt_EntryCount header < 4294967296)
    by (subst header; apply le32_range).
  assert (Hhs : 0 <= ch_HeaderSize (tt_Header header))
    by (subst header; apply le16_nonneg).
  destruct (binary_Read (4 * tt_EntryCount header) le32s _)
    as [sr2 [entryIndexes | e]] eqn:Hidx; [| discriminate].
  assert (Hindexes : entryIndexes
                     = le32s (slice src (base + ch_HeaderSize (tt_Header header))
                                (4 * tt_EntryCount header))
                     /\ length entryIndexes = Z.to_nat (tt_EntryCount header)).
  { destruct (Z.eq_dec (tt_EntryCount header) 0) as [Hz | Hnz].
    - rewrite Hz in *. unfold binary_Read, ReadFull in Hidx. simpl in Hidx.
      inversion Hidx. unfold slice. simpl. split; reflexivity.
    - apply binary_Read_inl in Hidx; [| lia].
      destruct Hidx as (Hlen & _ & Ha & _). split; [exact Ha |].
      rewrite Ha. apply length_le32s. rewrite slice_length by lia. lia. }
  destruct Hindexes as [Hdef Hlen].
  pose proof (read_entries_slots (tt_EntriesStart header) entryIndexes sr2) as Hslots.
  destruct (read_entries (tt_EntriesStart header) entryIndexes sr2)
    as [sr3 entries]. cbn [snd] in Hslots.
  intros H. inversion H. subst tt. cbn [ty_Header ty_Entries].
  split.
  - rewrite (Forall2_same_length _ _ _ Hslots). lia.
  - now rewrite <- Hdef.
Qed.

Lemma ReadTableType_slots_witness :
  exists tt,
    ReadTableType (ReaderAt sparse_type_chunk) = inl tt
    /\ Z.of_nat (length (ty_Entries tt)) = 3
    /\ Forall2 slot [0; 0xFFFFFFFF; 16] (ty_Entries tt).
Proof.
  destruct (ReadTableType (ReaderAt sparse_type_chunk)) as [tt | e] eqn:Hread.
  - destruct (ReadTableType_slots (ReaderAt sparse_type_chunk) tt)
      as [Hlen Hslots]; [simpl; lia | reflexivity | exact Hread |].
    exists tt. vm_compute in Hread. inversion Hread. subst tt.
    split; [reflexivity | split; [exact Hlen | exact Hslots]].
  - exfalso. vm_compute in Hread. discriminate Hread.
Defined.

(** ** The resource map *)

(** X13. [ReadResourceMap] takes [(Size - HeaderSize) / 4] identifiers, the
    difference being computed in 32 bits, from the bytes that follow the
    eight bytes of the chunk header, whatever the header size says: it
    returns them when they are all there and an error otherwise.  A header
    size above the size wraps to a count near [2^30]. *)
Theorem ReadResourceMap_count
    (src : list byte) (base limit : Z) (h : ResChunkHeader) :
  header_at src base = Some h ->
  base + 8 <= limit ->
  let count := wrap32 (ch_Size h - ch_HeaderSize h) / 4 in
  (base + 8 + 4 * count <= Z.min limit (len src) ->
   ReadResourceMap (mkSR src base base limit)
   = inl (le32s (slice src (base + 8) (4 * count)))
   /\ length (le32s (slice src (base + 8) (4 * count))) = Z.to_nat count)
  /\ (Z.min limit (len src) < base + 8 + 4 * count ->
      exists e, ReadResourceMap (mkSR src base base limit) = inr e).
Proof.
  intros Hh Hlim count.
  assert (Hrange := header_at_range _ _ _ Hh).
  destruct Hrange as (Hbase & _ & _ & Hdec).
  assert (Hlen : base + 8 <= len src).
  { unfold header_at in Hh. destruct (0 <=? base); [| discriminate].
    destruct (Z.leb_spec (base + 8) (len src)); [assumption | discriminate]. }
  assert (Hcount : 0 <= count).
  { unfold count, wrap32. apply Z.div_pos; [| lia].
    apply Z.mod_pos_bound. lia. }
  assert (Hhead : binary_Read_ignore sizeof_ResChunkHeader decode_ResChunkHeader
                    zero_ResChunkHeader (mkSR src base base limit)
                  = (mkSR src base (base + 8) limit, h)).
  { unfold binary_Read_ignore. rewrite binary_Read_ok;
      unfold sizeof_ResChunkHeader; try lia. now rewrite Hdec. }
  unfold ReadResourceMap. rewrite Hhead. fold count. split.
  - intros Hall. destruct (Z.eq_dec count 0) as [Hz | Hnz].
    + rewrite Hz. unfold binary_Read, ReadFull, slice. simpl.
      split; reflexivity.
    + rewrite binary_Read_ok by lia. split; [reflexivity |].
      apply length_le32s. rewrite slice_length by lia. lia.
  - intros Hshort.
    destruct (binary_Read_short le32s (4 * count) src base (base + 8) limit)
      as (sr' & e & Hread & _); [lia | lia |].
    rewrite Hread. now exists e.
Qed.

Lemma ReadResourceMap_count_witness :
  ReadResourceMap (ReaderAt resource_map_chunk) = inl [0x0101021b; 0x0101021c].
Proof.
  destruct (ReadResourceMap_count resource_map_chunk 0 16
              (mkResChunkHeader RES_XML_RESOURCE_MAP_TYPE 8 16))
    as [Hall _]; [reflexivity | lia |].
  destruct Hall as [Hread _]; [vm_compute; discriminate |].
  exact Hread.
Defined.

(** ** The XML buffer *)

Lemma grows_refl (f : File) : grows f f.
Proof. exists EmptyString. now rewrite append_nil_r. Qed.

Lemma grows_trans (f1 f2 f3 : File) : grows f1 f2 -> grows f2 f3 -> grows f1 f3.
Proof.
  intros [s Hs] [t Ht]. exists (s ++ t)%string.
  rewrite Ht, Hs. apply append_assoc.
Qed.

Lemma grows_same (f f' : File) : XMLBuffer f' = XMLBuffer f -> grows f f'.
Proof. intros H. exists EmptyString. now rewrite append_nil_r. Qed.

Lemma only_prints_grows (f f' : File) : only_prints f f' -> grows f f'.
Proof. intros (_ & _ & _ & _ & _ & H). exact H. Qed.

Lemma ReadStartElement_grows (f : File) (sr : SectionReader) (f' : File)
    (e : option error) :
  ReadStartElement f sr = Ok (f', e) -> grows f f'.
Proof.
  unfold ReadStartElement.
  destruct (read_node_ignore _ _ _ _) as [[sr' header] ext]. intros H.
  apply bind_Ok in H. destruct H as (name & _ & H).
  apply bind_Ok in H. destruct H as (f1 & H1 & H).
  apply bind_Ok in H. destruct H as (f2 & H2 & H).
  inversion H. subst f' e. clear H.
  apply read_attributes_only_prints, only_prints_grows in H2.
  assert (Hf1 : grows f f1).
  { destruct (notPrecessedNS (Fprint f ("<" ++ name))) as [m |].
    - apply bind_Ok in H1. destruct H1 as (f0 & H0 & H1). inversion H1.
      apply write_namespaces_only_prints, only_prints_grows in H0.
      eapply grows_trans; [| apply grows_same; reflexivity].
      eapply grows_trans; [| exact H0].
      apply only_prints_grows, only_prints_Fprint.
    - inversion H1. apply only_prints_grows, only_prints_Fprint. }
  eapply grows_trans; [exact Hf1 |].
  eapply grows_trans; [exact H2 |].
  apply only_prints_grows, only_prints_Fprint.
Qed.

Lemma ReadEndElement_grows (f : File) (sr : SectionReader) (f' : File)
    (e : option error) :
  ReadEndElement f sr = Ok (f', e) -> grows f f'.
Proof.
  unfold ReadEndElement.
  destruct (binary_Read _ _ _) as [sr1 [header | e1]];
    [| intros H; inversion H; apply grows_refl].
  destruct (binary_Read _ _ _) as [sr2 [ext | e2]];
    [| intros H; inversion H; apply grows_refl].
  intros H. apply bind_Ok in H. destruct H as (name & _ & H).
  inversion H. apply only_prints_grows, only_prints_Fprint.
Qed.

Lemma chunk_loop_grows
    (rc : File -> Z -> result (File * (ResChunkHeader + error))) :
  (forall f o f' r, rc f o = Ok (f', r) -> grows f f') ->
  forall (k : nat) (size : Z) (f : File) (o : Z) (f' : File) (e : option error),
    chunk_loop rc k size f o = Ok (f', e) -> grows f f'.
Proof.
  intros Hrc. induction k as [| k IH]; intros size f o f' e H; [discriminate |].
  simpl in H. destruct (o <? size); [| inversion H; apply grows_refl].
  apply bind_Ok in H. destruct H as ([f1 r] & H1 & H).
  apply Hrc in H1. destruct r as [hc | err].
  - apply IH in H. eapply grows_trans; eassumption.
  - inversion H. now subst.
Qed.

Lemma readChunk_grows (n : nat) (f : File) (r : SectionReader) (o : Z)
    (f' : File) (res : ResChunkHeader + error) :
  readChunk n f r o = Ok (f', res) -> grows f f'.
Proof.
  revert f r o f' res. induction n as [| n IH]; intros f r o f' res H;
    [discriminate |].
  simpl in H. unfold readChunk_body in H.
  destruct (binary_Read sizeof_ResChunkHeader decode_ResChunkHeader _)
    as [sr' [h | e]]; [| inversion H; apply grows_refl].
  apply bind_Ok in H. destruct H as ([f1 err] & H1 & H).
  assert (Hf : f' = f1) by (destruct err; inversion H; reflexivity).
  subst f'. clear H.
  destruct (ch_Type h =? RES_TABLE_TYPE).
  { unfold readTable in H1.
    destruct (binary_Read_ignore _ _ _ _) as [sr2 th].
    apply chunk_loop_grows in H1; [| intros f0 o0 f0' r0 H0; now apply IH in H0].
    eapply grows_trans; [| exact H1]. now apply grows_same. }
  destruct (ch_Type h =? RES_XML_TYPE).
  { unfold readXML in H1.
    destruct (binary_Read_ignore _ _ _ _) as [sr2 xh].
    apply chunk_loop_grows in H1; [| intros f0 o0 f0' r0 H0; now apply IH in H0].
    eapply grows_trans; [| exact H1].
    apply only_prints_grows, only_prints_Fprint. }
  destruct (ch_Type h =? RES_STRING_POOL_TYPE).
  { destruct (ReadStringPool _); inversion H1; now apply grows_same. }
  destruct (ch_Type h =? RES_XML_RESOURCE_MAP_TYPE).
  { destruct (ReadResourceMap _); inversion H1; now apply grows_same. }
  destruct (ch_Type h =? RES_XML_START_NAMESPACE_TYPE).
  { unfold ReadStartNamespace in H1.
    destruct (read_node_ignore _ _ _ _) as [[sr2 hd] ns].
    inversion H1. now apply grows_same. }
  destruct (ch_Type h =? RES_XML_END_NAMESPACE_TYPE).
  { unfold ReadEndNamespace in H1.
    destruct (read_node_ignore _ _ _ _) as [[sr2 hd] ns].
    inversion H1. now apply grows_same. }
  destruct (ch_Type h =? RES_XML_START_ELEMENT_TYPE).
  { now apply ReadStartElement_grows in H1. }
  destruct (ch_Type h =? RES_XML_END_ELEMENT_TYPE).
  { now apply ReadEndElement_grows in H1. }
  destruct (ch_Type h =? RES_TABLE_PACKAGE_TYPE).
  { unfold store_package in H1.
    apply bind_Ok in H1. destruct H1 as ([p | err1] & _ & H1); [| discriminate].
    destruct (store_at _ _ _); [| discriminate].
    inversion H1. now apply grows_same. }
  inversion H1. apply grows_refl.
Qed.

(** X14. Decoding only appends to the XML buffer, and an XML tree writes the
    XML declaration before anything else: whatever [NewFile] returns for a
    source whose first chunk is an XML tree, also after a sub-chunk failed,
    the buffer starts with the declaration. *)
Theorem xml_declaration_comes_first (fuel : nat) (src : list byte)
    (f : File) (e : option error) :
  8 <= len src ->
  ch_Type (decode_ResChunkHeader (firstn 8 src)) = RES_XML_TYPE ->
  NewFile fuel src = Ok (f, e) ->
  exists s, XMLBuffer f = (xml_declaration ++ s)%string.
Proof.
  intros Hlen Hty H. destruct fuel as [| n]; [discriminate |].
  unfold NewFile in H. apply bind_Ok in H. destruct H as ([f1 r1] & H1 & H).
  inversion H. subst f1. clear H.
  simpl in H1. unfold readChunk_body in H1.
  rewrite first_header_read in H1 by exact Hlen. rewrite Hty in H1.
  change (RES_XML_TYPE =? RES_TABLE_TYPE) with false in H1.
  change (RES_XML_TYPE =? RES_XML_TYPE) with true in H1. cbv iota in H1.
  apply bind_Ok in H1. destruct H1 as ([f2 err] & H2 & H1).
  assert (Hf : f = f2) by (destruct err; inversion H1; reflexivity).
  subst f2. unfold readXML in H2.
  destruct (binary_Read_ignore _ _ _ _) as [sr2 xh].
  apply chunk_loop_grows in H2;
    [| intros f0 o0 f0' r0 H0; now apply readChunk_grows in H0].
  destruct H2 as [s Hs]. exists s. exact Hs.
Qed.

Lemma xml_declaration_comes_first_witness :
  NewFile 3 truncated_xml = Ok (Fprint new_File xml_declaration, None)
  /\ exists s,
       XMLBuffer (Fprint new_File xml_declaration)
       = (xml_declaration ++ s)%string.
Proof.
  split; [reflexivity |].
  apply (xml_declaration_comes_first 3 truncated_xml
           (Fprint new_File xml_declaration) None);
    [vm_compute; discriminate | reflexivity | reflexivity].
Defined.

(** ** Decimal text *)

Lemma ord_decimal_digit (d : Z) : 0 <= d <= 9 -> ord (decimal_digit d) = 48 + d.
Proof. intros Hd. unfold decimal_digit. apply ord_chr. lia. Qed.

(** Parsing the digits that [decimal_loop] put before [acc] adds up the
    number they were made from. *)
Lemma parse_decimal_loop (fuel : nat) (n : Z) (acc : string) :
  0 <= n <= 4294967295 -> n < 10 ^ Z.of_nat fuel ->
  ParseUint_loop (decimal_loop fuel n acc) 0 = ParseUint_loop acc n.
Proof.
  revert n acc. induction fuel as [| k IH]; intros n acc Hn Hfuel.
  - simpl in *. assert (n = 0) by lia. now subst n.
  - assert (Hpow : 10 ^ Z.of_nat (S k) = 10 * 10 ^ Z.of_nat k)
      by (rewrite Nat2Z.inj_succ, Z.pow_succ_r by lia; reflexivity).
    assert (Hdigit : 0 <= n mod 10 <= 9)
      by (pose proof (Z.mod_pos_bound n 10); lia).
    assert (Hstep : forall a, a = n / 10 ->
              ParseUint_loop (String (decimal_digit (n mod 10)) acc) a
              = ParseUint_loop acc n).
    { intros a ->. cbn [ParseUint_loop]. rewrite ord_decimal_digit by exact Hdigit.
      replace (48 + n mod 10 - 48) with (n mod 10) by lia.
      replace (0 <=? n mod 10) with true by (symmetry; apply Z.leb_le; lia).
      replace (n mod 10 <=? 9) with true by (symmetry; apply Z.leb_le; lia).
      cbn [andb].
      replace (10 * (n / 10) + n mod 10) with n
        by (rewrite <- Z.div_mod; lia).
      replace (4294967295 <? n) with false by (symmetry; apply Z.ltb_ge; lia).
      reflexivity. }
    cbn [decimal_loop]. destruct (Z.eqb_spec (n / 10) 0) as [Hz | Hnz].
    + apply Hstep. now symmetry.
    + rewrite IH.
      * now apply Hstep.
      * pose proof (Z.div_pos n 10). pose proof (Z.div_le_upper_bound n 10 n). lia.
      * apply Z.div_lt_upper_bound; lia.
Qed.

Lemma decimal_loop_head (fuel : nat) (n : Z) (acc : string) :
  (0 < fuel)%nat -> 0 <= n ->
  exists c rest, decimal_loop fuel n acc = String c rest /\ 48 <= ord c <= 57.
Proof.
  revert n acc. induction fuel as [| k IH]; intros n acc Hfuel Hn; [lia |].
  assert (Hdigit : 0 <= n mod 10 <= 9)
    by (pose proof (Z.mod_pos_bound n 10); lia).
  cbn [decimal_loop]. destruct (n / 10 =? 0).
  - exists (decimal_digit (n mod 10)), acc. split; [reflexivity |].
    rewrite ord_decimal_digit by exact Hdigit. lia.
  - destruct k as [| k'].
    + exists (decimal_digit (n mod 10)), acc. split; [reflexivity |].
      rewrite ord_decimal_digit by exact Hdigit. lia.
    + apply IH; [lia | apply Z.div_pos; lia].
Qed.

Lemma digit_is_no_sign (c : ascii) :
  48 <= ord c <= 57 -> Ascii.eqb c "+" = false /\ Ascii.eqb c "-" = false.
Proof.
  intros Hc. split; apply Ascii.eqb_neq; intros ->.
  - change (ord "+") with 43 in Hc. lia.
  - change (ord "-") with 45 in Hc. lia.
Qed.

(** The decimal text of an unsigned 32-bit number parses back: to the number
    below [2^31], to the largest [int32] and a range error from there on. *)
Lemma ParseInt32_of_decimal (n : Z) :
  0 <= n < 4294967296 ->
  ParseInt32 (Sprintf_d n)
  = (if n <? 2147483648 then (n, None)
     else (2147483647, Some (ErrRange "ParseInt" (Sprintf_d n))))
  /\ Sprintf_d n <> EmptyString.
Proof.
  intros Hn. unfold Sprintf_d.
  destruct (decimal_loop_head 10 n EmptyString) as (c & rest & Hs & Hc);
    [lia | lia |].
  pose proof (parse_decimal_loop 10 n EmptyString) as Hparse.
  rewrite Hs in *. split; [| discriminate].
  destruct (digit_is_no_sign c Hc) as [Hplus Hminus].
  unfold ParseInt32. rewrite Hplus, Hminus. cbn [orb].
  rewrite Hparse; [| lia | change (10 ^ Z.of_nat 10) with 10000000000; lia].
  cbn [ParseUint_loop negb andb].
  destruct (Z.ltb_spec n 2147483648) as [Hlt | Hge].
  - replace (2147483648 <=? n) with false by (symmetry; apply Z.leb_gt; lia).
    reflexivity.
  - replace (2147483648 <=? n) with true by (symmetry; apply Z.leb_le; lia).
    reflexivity.
Qed.

(** ** From the translator to the facade *)

Section FacadeProperties.

Variable TableFile : Type.
Variable ResID : Type.
Variable IsResID : string -> bool.
Variable ParseResID : string -> ResID + error.
Variable GetResource :
  option TableFile -> ResID -> option ResTableConfig -> result (any + error).

Local Abbreviation Bool_get :=
  (Bool_Bool TableFile ResID IsResID ParseResID GetResource).
Local Abbreviation Int32_get :=
  (Int32_Int32 TableFile ResID IsResID ParseResID GetResource).

(** X15. The text that the translator writes for an [INT_DEC] attribute is
    the unsigned decimal of its data; read through [Int32()] it gives the
    data back when the data is below [2^31], and the largest [int32] with a
    range error otherwise (a negative number of the manifest is written as
    its unsigned value).  The text of an [INT_BOOLEAN] attribute, [true] or
    [false], read through [Bool()] tells whether the data is not 0. *)
Theorem typed_attribute_reads_back
    (f : File) (attr : ResXMLTreeAttribute)
    (table : option TableFile) (config : option ResTableConfig) :
  attr_RawValue attr = NilResStringPoolRef ->
  0 <= val_Data (attr_TypedValue attr) < 4294967296 ->
  let data := val_Data (attr_TypedValue attr) in
  (val_DataType (attr_TypedValue attr) = TYPE_INT_DEC ->
   IsResID (Sprintf_d data) = false ->
   attribute_value f attr = Ok (Sprintf_d data)
   /\ Int32_get (mkInt32 (Sprintf_d data) table config)
      = Ok (if data <? 2147483648 then (data, None)
            else (2147483647, Some (ErrRange "ParseInt" (Sprintf_d data)))))
  /\ (val_DataType (attr_TypedValue attr) = TYPE_INT_BOOLEAN ->
      IsResID "true" = false -> IsResID "false" = false ->
      exists text,
        attribute_value f attr = Ok text
        /\ Bool_get (mkBool text table config) = Ok (negb (data =? 0), None)).
Proof.
  intros Hraw Hdata data. split.
  - intros Hty Hres. split.
    + unfold attribute_value. rewrite Hraw, Hty. reflexivity.
    + destruct (ParseInt32_of_decimal data Hdata) as [Hparse Hne].
      unfold Int32_Int32. cbn [int32_value].
      replace (String.eqb (Sprintf_d data) "") with false
        by (symmetry; now apply String.eqb_neq).
      rewrite Hres. cbn [negb]. now rewrite Hparse.
  - intros Hty Htrue Hfalse.
    exists (if negb (data =? 0) then "true"%string else "false"%string). split.
    + unfold attribute_value. rewrite Hraw, Hty. fold data.
      change (TYPE_INT_BOOLEAN =? TYPE_NULL) with false.
      change (TYPE_INT_BOOLEAN =? TYPE_REFERENCE) with false.
      change (TYPE_INT_BOOLEAN =? TYPE_INT_DEC) with false.
      change (TYPE_INT_BOOLEAN =? TYPE_INT_HEX) with false.
      change (TYPE_INT_BOOLEAN =? TYPE_INT_BOOLEAN) with true.
      change (NilResStringPoolRef =? NilResStringPoolRef) with true.
      cbn [negb]. cbv iota. destruct (data =? 0); reflexivity.
    + unfold Bool_Bool. cbn [bool_value].
      destruct (data =? 0); cbn [negb];
        [rewrite Hfalse | rewrite Htrue]; reflexivity.
Qed.

(** X16. [SetInt32] followed by [Int32()] gives the number back, for every
    [int32]: the decimal text, with its minus sign for a negative number,
    parses to the same value without error. *)
Theorem SetInt32_then_Int32 (v : Int32 TableFile) (x : Z) :
  -2147483648 <= x < 2147483648 ->
  IsResID (FormatInt32 x) = false ->
  Int32_get (Int32_SetInt32 v x) = Ok (x, None).
Proof.
  intros Hx Hres. unfold Int32_Int32, Int32_SetInt32.
  cbn [int32_value]. rewrite Hres. cbn [negb].
  unfold FormatInt32 in *. destruct (Z.ltb_spec x 0) as [Hneg | Hpos].
  - destruct (decimal_loop_head 10 (- x) EmptyString) as (c & rest & Hs & Hc);
      [lia | lia |].
    pose proof (parse_decimal_loop 10 (- x) EmptyString) as Hparse.
    rewrite Hs in *. cbn [String.eqb Ascii.eqb Bool.eqb]. cbv iota.
    unfold ParseInt32.
    change (Ascii.eqb "-" "-") with true. change (Ascii.eqb "-" "+") with false.
    cbn [orb].
    rewrite Hparse; [| lia | change (10 ^ Z.of_nat 10) with 10000000000; lia].
    cbn [ParseUint_loop negb andb].
    replace (2147483648 <? - x) with false by (symmetry; apply Z.ltb_ge; lia).
    f_equal. f_equal. lia.
  - destruct (ParseInt32_of_decimal x) as [Hparse Hne]; [lia |].
    unfold Sprintf_d in *.
    replace (String.eqb (decimal_loop 10 x "") "") with false
      by (symmetry; now apply String.eqb_neq).
    rewrite Hparse.
    replace (x <? 2147483648) with true by (symmetry; apply Z.ltb_lt; lia).
    reflexivity.
Qed.

(** X17. [SetBool] followed by [Bool()] gives the boolean back, as long as
    [IsResID] does not take the words [true] and [false] for resource
    ids. *)
Theorem SetBool_then_Bool (v : Bool TableFile) (b : bool) :
  IsResID "true" = false -> IsResID "false" = false ->
  Bool_get (Bool_SetBool v b) = Ok (b, None).
Proof.
  intros Htrue Hfalse. unfold Bool_Bool, Bool_SetBool.
  cbn [bool_value]. destruct b; cbn [FormatBool];
    [rewrite Htrue | rewrite Hfalse]; reflexivity.
Qed.

(** X19. A facade whose value is a resource id resolves through the table
    and the config that were injected last: [Bool()] returns the boolean
    that [GetResource] finds for the parsed id with that table and config,
    returns the error of the parser or of the lookup as it is, and reports
    an invalid type, naming the type found, when the resource is not a
    boolean. *)
Theorem Bool_resolves_through_injection
    (v : Bool TableFile) (table table' : option TableFile)
    (config config' : option ResTableConfig) :
  IsResID (bool_value v) = true ->
  bool_value v <> EmptyString ->
  Bool_get (Bool_inject TableFile (Bool_inject TableFile v table' config')
              table config)
  = match ParseResID (bool_value v) with
    | inr err => Ok (false, Some err)
    | inl id =>
        match GetResource table id config with
        | Ok (inl (any_bool b)) => Ok (b, None)
        | Ok (inl other) => Ok (false, Some (ErrInvalidType (type_name other)))
        | Ok (inr err) => Ok (false, Some err)
        | Panic p => Panic p
        | OutOfFuel => OutOfFuel
        end
    end.
Proof.
  intros Hres Hne. unfold Bool_Bool, Bool_inject.
  cbn [bool_value bool_table bool_config].
  replace (String.eqb (bool_value v) "") with false
    by (symmetry; now apply String.eqb_neq).
  rewrite Hres. cbn [negb].
  destruct (ParseResID (bool_value v)) as [id | err]; [| reflexivity].
  destruct (GetResource table id config) as [[[b | z | s | n] | err] | p |];
    reflexivity.
Qed.

End FacadeProperties.

Lemma typed_attribute_reads_back_witness :
  attribute_value new_File int_attribute = Ok "1"%string
  /\ Int32_Int32 unit unit starts_with_at no_ParseResID no_GetResource
       (mkInt32 "1" None None) = Ok (1, None)
  /\ exists text,
       attribute_value new_File bool_attribute = Ok text
       /\ Bool_Bool unit unit starts_with_at no_ParseResID no_GetResource
            (mkBool text None None) = Ok (true, None).
Proof.
  destruct (typed_attribute_reads_back unit unit starts_with_at no_ParseResID
              no_GetResource new_File int_attribute None None)
    as [Hint _]; [reflexivity | vm_compute; split; congruence |].
  destruct (typed_attribute_reads_back unit unit starts_with_at no_ParseResID
              no_GetResource new_File bool_attribute None None)
    as [_ Hbool]; [reflexivity | vm_compute; split; congruence |].
  destruct Hint as [Hvalue Hread]; [reflexivity | reflexivity |].
  split; [exact Hvalue | split; [exact Hread |]].
  apply Hbool; reflexivity.
Defined.

Lemma SetInt32_then_Int32_witness :
  Int32_Int32 unit unit starts_with_at no_ParseResID no_GetResource
    (Int32_SetInt32 (mkInt32 "" None None) (-2147483648))
  = Ok (-2147483648, None).
Proof.
  apply (SetInt32_then_Int32 unit unit starts_with_at no_ParseResID
           no_GetResource (mkInt32 "" None None) (-2147483648));
    [lia | reflexivity].
Defined.

Lemma SetBool_then_Bool_witness :
  Bool_Bool unit unit starts_with_at no_ParseResID no_GetResource
    (Bool_SetBool (mkBool "" None None) true)
  = Ok (true, None).
Proof.
  apply (SetBool_then_Bool unit unit starts_with_at no_ParseResID
           no_GetResource (mkBool "" None None) true); reflexivity.
Defined.

(** ** Escaping *)

(** The three outcomes of [utf8.DecodeRune] on a non-empty input: an ASCII
    byte, an error of width 1, or a sequence of two to four bytes that are
    all at least [0x80]. *)
Lemma utf8_DecodeRune_cases (p0 : Z) (t : list Z) :
  let '(r, w) := utf8_DecodeRune (p0 :: t) in
  (p0 < 0x80 /\ r = p0 /\ w = 1%nat)
  \/ (r = RuneError /\ w = 1%nat)
  \/ (Forall (fun b => 0x80 <= b) (firstn w (p0 :: t)) /\ (2 <= w)%nat).
Proof.
  unfold utf8_DecodeRune.
  destruct (Z.ltb_spec p0 0x80) as [Hascii | Hhigh].
  { left. repeat split. exact Hascii. }
  destruct ((p0 <? 0xC2) || (0xF4 <? p0)); [right; left; now split |].
  destruct (length (p0 :: t) <? _)%nat; [right; left; now split |].
  destruct t as [| b1 t1]; [right; left; now split |].
  match goal with
  | |- context [(b1 <? ?lo) || (?hi <? b1)] =>
      assert (Hlo : 0x80 <= lo) by (repeat destruct (_ =? _); lia);
      destruct (Z.ltb_spec b1 lo) as [H1 | H1];
        [right; left; now split |];
      destruct (hi <? b1); [right; left; now split |]
  end.
  cbn [orb].
  destruct (_ <=? 2)%nat.
  { right; right. split; [| lia]. simpl. repeat constructor; lia. }
  destruct t1 as [| b2 t2]; [right; left; now split |].
  destruct (Z.ltb_spec b2 0x80) as [H2 | H2]; [right; left; now split |].
  destruct (0xBF <? b2); [right; left; now split |].
  cbn [orb].
  destruct (_ <=? 3)%nat.
  { right; right. split; [| lia]. simpl. repeat constructor; lia. }
  destruct t2 as [| b3 t3]; [right; left; now split |].
  destruct (Z.ltb_spec b3 0x80) as [H3 | H3]; [right; left; now split |].
  destruct (0xBF <? b3); [right; left; now split |].
  right; right. split; [| lia]. simpl. repeat constructor; lia.
Qed.

Lemma list_ascii_of_string_app (a b : string) :
  list_ascii_of_string (a ++ b) = list_ascii_of_string a ++ list_ascii_of_string b.
Proof. induction a as [| c a IH]; simpl; [reflexivity | now rewrite IH]. Qed.

Lemma no_markup_app (a b : string) :
  no_markup a -> no_markup b -> no_markup (a ++ b).
Proof.
  unfold no_markup. intros Ha Hb. rewrite list_ascii_of_string_app.
  apply Forall_app. now split.
Qed.

Lemma escape_of_no_markup (r : Z) (w : nat) (esc : string) :
  escape_of r w = Some esc -> no_markup esc.
Proof.
  unfold escape_of.
  repeat match goal with
         | |- (if ?c then _ else _) = _ -> _ => destruct c
         end;
    intros H; inversion H; unfold no_markup; simpl; repeat constructor.
Qed.

Lemma escape_of_none_ascii (c : ascii) :
  escape_of (ord c) 1 = None -> markup_char c = false.
Proof.
  unfold escape_of, markup_char.
  destruct (ord c =? 34); [discriminate |].
  destruct (ord c =? 39); [discriminate |].
  destruct (ord c =? 38); [discriminate |].
  destruct (ord c =? 60); [discriminate |].
  destruct (ord c =? 62); [discriminate |].
  reflexivity.
Qed.

Lemma high_byte_no_markup (c : ascii) : 0x80 <= ord c -> markup_char c = false.
Proof.
  intros Hc. unfold markup_char.
  replace (ord c =? 34) with false by (symmetry; apply Z.eqb_neq; lia).
  replace (ord c =? 39) with false by (symmetry; apply Z.eqb_neq; lia).
  replace (ord c =? 60) with false by (symmetry; apply Z.eqb_neq; lia).
  replace (ord c =? 62) with false by (symmetry; apply Z.eqb_neq; lia).
  reflexivity.
Qed.

Lemma escape_loop_no_markup (fuel : nat) (s : list ascii) :
  no_markup (escape_loop fuel s).
Proof.
  revert s. induction fuel as [| k IH]; intros s; [constructor |].
  destruct s as [| c rest]; [constructor |].
  unfold escape_loop; fold escape_loop.
  pose proof (utf8_DecodeRune_cases (ord c) (map ord rest)) as Hcases.
  change (ord c :: map ord rest) with (map ord (c :: rest)) in Hcases.
  destruct (utf8_DecodeRune (map ord (c :: rest))) as [r w].
  apply no_markup_app; [| apply IH].
  destruct (escape_of r w) as [esc |] eqn:Hesc.
  - now apply escape_of_no_markup in Hesc.
  - unfold no_markup. rewrite list_ascii_of_string_of_list_ascii.
    destruct Hcases as [(Hascii & -> & ->) | [(-> & ->) | (Hhigh & Hw)]].
    + simpl. constructor; [now apply escape_of_none_ascii | constructor].
    + discriminate Hesc.
    + rewrite firstn_map, Forall_map in Hhigh.
      eapply Forall_impl; [| exact Hhigh].
      intros a Ha. now apply high_byte_no_markup.
Qed.

(** X18. What [write_attribute] puts between the quotes of an attribute is
    the escaped value, and the escaped value holds no quote, no apostrophe,
    no [<] and no [>], whatever the value was: a value cannot end its own
    attribute or open a tag.  The qualified name before it is written as it
    is. *)
Theorem attribute_value_is_escaped (f : File) (attr : ResXMLTreeAttribute)
    (f' : File) :
  write_attribute f attr = Ok f' ->
  exists name value,
    AddNamespace f (attr_NS attr) (attr_Name attr) = Ok name
    /\ attribute_value f attr = Ok value
    /\ XMLBuffer f'
       = (XMLBuffer f ++ " " ++ name ++ "=" ++ quote ++ xml_Escape value
          ++ quote)%string
    /\ no_markup (xml_Escape value).
Proof.
  unfold write_attribute. intros H.
  apply bind_Ok in H. destruct H as (value & Hvalue & H).
  apply bind_Ok in H. destruct H as (name & Hname & H).
  inversion H. exists name, value. repeat split; try assumption.
  - rewrite !Fprint_Fprint. cbn [Fprint XMLBuffer]. f_equal.
    generalize quote as q. intros q. cbn [append].
    now rewrite !append_assoc.
  - apply escape_loop_no_markup.
Qed.

Lemma attribute_value_is_escaped_witness :
  exists f',
    write_attribute markup_pool_file raw_attribute = Ok f'
    /\ XMLBuffer f'
       = (" name=" ++ quote ++ "a&lt;b&gt;&#39;c&#39;" ++ quote)%string
    /\ no_markup "a&lt;b&gt;&#39;c&#39;".
Proof.
  destruct (write_attribute markup_pool_file raw_attribute) as [f' | p |] eqn:Hw.
  - destruct (attribute_value_is_escaped markup_pool_file raw_attribute f' Hw)
      as (name & value & Hname & Hvalue & Hbuf & Hclean).
    vm_compute in Hname. inversion Hname. subst name.
    vm_compute in Hvalue. inversion Hvalue. subst value.
    exists f'. split; [reflexivity | split; [exact Hbuf | exact Hclean]].
  - exfalso. vm_compute in Hw. discriminate Hw.
  - exfalso. vm_compute in Hw. discriminate Hw.
Defined.

Lemma Bool_resolves_through_injection_witness :
  Bool_Bool unit unit starts_with_at one_ParseResID true_GetResource
    (Bool_inject unit (Bool_inject unit (mkBool "@0x7F010000" None None) None None)
       (Some tt) None)
  = Ok (true, None).
Proof.
  apply (Bool_resolves_through_injection unit unit starts_with_at one_ParseResID
           true_GetResource (mkBool "@0x7F010000" None None) (Some tt) None None None);
    [reflexivity | discriminate].
Defined.

(** ** Writing and reading back *)

Lemma u8_byte_of (z : Z) : u8 (byte_of z) = z mod 256.
Proof.
  unfold u8, byte_of.
  pose proof (Z.mod_pos_bound z 256 ltac:(lia)) as Hmod.
  pose proof (to_of_N_option_map (Z.to_N (z mod 256))) as H.
  assert (Hle : (Z.to_N (z mod 256) <=? 255)%N = true) by (apply N.leb_le; lia).
  rewrite Hle in H.
  destruct (Byte.of_N (Z.to_N (z mod 256))) as [b |]; simpl in H; [| discriminate].
  inversion H as [Hb]. rewrite Hb. apply Z2N.id. lia.
Qed.

Lemma le16_put16 (x : Z) :
  0 <= x < 65536 ->
  Z.lor (u8 (byte_of x)) (Z.shiftl (u8 (byte_of (x / 256))) 8) = x.
Proof.
  intros Hx. rewrite !u8_byte_of.
  pose proof (Z.mod_pos_bound x 256 ltac:(lia)).
  assert (Hhigh : (x / 256) mod 256 = x / 256).
  { apply Z.mod_small. split; [apply Z.div_pos; lia |].
    apply Z.div_lt_upper_bound; lia. }
  rewrite Hhigh, Z.lor_comm, lor_shiftl_add by (change (2 ^ 8) with 256; lia).
  rewrite Z.shiftl_mul_pow2 by lia. change (2 ^ 8) with 256.
  rewrite (Z.div_mod x 256) at 3 by lia. lia.
Qed.

Lemma le32_put32 (x : Z) :
  0 <= x < 4294967296 ->
  Z.lor (Z.lor (u8 (byte_of x)) (Z.shiftl (u8 (byte_of (x / 256))) 8))
        (Z.lor (Z.shiftl (u8 (byte_of (x / 65536))) 16)
               (Z.shiftl (u8 (byte_of (x / 16777216))) 24)) = x.
Proof.
  intros Hx. rewrite lor4_sum by apply u8_range. rewrite !u8_byte_of.
  assert (H3 : (x / 16777216) mod 256 = x / 16777216).
  { apply Z.mod_small. split; [apply Z.div_pos; lia |].
    apply Z.div_lt_upper_bound; lia. }
  rewrite H3.
  assert (E1 : x / 65536 = x / 256 / 256)
    by (rewrite Zdiv.Zdiv_Zdiv by lia; reflexivity).
  assert (E2 : x / 16777216 = x / 256 / 256 / 256)
    by (rewrite !Zdiv.Zdiv_Zdiv by lia; reflexivity).
  rewrite E1, E2.
  pose proof (Z.div_mod x 256 ltac:(lia)).
  pose proof (Z.div_mod (x / 256) 256 ltac:(lia)).
  pose proof (Z.div_mod (x / 256 / 256) 256 ltac:(lia)).
  lia.
Qed.

Lemma le16s_put16s (xs : list Z) :
  Forall (fun x => 0 <= x < 65536) xs -> le16s (flat_map put16 xs) = xs.
Proof.
  induction 1 as [| x xs Hx _ IH]; [reflexivity |].
  cbn [flat_map put16 app le16s]. now rewrite le16_put16, IH.
Qed.

Lemma le32s_put32s (xs : list Z) :
  Forall (fun x => 0 <= x < 4294967296) xs -> le32s (flat_map put32 xs) = xs.
Proof.
  induction 1 as [| x xs Hx _ IH]; [reflexivity |].
  cbn [flat_map put32 app le32s]. now rewrite le32_put32, IH.
Qed.

Lemma len_put16s (xs : list Z) :
  len (flat_map put16 xs) = 2 * Z.of_nat (length xs).
Proof.
  unfold len. induction xs as [| x xs IH]; [reflexivity |].
  cbn [flat_map put16 app length]. lia.
Qed.

Lemma len_put32s (xs : list Z) :
  len (flat_map put32 xs) = 4 * Z.of_nat (length xs).
Proof.
  unfold len. induction xs as [| x xs IH]; [reflexivity |].
  cbn [flat_map put32 app length]. lia.
Qed.

(** UTF-16 code units below [0x80] decode to themselves and are written as
    one byte each. *)
Lemma ascii_units_decode (cs : list ascii) :
  Forall (fun c => ord c < 0x80) cs ->
  string_of_runes (utf16_Decode (map ord cs)) = string_of_list_ascii cs.
Proof.
  unfold string_of_runes. induction 1 as [| c cs Hc _ IH]; [reflexivity |].
  cbn [map utf16_Decode]. unfold surr1.
  replace (ord c <? 55296) with true by (symmetry; apply Z.ltb_lt; lia).
  cbn [orb flat_map]. unfold encode_rune at 1.
  replace (ord c <? 128) with true by (symmetry; apply Z.ltb_lt; lia).
  cbn [app string_of_list_ascii]. f_equal.
  - unfold chr, ord. rewrite N2Z.id. apply ascii_N_embedding.
  - exact IH.
Qed.

Lemma ord_range (c : ascii) : 0 <= ord c < 256.
Proof.
  unfold ord. pose proof (N_ascii_bounded c). lia.
Qed.

Lemma flat_map_put16_ord (cs : list ascii) :
  flat_map (fun c => put16 (ord c)) cs = flat_map put16 (map ord cs).
Proof. induction cs as [| c cs IH]; simpl; [reflexivity | now rewrite IH]. Qed.

Lemma high_bit_clear (x : Z) :
  0 <= x < 32768 -> (Z.land x 0x8000 =? 0) = true.
Proof.
  intros Hx. change 0x8000 with (2 ^ 15). rewrite land_pow2_testbit by lia.
  destruct (Z.eq_dec x 0) as [-> | Hnz]; [reflexivity |].
  rewrite Z.bits_above_log2; [reflexivity | lia |].
  apply Z.log2_lt_pow2; lia.
Qed.

(** A short ASCII string stored as [put_utf16] writes it reads back. *)
Lemma ReadUTF16_put_utf16 (src : list byte) (base cursor limit offset : Z)
    (pre post : list byte) (s : string) :
  short_ascii s ->
  src = pre ++ put_utf16 s ++ post ->
  base + offset = len pre ->
  len pre + len (put_utf16 s) <= limit ->
  exists cursor',
    ReadUTF16 (mkSR src base cursor limit) offset
    = (mkSR src base cursor' limit, inl s).
Proof.
  intros [Hshort Hascii] Hsrc Hpos Hlim.
  set (cs := list_ascii_of_string s) in *.
  assert (Hn : Z.of_nat (String.length s) = Z.of_nat (length cs))
    by (unfold cs; now rewrite length_list_ascii).
  set (n := Z.of_nat (String.length s)) in *.
  set (units := flat_map put16 (map ord cs)).
  assert (Hput : put_utf16 s = put16 n ++ units ++ put16 0).
  { unfold put_utf16. fold cs. fold n. now rewrite flat_map_put16_ord. }
  assert (Hunits : len units = 2 * n).
  { unfold units. rewrite len_put16s, length_map. lia. }
  rewrite Hput in Hsrc, Hlim. rewrite !len_app in Hlim.
  change (len (put16 n)) with 2 in Hlim. change (len (put16 0)) with 2 in Hlim.
  unfold ReadUTF16, Seek. cbn [sr_src sr_base sr_off sr_limit].
  rewrite (binary_Read_at decode_u16 src base (base + offset) limit 2
             pre (put16 n) (units ++ put16 0 ++ post));
    [| rewrite Hsrc, <- !app_assoc; reflexivity | exact Hpos | reflexivity | lia].
  assert (Hfirst : decode_u16 (put16 n) = n).
  { unfold decode_u16, le16, byte_at, put16. cbn [nth Nat.add].
    apply le16_put16. lia. }
  rewrite Hfirst, high_bit_clear by lia. cbn [negb].
  rewrite (binary_Read_at le16s src base (base + offset + 2) limit (2 * n)
             (pre ++ put16 n) units (put16 0 ++ post));
    [| rewrite Hsrc, <- !app_assoc; reflexivity
     | rewrite len_app; change (len (put16 n)) with 2; lia
     | now symmetry
     | rewrite len_app; change (len (put16 n)) with 2; lia].
  exists (base + offset + 2 + 2 * n). f_equal. f_equal.
  unfold units. rewrite le16s_put16s.
  - rewrite ascii_units_decode by exact Hascii.
    unfold cs. apply string_of_list_ascii_of_string.
  - apply Forall_map. apply Forall_forall. intros c _.
    pose proof (ord_range c). lia.
Qed.

Lemma wrap32_small (x : Z) : 0 <= x < 4294967296 -> wrap32 x = x.
Proof. intros Hx. unfold wrap32. now apply Z.mod_small. Qed.

(** The strings of a pool data block, read one after the other from their
    start offsets. *)
Lemma read_strings_pool (src : list byte) (base limit stringStart : Z)
    (pre post : list byte) (strs : list string) :
  Forall short_ascii strs ->
  base + stringStart = len pre -> 0 <= stringStart ->
  forall (done : list byte) (cursor : Z),
    src = pre ++ done ++ concat (map put_utf16 strs) ++ post ->
    stringStart + len done + len (concat (map put_utf16 strs)) < 4294967296 ->
    len pre + len done + len (concat (map put_utf16 strs)) <= limit ->
    exists cursor',
      read_strings 0 stringStart
        (string_starts (len done) (map put_utf16 strs))
        (mkSR src base cursor limit)
      = (mkSR src base cursor' limit, inl strs).
Proof.
  intros Hstrs Hpos Hstart.
  induction Hstrs as [| s rest Hs _ IH]; intros done cursor Hsrc Hsize Hlim.
  - exists cursor. reflexivity.
  - cbn [map concat string_starts read_strings] in *.
    rewrite len_app in Hsize, Hlim.
    pose proof (len_nonneg done). pose proof (len_nonneg (put_utf16 s)).
    pose proof (len_nonneg (concat (map put_utf16 rest))).
    change (Z.land 0 UTF8_FLAG =? 0) with true. cbv iota.
    rewrite wrap32_small by lia.
    destruct (ReadUTF16_put_utf16 src base cursor limit (stringStart + len done)
                (pre ++ done) (concat (map put_utf16 rest) ++ post) s Hs)
      as [c1 Hread].
    + rewrite Hsrc, <- !app_assoc. reflexivity.
    + rewrite len_app. lia.
    + rewrite len_app. lia.
    + rewrite Hread.
      destruct (IH (done ++ put_utf16 s) c1) as [c2 Hrest].
      * rewrite Hsrc, <- !app_assoc. reflexivity.
      * rewrite len_app. lia.
      * rewrite len_app. lia.
      * rewrite len_app in Hrest. rewrite Hrest. now exists c2.
Qed.

Lemma string_starts_range (encoded : list (list byte)) (pos : Z) :
  0 <= pos -> pos + len (concat encoded) < 4294967296 ->
  Forall (fun x => 0 <= x < 4294967296) (string_starts pos encoded)
  /\ length (string_starts pos encoded) = length encoded.
Proof.
  revert pos. induction encoded as [| e rest IH]; intros pos Hpos Hsize.
  - split; [constructor | reflexivity].
  - cbn [concat string_starts] in *. rewrite len_app in Hsize.
    pose proof (len_nonneg e). pose proof (len_nonneg (concat rest)).
    destruct (IH (pos + len e)) as [Hall Hlen]; [lia | lia |].
    split; [constructor; [lia | exact Hall] | simpl; now rewrite Hlen].
Qed.

(** The bytes of a pool: a header of 28 bytes that decodes to
    [pool_header], then the start offsets, then the strings. *)
Lemma pool_layout (flags : Z) (encoded : list (list byte)) :
  0 <= flags < 4294967296 ->
  28 + 4 * Z.of_nat (length encoded) + len (concat encoded) < 4294967296 ->
  exists hb,
    put_string_pool flags encoded
    = hb ++ flat_map put32 (string_starts 0 encoded) ++ concat encoded
    /\ len hb = 28
    /\ decode_ResStringPoolHeader hb = pool_header flags encoded.
Proof.
  intros Hflags Hsize. pose proof (len_nonneg (concat encoded)) as Hdata.
  set (count := Z.of_nat (length encoded)) in *.
  exists (put_header RES_STRING_POOL_TYPE 28 (28 + 4 * count + len (concat encoded))
          ++ put32 count ++ put32 0 ++ put32 flags ++ put32 (28 + 4 * count)
          ++ put32 0).
  split; [| split].
  - unfold put_string_pool. cbv zeta. fold count.
    unfold put_header. rewrite <- !app_assoc. reflexivity.
  - reflexivity.
  - unfold pool_header, decode_ResStringPoolHeader, decode_ResChunkHeader_at,
      le16, le32, byte_at. fold count.
    cbn [put_header put16 put32 app nth Nat.add].
    rewrite !le16_put16 by (unfold RES_STRING_POOL_TYPE; lia).
    rewrite !le32_put32 by lia. reflexivity.
Qed.

(** X20. A UTF-16 string pool laid out in the standard way (header, start
    offsets, then each string as its length, its code units and a null
    terminator) and holding short ASCII strings decodes to exactly those
    strings, in order, with the header that was written and no style,
    wherever the chunk stands in the source. *)
Theorem utf16_pool_reads_back
    (src : list byte) (base limit : Z) (pre post : list byte)
    (strs : list string) :
  Forall short_ascii strs ->
  src = pre ++ put_string_pool 0 (map put_utf16 strs) ++ post ->
  base = len pre ->
  len pre + len (put_string_pool 0 (map put_utf16 strs)) <= limit ->
  len (put_string_pool 0 (map put_utf16 strs)) < 4294967296 ->
  ReadStringPool (mkSR src base base limit)
  = inl (mkResStringPool (pool_header 0 (map put_utf16 strs)) strs []).
Proof.
  intros Hstrs Hsrc Hbase Hlim Hsize.
  set (encoded := map put_utf16 strs) in *.
  set (count := Z.of_nat (length encoded)).
  assert (Hlen : len (put_string_pool 0 encoded)
                 = 28 + 4 * count + len (concat encoded)).
  { unfold put_string_pool. cbv zeta. fold count. unfold put_header.
    rewrite !len_app, len_put32s.
    change (len (put16 RES_STRING_POOL_TYPE)) with 2.
    change (len (put16 28)) with 2.
    change (len (put32 (28 + 4 * count + len (concat encoded)))) with 4.
    change (len (put32 count)) with 4. change (len (put32 0)) with 4.
    change (len (put32 (28 + 4 * count))) with 4.
    assert (Hstarts : length (string_starts 0 encoded) = length encoded).
    { clear. generalize 0. induction encoded as [| e r IH]; intros p;
        [reflexivity | simpl; now rewrite IH]. }
    rewrite Hstarts. fold count. lia. }
  rewrite Hlen in Hsize, Hlim.
  pose proof (len_nonneg (concat encoded)) as Hdata.
  assert (Hcount : 0 <= count) by (unfold count; lia).
  destruct (pool_layout 0 encoded) as (hb & Hlayout & Hhb & Hdecode);
    [lia | fold count; lia |].
  destruct (string_starts_range encoded 0) as [Hrange Hstarts]; [lia | lia |].
  rewrite Hlayout in Hsrc.
  unfold ReadStringPool, binary_Read_ignore.
  rewrite (binary_Read_at decode_ResStringPoolHeader src base base limit
             sizeof_ResStringPoolHeader pre hb
             (flat_map put32 (string_starts 0 encoded) ++ concat encoded ++ post));
    [| rewrite Hsrc, <- !app_assoc; reflexivity | exact Hbase
     | now rewrite Hhb | unfold sizeof_ResStringPoolHeader; lia].
  rewrite Hdecode. unfold read_u32s_ignore, binary_Read_ignore.
  cbn [pool_header sph_StringCount sph_StyleCount sph_Flags sph_StringStart
         sph_StylesStart]. fold count.
  rewrite (binary_Read_at le32s src base (base + sizeof_ResStringPoolHeader)
             limit (4 * count) (pre ++ hb)
             (flat_map put32 (string_starts 0 encoded)) (concat encoded ++ post));
    [| rewrite Hsrc, <- !app_assoc; reflexivity
     | rewrite len_app, Hhb; unfold sizeof_ResStringPoolHeader; lia
     | rewrite len_put32s, Hstarts; reflexivity
     | rewrite len_app, Hhb; lia].
  rewrite le32s_put32s by exact Hrange.
  change (binary_Read (4 * 0) le32s
            (mkSR src base (base + sizeof_ResStringPoolHeader + 4 * count) limit))
    with (mkSR src base (base + sizeof_ResStringPoolHeader + 4 * count) limit,
          @inl (list Z) error []).
  destruct (read_strings_pool src base limit (28 + 4 * count)
              (pre ++ hb ++ flat_map put32 (string_starts 0 encoded)) post strs
              Hstrs) with (done := @nil byte)
              (cursor := base + sizeof_ResStringPoolHeader + 4 * count)
    as [c1 Hread].
  - rewrite !len_app, Hhb, len_put32s, Hstarts. fold count. lia.
  - lia.
  - rewrite Hsrc, <- !app_assoc. reflexivity.
  - change (len []) with 0. fold encoded. lia.
  - rewrite !len_app, Hhb, len_put32s, Hstarts. change (len []) with 0.
    fold encoded. fold count. lia.
  - change (len []) with 0 in Hread. fold encoded in Hread. rewrite Hread.
    reflexivity.
Qed.

Lemma utf16_pool_reads_back_witness :
  ReadStringPool (mkSR hello_pool 0 0 (len hello_pool))
  = inl (mkResStringPool
           (pool_header 0 [put_utf16 "hello"; put_utf16 "world"])
           ["hello"%string; "world"%string] []).
Proof.
  apply (utf16_pool_reads_back hello_pool 0 (len hello_pool) [] []
           ["hello"%string; "world"%string]).
  - repeat constructor; vm_compute; congruence.
  - unfold hello_pool. cbn [map]. rewrite app_nil_r. reflexivity.
  - reflexivity.
  - vm_compute. congruence.
  - vm_compute. reflexivity.
Defined.

(** ** UTF-16 text *)

Lemma shiftr_div (c n : Z) : 0 <= n -> Z.shiftr c n = c / 2 ^ n.
Proof. intros Hn. now apply Z.shiftr_div_pow2. Qed.

Lemma land_mod64 (c : Z) : Z.land c 0x3F = c mod 64.
Proof. change 0x3F with (Z.ones 6). rewrite Z.land_ones by lia. reflexivity. Qed.

(** A marker whose low [n] bits are clear, joined to a value of [n] bits. *)
Lemma lor_marker (k n x : Z) :
  0 <= n -> k mod 2 ^ n = 0 -> 0 <= x < 2 ^ n -> Z.lor k x = k + x.
Proof.
  intros Hn Hk Hx.
  assert (Hpow : 0 < 2 ^ n) by (apply Z.pow_pos_nonneg; lia).
  assert (Hshift : k = Z.shiftl (k / 2 ^ n) n).
  { rewrite Z.shiftl_mul_pow2 by lia.
    pose proof (Z.div_mod k (2 ^ n) ltac:(lia)). lia. }
  rewrite Hshift at 1. rewrite lor_shiftl_add by assumption.
  now rewrite <- Hshift.
Qed.

Ltac marker n :=
  apply (lor_marker _ n);
  [lia | reflexivity
  | first [ apply Z.mod_pos_bound; reflexivity
          | split; [apply Z.div_pos; lia | apply Z.div_lt_upper_bound; lia] ]].

(** [string(r)] writes the UTF-8 form of a scalar value. *)
Lemma encode_rune_utf8 (c : Z) :
  is_scalar c = true -> encode_rune c = map chr (utf8_bytes c).
Proof.
  unfold is_scalar. intros Hc.
  assert (Hrange : 0 <= c < 0xD800 \/ 0xE000 <= c <= 0x10FFFF) by lia.
  clear Hc. unfold encode_rune, utf8_bytes.
  assert (Hlow : Z.lor 0x80 (c mod 64) = 0x80 + c mod 64) by marker 6.
  assert (Hmid : Z.lor 0x80 ((c / 64) mod 64) = 0x80 + (c / 64) mod 64)
    by marker 6.
  assert (Htop : Z.lor 0x80 ((c / 4096) mod 64) = 0x80 + (c / 4096) mod 64)
    by marker 6.
  rewrite !shiftr_div, !land_mod64 by lia.
  change (2 ^ 6) with 64. change (2 ^ 12) with 4096.
  change (2 ^ 18) with 262144.
  rewrite Hlow, Hmid, Htop.
  destruct (Z.ltb_spec c 0x80) as [H1 | H1]; [reflexivity |].
  destruct (Z.ltb_spec c 0x800) as [H2 | H2].
  { assert (H : Z.lor 0xC0 (c / 64) = 0xC0 + c / 64) by marker 6.
    now rewrite H. }
  replace (((0xD800 <=? c) && (c <=? 0xDFFF)) || (0x10FFFF <? c)) with false
    by (symmetry; apply orb_false_iff; split;
        [apply andb_false_iff;
         destruct (Z.leb_spec 0xD800 c); [right; apply Z.leb_gt; lia | now left]
        | apply Z.ltb_ge; lia]).
  destruct (Z.ltb_spec c 0x10000) as [H3 | H3].
  { assert (H : Z.lor 0xE0 (c / 4096) = 0xE0 + c / 4096) by marker 4.
    now rewrite H. }
  assert (H : Z.lor 0xF0 (c / 262144) = 0xF0 + c / 262144) by marker 3.
  now rewrite H.
Qed.

Lemma string_of_runes_utf8 (text : list Z) :
  Forall (fun c => is_scalar c = true) text ->
  string_of_runes text = utf8_string text.
Proof.
  intros Htext. unfold string_of_runes, utf8_string. f_equal.
  induction Htext as [| c text Hc _ IH]; [reflexivity |].
  cbn [flat_map]. now rewrite map_app, IH, encode_rune_utf8.
Qed.

(** The code units of a scalar value are 16-bit values. *)
Lemma utf16_units_range (text : list Z) :
  Forall (fun c => is_scalar c = true) text ->
  Forall (fun u => 0 <= u < 65536) (flat_map utf16_units text).
Proof.
  induction 1 as [| c text Hc _ IH]; [constructor |].
  cbn [flat_map]. apply Forall_app. split; [| exact IH].
  unfold is_scalar in Hc. unfold utf16_units.
  destruct (Z.ltb_spec c 0x10000) as [Hlow | Hhigh].
  - constructor; [lia | constructor].
  - assert (0 <= (c - 0x10000) / 0x400 < 0x400)
      by (split; [apply Z.div_pos; lia | apply Z.div_lt_upper_bound; lia]).
    pose proof (Z.mod_pos_bound (c - 0x10000) 0x400 ltac:(lia)).
    repeat constructor; lia.
Qed.

(** [utf16.Decode] gives back the scalar values whose code units it is
    given. *)
Lemma utf16_Decode_units (text : list Z) :
  Forall (fun c => is_scalar c = true) text ->
  utf16_Decode (flat_map utf16_units text) = text.
Proof.
  induction 1 as [| c text Hc _ IH]; [reflexivity |].
  cbn [flat_map]. unfold is_scalar in Hc. unfold utf16_units at 1.
  destruct (Z.ltb_spec c 0x10000) as [Hlow | Hhigh].
  - cbn [app utf16_Decode]. unfold surr1, surr3.
    replace ((c <? 55296) || (57344 <=? c)) with true
      by (symmetry; apply orb_true_iff;
          destruct (Z.ltb_spec c 55296); [now left | right; apply Z.leb_le; lia]).
    now rewrite IH.
  - set (hi := 0xD800 + (c - 0x10000) / 0x400).
    set (lo := 0xDC00 + (c - 0x10000) mod 0x400).
    assert (Hq : 0 <= (c - 0x10000) / 0x400 < 0x400)
      by (split; [apply Z.div_pos; lia | apply Z.div_lt_upper_bound; lia]).
    pose proof (Z.mod_pos_bound (c - 0x10000) 0x400 ltac:(lia)) as Hr.
    cbn [app]. unfold utf16_Decode; fold utf16_Decode.
    unfold surr1, surr2, surr3.
    replace (hi <? 55296) with false by (symmetry; apply Z.ltb_ge; lia).
    replace (57344 <=? hi) with false by (symmetry; apply Z.leb_gt; lia).
    replace (hi <? 56320) with true by (symmetry; apply Z.ltb_lt; lia).
    replace (56320 <=? lo) with true by (symmetry; apply Z.leb_le; lia).
    replace (lo <? 57344) with true by (symmetry; apply Z.ltb_lt; lia).
    cbn [orb andb]. rewrite IH. f_equal.
    unfold utf16_DecodeRune, surr1, surr2.
    rewrite lor_shiftl_add by (change (2 ^ 10) with 1024; lia).
    rewrite Z.shiftl_mul_pow2 by lia. change (2 ^ 10) with 1024.
    pose proof (Z.div_mod (c - 0x10000) 0x400 ltac:(lia)). lia.
Qed.

(** C8. [ReadUTF16] reads the length [L1]; when its high bit is set it reads
    [L2] and the count is [((L1 & 0x7FFF) << 16) | L2], otherwise the count
    is [L1].  It then reads exactly that many code units and decodes them
    as UTF-16LE: for every text, a list of Unicode scalar values, stored as
    its UTF-16 code units in little-endian order (one unit below U+10000, a
    surrogate pair from there on) under a length that counts the units, the
    cursor stops right after the last unit and the string returned is the
    text, in the UTF-8 form of Go strings. *)
Theorem ReadUTF16_count_and_units
    (sr : SectionReader) (offset : Z) (pre post : list byte)
    (l0 l1 l2 l3 : byte) (text : list Z) :
  let L1 := le16 [l0; l1] 0 in
  let L2 := le16 [l2; l3] 0 in
  let prefix := if Z.testbit L1 15 then [l0; l1; l2; l3] else [l0; l1] in
  let count := utf16_count_spec L1 L2 in
  Forall (fun c => is_scalar c = true) text ->
  Z.of_nat (length (flat_map utf16_units text)) = count ->
  sr_src sr = pre ++ prefix ++ utf16le text ++ post ->
  sr_base sr + offset = len pre ->
  len pre + len prefix + 2 * count <= sr_limit sr ->
  ReadUTF16 sr offset
  = (mkSR (sr_src sr) (sr_base sr) (len pre + len prefix + 2 * count)
       (sr_limit sr),
     inl (utf8_string text)).
Proof.
  intros L1 L2 prefix count Htext Hcount Hsrc Hpos Hlim.
  destruct (ReadUTF16_reads sr offset pre (utf16le text) post l0 l1 l2 l3)
    as (Hread & _); [exact Hsrc | exact Hpos | | exact Hlim |].
  - unfold utf16le. rewrite len_put16s. fold L1 L2 count. lia.
  - fold L1 L2 prefix count in Hread. rewrite Hread. unfold utf16le.
    rewrite le16s_put16s by (now apply utf16_units_range).
    rewrite utf16_Decode_units by exact Htext.
    now rewrite string_of_runes_utf8.
Qed.

Lemma ReadUTF16_count_and_units_witness :
  ReadUTF16 (ReaderAt surrogate_utf16) 0
  = (mkSR surrogate_utf16 0 8 10, inl (utf8_string [0x48; 0x1F600]))
  /\ list_byte_of_string (utf8_string [0x48; 0x1F600])
     = [x48; xf0; x9f; x98; x80].
Proof.
  split; [| reflexivity].
  apply (ReadUTF16_count_and_units (ReaderAt surrogate_utf16) 0 []
           [x00; x00] x03 x00 x00 x00 [0x48; 0x1F600]).
  - repeat constructor.
  - reflexivity.
  - reflexivity.
  - reflexivity.
  - vm_compute. discriminate.
Defined.
